(** * JungAI decision engine: model/serve_api.py and model/lexicon.py

    A shallow embedding of the request path of the archetype classifier:
    the two text normalizers, the n-gram keyword matcher, the template
    rewrite and the [classify] route that fuses the classifier's
    probabilities with the lexicon evidence.

    Modelling conventions.
    - A Python [str] is the list of its Unicode code points ([N]).
    - A Python [dict] is an insertion-ordered association list whose keys
      are kept unique by [dict_set]; iteration order is list order.
    - A Python [set] that is only ever probed with [in] is the list of its
      members.
    - A Python [float] is an IEEE 754 double, held as the rational it
      denotes. Comparisons are exact (a double is below the double [0.55]
      exactly when it is below 55/100). The sum and the product of
      [0.52 + 0.48 * x] are each rounded to the nearest double, ties to
      even, as are the two literals. [round(x, 4)] rounds the exact value
      of [x] to the nearest multiple of 1/10000, ties to even; its result
      is written as that decimal, which names the double nearest to it.
    - Exceptions are results of the [outcome] type; [random] is an explicit
      stream of draws threaded through [rewrite] and [classify]. *)

From Stdlib Require Import String Ascii.
From Stdlib Require Import List NArith ZArith QArith Qround Qpower Qabs.
From Stdlib Require Import Bool Arith Lia Lqa.
From Stdlib Require Import Permutation Sorted.
Import ListNotations.

Local Open Scope list_scope.
Local Open Scope nat_scope.

(* ===================================================================== *)
(** ** Python runtime: strings *)
(* ===================================================================== *)

Module Py.

(** A string is its sequence of code points. *)
Definition str : Type := list N.

(** Literals of this file are written as ASCII strings. *)
Definition u (s : string) : str := map N_of_ascii (list_ascii_of_string s).

Definition str_eq_dec : forall a b : str, {a = b} + {a <> b} :=
  list_eq_dec N.eq_dec.

Definition str_eqb (a b : str) : bool :=
  if str_eq_dec a b then true else false.

(** [x in l] on a list or a set. *)
Definition contains (l : list str) (x : str) : bool :=
  existsb (str_eqb x) l.

Definition in_range (lo hi c : N) : bool := ((lo <=? c) && (c <=? hi))%N.

(** [str.isspace] on one code point; the same class is [\s] of [re] and
    the separator class of [str.split()] and [str.strip()]. *)
Definition isspace (c : N) : bool :=
  in_range 9 13 c || in_range 28 32 c || (c =? 133)%N || (c =? 160)%N
  || (c =? 5760)%N || in_range 8192 8202 c || (c =? 8232)%N || (c =? 8233)%N
  || (c =? 8239)%N || (c =? 8287)%N || (c =? 12288)%N.

Definition is_upper_az (c : N) : bool := in_range 65 90 c.
Definition is_lower_az (c : N) : bool := in_range 97 122 c.
Definition is_digit (c : N) : bool := in_range 48 57 c.

(** Lowercase form of one code point. ASCII letters are exact, and so are
    the two other code points whose lowercase form contains an ASCII
    letter (U+0130 and U+212A); the remaining cased code points are left
    as they are: their lowercase forms lie outside ASCII, like themselves. *)
Definition lower_cp (c : N) : list N :=
  if is_upper_az c then [(c + 32)%N]
  else if (c =? 304)%N then [105; 775]%N
  else if (c =? 8490)%N then [107]%N
  else [c].

(** [s.lower()] *)
Definition lower (s : str) : str := flat_map lower_cp s.

Definition upper_cp (c : N) : N := if is_lower_az c then (c - 32)%N else c.

(** [s.capitalize()]: first character upper-cased, the rest lower-cased.
    The upper-case form is exact for ASCII; other first characters are
    left as they are. *)
Definition capitalize (s : str) : str :=
  match s with
  | [] => []
  | c :: s' => upper_cp c :: lower s'
  end.

(** [s.split()]: maximal runs of non-space characters. [cur] is the token
    being read. *)
Fixpoint split_aux (cur : str) (s : str) : list str :=
  match s with
  | [] => match cur with [] => [] | _ => [cur] end
  | c :: s' =>
      if isspace c
      then match cur with
           | [] => split_aux [] s'
           | _ => cur :: split_aux [] s'
           end
      else split_aux (cur ++ [c]) s'
  end.

Definition split (s : str) : list str := split_aux [] s.

(** [sep.join(parts)] *)
Fixpoint join (sep : str) (parts : list str) : str :=
  match parts with
  | [] => []
  | [p] => p
  | p :: rest => p ++ sep ++ join sep rest
  end.

Fixpoint lstrip (s : str) : str :=
  match s with
  | c :: s' => if isspace c then lstrip s' else s
  | [] => []
  end.

Definition rstrip (s : str) : str := rev (lstrip (rev s)).

(** [s.strip()] *)
Definition strip (s : str) : str := rstrip (lstrip s).

(** [l[i:j]] for [0 <= i <= j]. *)
Definition slice {A : Type} (l : list A) (i j : nat) : list A :=
  firstn (j - i) (skipn i l).

(** [range(n)] for an integer [n]; empty when [n <= 0]. *)
Definition range (n : Z) : list nat := seq 0 (Z.to_nat n).

(** [len(l)] as a Python integer. *)
Definition len {A : Type} (l : list A) : Z := Z.of_nat (length l).

Fixpoint starts_with (p s : str) : bool :=
  match p, s with
  | [], _ => true
  | a :: p', b :: s' => (a =? b)%N && starts_with p' s'
  | _ :: _, [] => false
  end.

(** [s.replace(old, new)] for a non-empty [old]: occurrences are found left
    to right and do not overlap. [skip] counts the characters of an
    occurrence still to be dropped. *)
Fixpoint replace_aux (old new : str) (skip : nat) (s : str) : str :=
  match s with
  | [] => []
  | c :: s' =>
      match skip with
      | S k => replace_aux old new k s'
      | O =>
          if starts_with old s
          then new ++ replace_aux old new (length old - 1) s'
          else c :: replace_aux old new 0 s'
      end
  end.

(** [s.replace(old, new)]; an empty [old] matches before every character
    and at the end. *)
Definition str_replace (s old new : str) : str :=
  match old with
  | [] => flat_map (fun c => new ++ [c]) s ++ new
  | _ => replace_aux old new 0 s
  end.

(* --------------------------------------------------------------------- *)
(** *** Exceptions and the random source *)

Inductive exn : Type :=
| ValueError      (* max() of an empty sequence, malformed format string *)
| IndexError      (* subscript out of range, choice from an empty sequence *)
| KeyError        (* missing dict key, missing format field *)
| Unsupported.    (* outside the model: format fields with conversion, spec,
                     attribute or index; lower-casing beyond [lower] *)

Inductive outcome (A : Type) : Type :=
| Return (a : A)
| Raise (e : exn).
Arguments Return {A} a.
Arguments Raise {A} e.

(** The state of the [random] module: the stream of its future draws. *)
Definition RandomState : Type := nat -> nat.

(** Computations that may raise and may draw random numbers. *)
Definition M (A : Type) : Type := RandomState -> outcome A * RandomState.

Definition ret {A : Type} (a : A) : M A := fun g => (Return a, g).

Definition raise {A : Type} (e : exn) : M A := fun g => (Raise e, g).

Definition bind {A B : Type} (c : M A) (k : A -> M B) : M B :=
  fun g =>
    match c g with
    | (Return a, g') => k a g'
    | (Raise e, g') => (Raise e, g')
    end.

Definition lift {A : Type} (o : outcome A) : M A := fun g => (o, g).

Declare Scope py_scope.
Delimit Scope py_scope with py.
Notation "x <- c ;; k" := (bind c (fun x => k))
  (at level 61, c at next level, right associativity) : py_scope.

(** [random.choice(seq)] *)
Definition choice {A : Type} (seq : list A) : M A :=
  fun g =>
    match seq with
    | [] => (Raise IndexError, g)
    | x :: _ => (Return (nth (g 0 mod length seq) seq x), fun i => g (S i))
    end.

(** [l[i]] for [0 <= i]. *)
Definition index {A : Type} (l : list A) (i : nat) : outcome A :=
  match nth_error l i with
  | Some x => Return x
  | None => Raise IndexError
  end.

(* --------------------------------------------------------------------- *)
(** *** Dictionaries *)

Definition dict (V : Type) : Type := list (str * V).

(** [d.get(k)] *)
Fixpoint dict_get {V : Type} (d : dict V) (k : str) : option V :=
  match d with
  | [] => None
  | (k', v) :: d' => if str_eqb k' k then Some v else dict_get d' k
  end.

(** [d.get(k, default)] *)
Definition dict_get_or {V : Type} (d : dict V) (k : str) (default : V) : V :=
  match dict_get d k with
  | Some v => v
  | None => default
  end.

(** [d[k]] *)
Definition getitem {V : Type} (d : dict V) (k : str) : outcome V :=
  match dict_get d k with
  | Some v => Return v
  | None => Raise KeyError
  end.

(** [d[k] = v]: an existing key keeps its position, a new key goes last. *)
Fixpoint dict_set {V : Type} (d : dict V) (k : str) (v : V) : dict V :=
  match d with
  | [] => [(k, v)]
  | (k', v') :: d' =>
      if str_eqb k' k then (k', v) :: d' else (k', v') :: dict_set d' k v
  end.

Definition keys {V : Type} (d : dict V) : list str := map fst d.

(** [acc.update(pairs)]: the pairs are stored one after the other. *)
Definition set_all {V : Type} (pairs : list (str * V)) (acc : dict V) : dict V :=
  fold_left (fun acc kv => dict_set acc (fst kv) (snd kv)) pairs acc.

(** [dict(pairs)], and the dict comprehension over a sequence of pairs. *)
Definition dict_of_items {V : Type} (pairs : list (str * V)) : dict V :=
  set_all pairs [].

(* --------------------------------------------------------------------- *)
(** *** Builtins: max, sorted, round *)

(** The scan of [max]: a later item replaces [best] only when its key is
    strictly greater, so the first maximal item wins. *)
Fixpoint max_scan {A K : Type} (gt : K -> K -> bool) (key : A -> K)
    (best : A) (l : list A) : A :=
  match l with
  | [] => best
  | x :: l' =>
      if gt (key x) (key best) then max_scan gt key x l'
      else max_scan gt key best l'
  end.

(** [max(l, key=key)] *)
Definition max_by {A K : Type} (gt : K -> K -> bool) (key : A -> K)
    (l : list A) : outcome A :=
  match l with
  | [] => Raise ValueError
  | x :: l' => Return (max_scan gt key x l')
  end.

Definition Qltb (x y : Q) : bool := negb (Qle_bool y x).
Definition Qgtb (x y : Q) : bool := Qltb y x.
Definition nat_gtb (x y : nat) : bool := y <? x.

(** Insertion into a list sorted by decreasing key; the new item goes in
    front of the items with an equal key. *)
Fixpoint insert_desc {A : Type} (key : A -> Q) (x : A) (l : list A) : list A :=
  match l with
  | [] => [x]
  | y :: l' =>
      if Qle_bool (key y) (key x) then x :: y :: l'
      else y :: insert_desc key x l'
  end.

(** [sorted(l, key=key, reverse=True)]: decreasing keys, and items with
    equal keys in their original order (the sort is stable, also with
    [reverse=True]). *)
Fixpoint sorted_desc {A : Type} (key : A -> Q) (l : list A) : list A :=
  match l with
  | [] => []
  | x :: l' => insert_desc key x (sorted_desc key l')
  end.

(** Nearest integer, ties to the even one. *)
Definition round_half_even (x : Q) : Z :=
  let f := Qfloor x in
  match Qcompare (x - inject_Z f) (1 # 2) with
  | Lt => f
  | Gt => (f + 1)%Z
  | Eq => if Z.even f then f else (f + 1)%Z
  end.

(** [round(x, ndigits)] on a float. *)
Definition round (x : Q) (ndigits : nat) : Q :=
  let p := Pos.pow 10 (Pos.of_nat ndigits) in
  match ndigits with
  | O => inject_Z (round_half_even x)
  | _ => Qmake (round_half_even (x * inject_Z (Zpos p))) p
  end.

(* --------------------------------------------------------------------- *)
(** *** float arithmetic

    A [float] is an IEEE 754 binary64 number: 53 significant bits, the
    last of them worth [2 ** e] for an exponent [e] that is never below
    -1074 (the subnormal numbers). A finite float is held as the rational
    it denotes. A sum or a product is the exact result rounded to the
    nearest float, ties to the even significand, and a decimal literal
    denotes the float nearest to it. Results at or beyond [2 ** 1024]
    would be infinite; [0.52 + 0.48 * x] is below it for every finite [x]. *)

(** [floor(log2(x))] of a positive [x]. *)
Definition ilog2 (x : Q) : Z :=
  let l := (Z.log2 (Qnum x) - Z.log2 (Zpos (Qden x)))%Z in
  if Qle_bool (2 ^ l) x then l else (l - 1)%Z.

(** The exponent of the last significant bit of the floats around [x]. *)
Definition ulp_exp (x : Q) : Z := Z.max (-1074) (ilog2 (Qabs x) - 52).

(** The float nearest to [x], ties to even. *)
Definition fl (x : Q) : Q :=
  let e := ulp_exp x in
  (inject_Z (round_half_even (x / 2 ^ e)) * 2 ^ e)%Q.

(** [x + y] and [x * y] on floats. *)
Definition fadd (x y : Q) : Q := fl (x + y).
Definition fmul (x y : Q) : Q := fl (x * y).

(* --------------------------------------------------------------------- *)
(** *** str.format with keyword arguments

    Replacement fields are plain keyword names. A numeric name refers to a
    positional argument, of which there are none. *)

Inductive fmt_mode : Type :=
| Lit                 (* literal text *)
| Open                (* just after an opening brace *)
| Field (name : str)  (* inside a replacement field *)
| Close.              (* just after a closing brace in literal text *)

Definition emit {A : Type} (pre : list A) (o : outcome (list A)) : outcome (list A) :=
  match o with
  | Return s => Return (pre ++ s)
  | Raise e => Raise e
  end.

Definition lbrace : N := 123.
Definition rbrace : N := 125.

(** Characters that start a conversion, a format spec, an attribute or an
    index inside a replacement field. *)
Definition field_special (c : N) : bool :=
  (c =? 33)%N || (c =? 58)%N || (c =? 46)%N || (c =? 91)%N.

Fixpoint format_aux (kwargs : dict str) (m : fmt_mode) (s : str) : outcome str :=
  match s with
  | [] => match m with Lit => Return [] | _ => Raise ValueError end
  | c :: s' =>
      match m with
      | Lit =>
          if (c =? lbrace)%N then format_aux kwargs Open s'
          else if (c =? rbrace)%N then format_aux kwargs Close s'
          else emit [c] (format_aux kwargs Lit s')
      | Open =>
          if (c =? lbrace)%N then emit [lbrace] (format_aux kwargs Lit s')
          else if (c =? rbrace)%N then Raise IndexError
          else if field_special c then Raise Unsupported
          else format_aux kwargs (Field [c]) s'
      | Field name =>
          if (c =? rbrace)%N then
            if forallb is_digit name then Raise IndexError
            else match dict_get kwargs name with
                 | Some v => emit v (format_aux kwargs Lit s')
                 | None => Raise KeyError
                 end
          else if (c =? lbrace)%N then Raise ValueError
          else if field_special c then Raise Unsupported
          else format_aux kwargs (Field (name ++ [c])) s'
      | Close =>
          if (c =? rbrace)%N then emit [rbrace] (format_aux kwargs Lit s')
          else Raise ValueError
      end
  end.

(** Whether a computation returned rather than raised. *)
Definition returns {A : Type} (o : outcome A) : bool :=
  match o with
  | Return _ => true
  | Raise _ => false
  end.

(** [t.format(k1=v1, k2=v2, ...)] *)
Definition format (t : str) (kwargs : dict str) : outcome str :=
  format_aux kwargs Lit t.

End Py.

(* ===================================================================== *)
(** ** model/lexicon.py *)
(* ===================================================================== *)

Module lexicon.
Import Py.
Local Open Scope string_scope.

(** One archetype definition. The source stores it as a dict that is read
    with [lex.get(key, [])] (or [{}]) only, so an absent key and an empty
    value are the same thing: an empty field. *)
Record Lexicon : Type := mkLexicon {
  keywords : list str;
  replace : dict str;
  templates : list str;
  verbs : list str;
  verbs2 : list str;
  verbs3 : list str;
  benefits : list str
}.

(** The [{}] of [ARCHETYPES.get(target, {})]. *)
Definition no_lexicon : Lexicon := mkLexicon [] [] [] [] [] [] [].

Definition em_dash : str := [8212%N].

Definition REBEL : Lexicon := {|
  keywords := map u
    ["break"; "break rules"; "rule breaking"; "rule-breaking"; "rebel"; "outlaw"; "defy"; "defiant";
     "disrupt"; "nonconformist"; "unapologetic"; "maverick"; "against the grain"; "anarchy"; "riot";
     "unbound"; "bold"; "independent"; "freedom"; "smash"; "refuse"; "resist"; "revolt"];
  replace :=
    [(u "innovative", u "rule-breaking"); (u "features", u "firepower");
     (u "solutions", u "weapons"); (u "technology", u "anarchy-grade tech")];
  templates := map u
    ["We {verb} the rules so you can {benefit}.";
     "No permission needed. {brand} {verb2} limits.";
     "{brand} is for the ones who {verb3} conformity."];
  verbs := map u ["break"; "defy"; "smash"];
  verbs2 := map u ["obliterates"; "wrecks"];
  verbs3 := map u ["refuse"; "destroy"];
  benefits := map u ["move free"; "own your path"]
|}.

Definition CAREGIVER : Lexicon := {|
  keywords := map u
    ["care"; "caring"; "nurture"; "nurturing"; "protect"; "protection"; "support"; "supportive";
     "safe"; "safety"; "compassion"; "compassionate"; "empathy"; "gentle"; "warm"; "warmth";
     "embrace"; "family"; "trust"; "wellbeing"; "well being"; "well-being"; "shield"; "comfort";
     "soothe"; "reassure"; "healing"; "kindness"; "help"; "tender"; "listen"];
  replace := [(u "features", u "care standards"); (u "technology", u "care tech")];
  templates :=
    [(u "{brand} is here to {verb} you" ++ em_dash ++ u "every step.")%list;
     u "Because your {benefit} deserves gentle, proven care."];
  verbs := map u ["support"; "protect"];
  verbs2 := [];
  verbs3 := [];
  benefits := map u ["family"; "peace of mind"]
|}.

Definition EXPLORER : Lexicon := {|
  keywords := map u
    ["explore"; "discover"; "adventure"; "freedom"; "wander"; "roam"; "journey"; "trail"; "frontier";
     "off road"; "off-road"; "beyond"; "horizon"; "wild"; "map"; "path"; "route"; "expedition";
     "uncharted"; "out there"; "find your own way"];
  replace := [(u "features", u "trail tools"); (u "technology", u "navigation tech")];
  templates :=
    [(u "Go {verb} the map" ++ em_dash ++ u "{brand} equips your {benefit}.")%list;
     u "Every path is a story. {brand} gets you there."];
  verbs := map u ["beyond"; "off"];
  verbs2 := [];
  verbs3 := [];
  benefits := map u ["next route"; "bold journey"]
|}.

Definition ARCHETYPES : dict Lexicon :=
  [(u "Rebel", REBEL); (u "Caregiver", CAREGIVER); (u "Explorer", EXPLORER)].

End lexicon.

(* ===================================================================== *)
(** ** model/serve_api.py *)
(* ===================================================================== *)

Module serve_api.
Import Py.
Import lexicon.
Local Open Scope py_scope.

(** The loaded classifier, as far as the server uses it. *)
Record Model : Type := mkModel {
  classes_ : list str;
  predict_proba : list str -> list (list Q)
}.

(** Request body. *)
Record Inp : Type := mkInp { text : str }.

(** The successful reply of [/classify]. *)
Record Reply : Type := mkReply {
  label : str;
  confidence : Q;
  scores : dict Q;
  patterns_found : list str;
  patterns_missing : list str;
  patterns_found_all : dict (list str);
  suggestions : list str;
  example_rewrite : str
}.

Inductive Response : Type :=
| ErrorReply (error : str)
| Ok (r : Reply).

Definition space : N := 32.

(** [re.sub(r"http\S+", " ", s)]. [inside] holds while the scan is inside
    a match, whose characters after the [h] are all non-space. *)
Fixpoint sub_url (inside : bool) (s : str) : str :=
  match s with
  | [] => []
  | c :: s' =>
      if inside then
        if isspace c then c :: sub_url false s' else sub_url true s'
      else
        match s' with
        | t1 :: t2 :: p :: x :: _ =>
            if (c =? 104)%N && (t1 =? 116)%N && (t2 =? 116)%N && (p =? 112)%N
               && negb (isspace x)
            then space :: sub_url true s'
            else c :: sub_url false s'
        | _ => c :: sub_url false s'
        end
  end.

(** [re.sub(r"[^...]", " ", s)] for a negated character class. *)
Definition sub_outside (keep : N -> bool) (s : str) : str :=
  map (fun c => if keep c then c else space) s.

(** [re.sub(r"[...]", " ", s)] for a character class. *)
Definition sub_inside (cls : N -> bool) (s : str) : str :=
  map (fun c => if cls c then space else c) s.

(** [re.sub(r"\s+", " ", s)]. [in_run] holds just after a space. *)
Fixpoint sub_spaces (in_run : bool) (s : str) : str :=
  match s with
  | [] => []
  | c :: s' =>
      if isspace c then
        if in_run then sub_spaces true s' else space :: sub_spaces true s'
      else c :: sub_spaces false s'
  end.

(** The class [[A-Za-z0-9\s\-’'’]]. *)
Definition display_class (c : N) : bool :=
  is_upper_az c || is_lower_az c || is_digit c || isspace c
  || (c =? 45)%N || (c =? 8217)%N || (c =? 39)%N.

(** The class [[-–—_/]]. *)
Definition dash_class (c : N) : bool :=
  (c =? 45)%N || (c =? 8211)%N || (c =? 8212)%N || (c =? 95)%N || (c =? 47)%N.

(** The class [[a-z0-9\s]]. *)
Definition match_class (c : N) : bool :=
  is_lower_az c || is_digit c || isspace c.

Definition normalize_text (s : str) : str :=
  let s := sub_url false s in
  let s := sub_outside display_class s in
  let s := strip (sub_spaces false s) in
  s.

Definition _norm_for_match (s : str) : str :=
  let s := lower s in
  let s := sub_inside dash_class s in
  let s := sub_outside match_class s in
  let s := strip (sub_spaces false s) in
  s.

Definition _ngram_set (text : str) : list str :=
  let toks := split text in
  let grams := toks in
  let grams := grams ++
    map (fun i => join [space] (slice toks i (i + 2))) (range (len toks - 1)) in
  let grams := grams ++
    map (fun i => join [space] (slice toks i (i + 3))) (range (len toks - 2)) in
  grams.

Section Server.

(** [from .lexicon import ARCHETYPES] *)
Variable ARCHETYPES : dict Lexicon.

(** The module-level [model]: [None] when no model file was found. *)
Variable model : option Model.

Definition analyze_patterns_all (text : str) : dict (list str) :=
  let norm_text := _norm_for_match text in
  let grams := _ngram_set norm_text in
  fold_left
    (fun out (item : str * Lexicon) =>
       let (name, lex) := item in
       let hits :=
         fold_left
           (fun hits kw =>
              if contains grams (_norm_for_match kw) then hits ++ [lower kw]
              else hits)
           (keywords lex) [] in
       dict_set out name hits)
    ARCHETYPES [].

Definition pick (arr : list str) (default : str) : M str :=
  match arr with
  | [] => ret default
  | _ => choice arr
  end.

Definition rewrite (text target brand : str) : M str :=
  let lex := dict_get_or ARCHETYPES target no_lexicon in
  let text :=
    fold_left
      (fun text (kv : str * str) =>
         let (k, v) := kv in
         str_replace (str_replace text k v) (capitalize k) (capitalize v))
      (replace lex) text in
  let templates := templates lex in
  match templates with
  | [] =>
      let t := normalize_text text in
      ret (if 120 <? length t then firstn 120 t ++ u "..." else t)
  | _ =>
      t <- choice templates ;;
      verb <- pick (verbs lex) (u "support") ;;
      verb2 <- pick (verbs2 lex) (u "go") ;;
      verb3 <- pick (verbs3 lex) (u "move") ;;
      benefit <- pick (benefits lex) (u "what matters") ;;
      lift (format t [(u "brand", brand); (u "verb", verb); (u "verb2", verb2);
                      (u "verb3", verb3); (u "benefit", benefit)])
  end.

(** [{labels[i]: float(probs[i]) for i in range(len(labels))}] *)
Fixpoint score_dict (labels : list str) (probs : list Q) (acc : dict Q)
    (idx : list nat) : outcome (dict Q) :=
  match idx with
  | [] => Return acc
  | i :: idx' =>
      match index labels i, index probs i with
      | Return l, Return p => score_dict labels probs (dict_set acc l p) idx'
      | Raise e, _ => Raise e
      | _, Raise e => Raise e
      end
  end.

(** [a or b] on strings. *)
Definition str_or (a b : str) : str :=
  match a with
  | [] => b
  | _ => a
  end.

(** Truth value of [lex_label]. *)
Definition truthy (o : option str) : bool :=
  match o with
  | Some (_ :: _) => true
  | _ => false
  end.

(** Step 4 of [classify]: the lexicon-aware override of [(top, conf)]. *)
Definition override (scores : dict Q) (found_all : dict (list str))
    (top : str) (conf : Q) : outcome (str * Q) :=
  match found_all with
  | [] => Return (top, conf)
  | _ =>
    match max_by nat_gtb (fun k => length (dict_get_or found_all k [])) (keys found_all) with
    | Raise e => Raise e
    | Return lex_label =>
      let lex_hits := dict_of_items (map (fun kv => (fst kv, length (snd kv))) found_all) in
      if truthy (Some lex_label) && negb (str_eqb lex_label top) then
        match getitem lex_hits lex_label with
        | Raise e => Raise e
        | Return n =>
            let strong := 2 <=? n in
            let margin := dict_get_or lex_hits top 0 + 2 <=? n in
            let lowc := Qltb conf (55 # 100) in
            if strong && (margin || lowc) then
              let top := lex_label in
              Return (top, round (fadd (fl (52 # 100))
                                  (fmul (fl (48 # 100)) (dict_get_or scores top 0%Q))) 4)
            else Return (top, conf)
        end
      else Return (top, conf)
    end
  end.

Definition classify (inp : Inp) : M Response :=
  match model with
  | None =>
      ret (ErrorReply
             (u "Model not trained. Place model_v3.joblib (or v2/v1) in model/."))
  | Some model =>
      let raw_text := str_or (text inp) [] in
      let txt := normalize_text raw_text in
      let labels := classes_ model in
      probs <- lift (index (predict_proba model [txt]) 0) ;;
      scores <- lift (score_dict labels probs [] (range (len labels))) ;;
      let found_all := analyze_patterns_all txt in
      top <- lift (max_by Qgtb (fun k => dict_get_or scores k 0%Q) (keys scores)) ;;
      conf <- lift (getitem scores top) ;;
      top_conf <- lift (override scores found_all top conf) ;;
      let (top, conf) := top_conf : str * Q in
      let found_top := dict_get_or found_all top [] in
      let all_kws := map lower (keywords (dict_get_or ARCHETYPES top no_lexicon)) in
      let missing :=
        firstn 10 (filter (fun w => negb (contains found_top w)) all_kws) in
      ex <- rewrite raw_text top (u "Your brand") ;;
      let top3 :=
        dict_of_items (firstn 3 (sorted_desc (fun kv => snd kv) scores)) in
      ret (Ok {|
        label := top;
        confidence := round conf 4;
        scores := dict_of_items (map (fun kv => (fst kv, round (snd kv) 4)) top3);
        patterns_found := found_top;
        patterns_missing := missing;
        patterns_found_all := found_all;
        suggestions :=
          [ match missing with
            | [] => u "Nice coverage of key words."
            | _ => u "Use words like: " ++ join (u ", ") (firstn 5 missing)
            end;
            u "Use strong, direct verbs; cut corporate jargon." ];
        example_rewrite := ex
      |})
  end.

End Server.

End serve_api.

(* ===================================================================== *)
(** ** Notions used by the statements *)
(* ===================================================================== *)

Module Spec.
Import Py.
Import lexicon.
Import serve_api.

(** A token: non-empty and free of white space. *)
Definition token (t : str) : Prop :=
  t <> [] /\ Forall (fun c => isspace c = false) t.

(** [g] is the space-joined window of [n] consecutive tokens of [toks],
    for some [n] from 1 to 3. *)
Definition is_window (g : str) (toks : list str) : Prop :=
  exists i n, 1 <= n <= 3 /\ i + n <= length toks /\
              g = join [space] (firstn n (skipn i toks)).

(** The keywords of one archetype that [text] matches, lower-cased, in
    declaration order. *)
Definition hits_of (text : str) (lex : Lexicon) : list str :=
  map lower
    (filter (fun kw => contains (_ngram_set (_norm_for_match text)) (_norm_for_match kw))
            (keywords lex)).

(** Number of matched keywords of archetype [k] in a match result. *)
Definition hit_count (found_all : dict (list str)) (k : str) : nat :=
  length (dict_get_or found_all k []).

(** Classifier probability of label [k] in a score mapping. *)
Definition score (sc : dict Q) (k : str) : Q := dict_get_or sc k 0%Q.

(** [x] is the first item of [l] whose key is maximal: the items before it
    have a smaller key and no item after it has a greater one. *)
Definition first_max {A K : Type} (gt : K -> K -> bool) (key : A -> K)
    (l : list A) (x : A) : Prop :=
  exists l1 l2, l = l1 ++ x :: l2 /\
    (forall y, In y l1 -> gt (key x) (key y) = true) /\
    (forall y, In y l2 -> gt (key y) (key x) = false).

(** The score mapping that [classify] builds for the text [txt]. *)
Definition scores_of (m : Model) (txt : str) : dict Q :=
  dict_of_items (combine (classes_ m) (hd [] (predict_proba m [txt]))).

(** The classifier answers [txt] with one row that has a probability for
    each of its (at least one) classes. *)
Definition serves (m : Model) (txt : str) : bool :=
  match predict_proba m [txt], classes_ m with
  | row :: _, _ :: _ => length (classes_ m) <=? length row
  | _, _ => false
  end.

(** The keyword arguments every template is formatted with. *)
Definition slot_names : list str :=
  [u "brand"; u "verb"; u "verb2"; u "verb3"; u "benefit"].

(** The template is a well-formed format string over the five slots. *)
Definition renders (t : str) : bool :=
  match format t (map (fun k => (k, [])) slot_names) with
  | Return _ => true
  | Raise _ => false
  end.

Definition templates_render (A : dict Lexicon) : bool :=
  forallb (fun item => forallb renders (templates (snd item))) A.

(** The registry is not empty and no archetype name is the empty string. *)
Definition names_ok (A : dict Lexicon) : bool :=
  match A with
  | [] => false
  | _ => forallb (fun item => match fst item with [] => false | _ => true end) A
  end.

(** The override condition of the decision engine. *)
Definition strong (found_all : dict (list str)) (lexLabel : str) : bool :=
  2 <=? hit_count found_all lexLabel.

Definition margin (found_all : dict (list str)) (lexLabel top : str) : bool :=
  hit_count found_all top + 2 <=? hit_count found_all lexLabel.

Definition lowConfidence (conf : Q) : bool := Qltb conf (55 # 100).

Definition fires (found_all : dict (list str)) (lexLabel top : str) (conf : Q) : bool :=
  strong found_all lexLabel
  && (margin found_all lexLabel top || lowConfidence conf)
  && negb (str_eqb lexLabel top).

(** The label with the most matched keywords, if there is any label. *)
Definition lex_label_of (fa : dict (list str)) : option str :=
  match keys fa with
  | [] => None
  | k :: ks => Some (max_scan nat_gtb (hit_count fa) k ks)
  end.

(** The blended confidence of an overridden decision,
    [round(0.52 + 0.48 * classifierScore[lexLabel], 4)] on floats. *)
Definition blend (sc : dict Q) (lexLabel : str) : Q :=
  round (fadd (fl (52 # 100)) (fmul (fl (48 # 100)) (score sc lexLabel))) 4.

(** [a] stands before [b] in [l]. *)
Definition precedes {A : Type} (l : list A) (a b : A) : Prop :=
  exists l1 l2 l3, l = l1 ++ a :: l2 ++ b :: l3.

(** Ranking of the entries of [l] by decreasing key; entries with equal
    keys rank in their order in [l]. *)
Definition ranked_before {A : Type} (key : A -> Q) (l : list A) (a b : A) : Prop :=
  (key b < key a)%Q \/ ((key a == key b)%Q /\ precedes l a b).

(** Ranking of classifier entries: decreasing score, ties in label order. *)
Definition outranks (sc : dict Q) (a b : str * Q) : Prop :=
  ranked_before (fun kv => snd kv) sc a b.

(** The label and confidence after the override step, given the
    classifier's [top] and [conf]. *)
Definition final (sc : dict Q) (fa : dict (list str)) (top : str) (conf : Q) : str * Q :=
  match lex_label_of fa with
  | Some lexLabel =>
      if truthy (Some lexLabel) && fires fa lexLabel top conf
      then (lexLabel, blend sc lexLabel)
      else (top, conf)
  | None => (top, conf)
  end.

(** The reply assembled from the score mapping [sc], the match result
    [fa], the classifier's [top] and [conf] and the example rewrite [ex]. *)
Definition reply_of (A : dict Lexicon) (sc : dict Q) (fa : dict (list str))
    (top : str) (conf : Q) (ex : str) : Reply :=
  let top' := fst (final sc fa top conf) in
  let found_top := dict_get_or fa top' [] in
  let missing :=
    firstn 10
      (filter (fun w => negb (contains found_top w))
         (map lower (keywords (dict_get_or A top' no_lexicon)))) in
  {| label := top';
     confidence := round (snd (final sc fa top conf)) 4;
     scores := map (fun kv => (fst kv, round (snd kv) 4))
                 (firstn 3 (sorted_desc (fun kv => snd kv) sc));
     patterns_found := found_top;
     patterns_missing := missing;
     patterns_found_all := fa;
     suggestions :=
       [ match missing with
         | [] => u "Nice coverage of key words."
         | _ => u "Use words like: " ++ join (u ", ") (firstn 5 missing)
         end;
         u "Use strong, direct verbs; cut corporate jargon." ];
     example_rewrite := ex |}.

(** No string occurs twice in [l]. *)
Fixpoint unique (l : list str) : bool :=
  match l with
  | [] => true
  | x :: l' => negb (contains l' x) && unique l'
  end.

(** The word replacements of [rewrite], applied in the order of the
    mapping: each pair literally, then in its capitalized form. *)
Definition replaced (lex : Lexicon) (text : str) : str :=
  fold_left
    (fun text (kv : str * str) =>
       let (k, v) := kv in
       str_replace (str_replace text k v) (capitalize k) (capitalize v))
    (replace lex) text.

(** The text the fallback of [rewrite] returns for the normalized text [t]. *)
Definition truncated (t : str) : str :=
  if length t <=? 120 then t else firstn 120 t ++ u "...".

End Spec.

(* ===================================================================== *)
(** * Example inputs *)
(* ===================================================================== *)

Module Examples.
Import Py lexicon serve_api.
Local Open Scope string_scope.

(** A classifier over the three archetypes (sklearn keeps [classes_]
    sorted) that answers every text with the same row. *)
Definition constant_model (row : list Q) : Model :=
  mkModel [u "Caregiver"; u "Explorer"; u "Rebel"] (fun _ => [row]).

(** Rebel 0.40, Caregiver 0.35, Explorer 0.25. *)
Definition undecided : Model :=
  constant_model (map fl [35 # 100; 25 # 100; 40 # 100]).

(** Rebel 0.70, Caregiver 0.20, Explorer 0.10. *)
Definition confident : Model :=
  constant_model (map fl [20 # 100; 10 # 100; 70 # 100]).

(** Rebel 0.5, Explorer 0.4453125, Caregiver 0.0546875: three floats
    with the sum 1. *)
Definition halved : Model := constant_model [7 # 128; 57 # 128; 64 # 128].

(** A classifier whose label set has a label unknown to the lexicon. *)
Definition stranger : Model :=
  mkModel [u "Hero"; u "Rebel"] (fun _ => [map fl [90 # 100; 10 # 100]]).

(** A text with the Caregiver keywords care, protect and family. *)
Definition caring_text : str := u "We care for and protect your family.".

(** The random source whose [n]-th draw is [n]. *)
Definition counting : RandomState := fun n => n.

End Examples.

(* ===================================================================== *)
(** ** scripts/windowize_dataset.py *)
(* ===================================================================== *)

Module windowize_dataset.
Import Py.
Import serve_api.

(** [range(0, stop, step)] for a step that is not negative: the multiples
    of [step] below [stop]; a zero step raises. *)
Definition range_step (stop : Z) (step : nat) : outcome (list nat) :=
  match step with
  | O => Raise ValueError
  | _ =>
      Return (map (fun k => k * step)
                (seq 0 (Z.to_nat ((stop + Z.of_nat step - 1) / Z.of_nat step))))
  end.

(** [windows(text, size, step, minlen)]. The three numbers are natural
    numbers; the script calls it with the defaults 350, 250 and 120. *)
Definition windows (text : str) (size step minlen : nat) : outcome (list str) :=
  let text := strip (sub_spaces false text) in
  match range_step (Z.max 1 (len text - Z.of_nat size + 1)) step with
  | Raise e => Raise e
  | Return idx =>
      let out :=
        fold_left
          (fun out i =>
             let chunk := slice text i (i + size) in
             if minlen <=? length chunk then out ++ [chunk] else out)
          idx [] in
      Return match out with
             | [] => if minlen <=? length text then [slice text 0 size] else []
             | _ => out
             end
  end.

End windowize_dataset.

(* ===================================================================== *)
(** ** scripts/collect_google_cse.py *)
(* ===================================================================== *)

Module collect_google_cse.
Import Py.
Import serve_api.

(** The class [[\r\n\t]]. *)
Definition line_class (c : N) : bool :=
  (c =? 13)%N || (c =? 10)%N || (c =? 9)%N.

(** [re.sub(r"[...]+", " ", s)] for a character class. [in_run] holds just
    after a character of the class. *)
Fixpoint sub_runs (cls : N -> bool) (in_run : bool) (s : str) : str :=
  match s with
  | [] => []
  | c :: s' =>
      if cls c then
        if in_run then sub_runs cls true s' else space :: sub_runs cls true s'
      else c :: sub_runs cls false s'
  end.

Definition normalize_text (s : str) : str :=
  let s := str_replace s [0%N] [space] in
  let s := sub_runs line_class false s in
  let s := sub_spaces false s in
  strip s.

Section Links.

(** One item of a search response: its [link], if it has one. *)
Definition Item : Type := option str.

(** The network: [google_search i q start] is the item list of the
    response to the query [q], the [i]-th of the run, from result number
    [start] on (empty when the request fails or has no items). *)
Variable google_search : nat -> str -> nat -> list Item.

(** [--per_query] *)
Variable per_query : Z.

(** [seen], [links] and [count]. *)
Definition Progress : Type := (list str * list str * nat)%type.

(** The [for it in items] loop; it stops as soon as [count] reaches
    [per_query]. *)
Fixpoint scan_items (items : list Item) (st : Progress) : Progress :=
  match items with
  | [] => st
  | it :: rest =>
      let '(seen, links, count) := st in
      match it with
      | Some (c :: l) =>
          let link := c :: l in
          if contains seen link then scan_items rest st
          else
            let st' := (seen ++ [link], links ++ [link], S count) in
            if (per_query <=? Z.of_nat (S count))%Z then st'
            else scan_items rest st'
      | _ => scan_items rest st
      end
  end.

(** The values of [start]: 1, 11, ..., 91. *)
Definition starts : list nat := map (fun k => 1 + 10 * k) (seq 0 10).

(** The [while count < per_query and start <= 91] loop over the [starts]
    still to come. *)
Fixpoint pages (i : nat) (q : str) (todo : list nat) (st : Progress) : Progress :=
  match todo with
  | [] => st
  | start :: todo' =>
      let '(_, _, count) := st in
      if (Z.of_nat count <? per_query)%Z then
        match google_search i q start with
        | [] => st
        | items => pages i q todo' (scan_items items st)
        end
      else st
  end.

(** The [for q in queries] loop; [i] numbers the queries. *)
Fixpoint queries_loop (i : nat) (queries : list str) (seen links : list str)
    : list str * list str :=
  match queries with
  | [] => (seen, links)
  | q :: queries' =>
      let '(seen', links', _) := pages i q starts (seen, links, 0) in
      queries_loop (S i) queries' seen' links'
  end.

Definition collect_links (queries : list str) : list str :=
  snd (queries_loop 0 queries [] []).

End Links.

End collect_google_cse.

(* ===================================================================== *)
(** ** model/encoders.py *)
(* ===================================================================== *)

Module encoders.
Import Py.
Import serve_api.

Definition backslash : N := 92.

(** State of the scan of a pattern made of a literal and a repeated
    character: copying, or inside a match with [left] characters of its
    mandatory part still to drop ([Inside 0]: in the repetition). *)
Inductive scan : Type :=
| Copy
| Inside (left : nat).

(** [re.sub(p, " ", s)] where [p] is the literal [lit] followed by one or
    more [c]. *)
Fixpoint sub_literal_run (lit : str) (c : N) (st : scan) (s : str) : str :=
  match s with
  | [] => []
  | x :: s' =>
      let copy :=
        if starts_with (lit ++ [c]) s
        then space :: sub_literal_run lit c (Inside (length lit)) s'
        else x :: sub_literal_run lit c Copy s' in
      match st with
      | Copy => copy
      | Inside (S k) => sub_literal_run lit c (Inside k) s'
      | Inside O => if (x =? c)%N then sub_literal_run lit c (Inside 0) s' else copy
      end
  end.

(** The class of [r"[^A-Za-z0-9\\s\\-’'’]"]: in the raw string the two
    doubled backslashes are literal backslashes, so the class holds the
    letters and digits, the backslash, [s], the range from the backslash
    to U+2019, and the apostrophe. *)
Definition norm_class (c : N) : bool :=
  is_upper_az c || is_lower_az c || is_digit c
  || (c =? backslash)%N || (c =? 115)%N || in_range backslash 8217 c
  || (c =? 39)%N || (c =? 8217)%N.

(** The code points on which [lower] is [str.lower] whatever stands
    around them: ASCII, and the general punctuation from U+2000 to U+2019,
    which has no case. The class keeps every code point from the backslash
    to U+2019, among them the cased letters of the other scripts, whose
    lower-case forms [lower] does not hold. *)
Definition lower_exact (c : N) : bool := (c <? 128)%N || in_range 8192 8217 c.

(** [_norm]: the patterns [r"http\\S+"] and [r"\\s+"] are [http] and a
    backslash followed by capital S's, and a backslash followed by
    small s's. The result is [Raise Unsupported] when a character reaches
    [.lower()] on which [lower] is not known to be exact. *)
Definition _norm (s : str) : outcome str :=
  let s := sub_literal_run (u "http" ++ [backslash]) 83 Copy s in
  let s := sub_outside norm_class s in
  let s := strip (sub_literal_run [backslash] 115 Copy s) in
  if forallb lower_exact s then Return (lower s) else Raise Unsupported.

End encoders.

(* ===================================================================== *)
(** ** Further notions used by the statements *)
(* ===================================================================== *)

Module Notions.
Import Py.
Import lexicon.
Import serve_api.
Import Spec.

(** The characters of a match-normalized token. *)
Definition lower_alnum (c : N) : bool := is_lower_az c || is_digit c.

(** The characters of a display-normalized token. *)
Definition display_char (c : N) : bool :=
  is_upper_az c || is_lower_az c || is_digit c
  || (c =? 45)%N || (c =? 8217)%N || (c =? 39)%N.

(** The text of [_norm_for_match] before white space is collapsed. *)
Definition blanked (s : str) : str :=
  sub_outside match_class (sub_inside dash_class (lower s)).

(** A code point that match normalization blanks: anything but an ASCII
    letter or digit and the two code points that lower-case to an ASCII
    letter. *)
Definition blank (c : N) : bool :=
  negb (is_upper_az c || is_lower_az c || is_digit c
        || (c =? 304)%N || (c =? 8490)%N).

(** Two characters the matcher does not tell apart: the same up to case,
    or both blanked. *)
Definition alike (a b : N) : Prop :=
  lower_cp a = lower_cp b \/ (blank a = true /\ blank b = true).

(** [sub] occurs in [l] as a run of consecutive items. *)
Definition occurs_in {A : Type} (sub l : list A) : Prop :=
  exists pre post, l = pre ++ sub ++ post.

(** [s] starts with [http] and one more character that is not white
    space: a match of [http\S+] starts here. *)
Definition url_at (s : str) : bool :=
  match s with
  | h :: t1 :: t2 :: p :: x :: _ =>
      (h =? 104)%N && (t1 =? 116)%N && (t2 =? 116)%N && (p =? 112)%N
      && negb (isspace x)
  | _ => false
  end.

(** [http\S+] matches somewhere in [s]. *)
Fixpoint has_url (s : str) : bool :=
  match s with
  | [] => false
  | _ :: s' => url_at s || has_url s'
  end.

(** [v] is a possible pick for a slot: a member of the slot's list, or the
    default when the list is empty. *)
Definition slot_value (arr : list str) (default v : str) : Prop :=
  match arr with
  | [] => v = default
  | _ => In v arr
  end.

End Notions.

(* ===================================================================== *)
(** * Properties of the runtime model *)
(* ===================================================================== *)

Module PyFacts.
Import Py.

Lemma str_eqb_eq (a b : str) : str_eqb a b = true <-> a = b.
Proof.
  unfold str_eqb. destruct (str_eq_dec a b); split; congruence.
Qed.

Lemma str_eqb_refl (a : str) : str_eqb a a = true.
Proof. now apply str_eqb_eq. Qed.

Lemma str_eqb_neq (a b : str) : str_eqb a b = false <-> a <> b.
Proof.
  unfold str_eqb. destruct (str_eq_dec a b); split; congruence.
Qed.

Lemma contains_In (l : list str) (x : str) : contains l x = true <-> In x l.
Proof.
  unfold contains. rewrite existsb_exists. split.
  - intros [y [Hy E]]. apply str_eqb_eq in E. now subst.
  - intros H. exists x. split; [assumption | apply str_eqb_refl].
Qed.

(** *** Dictionaries *)

Section Dict.
Context {V : Type}.
Implicit Types (d acc : dict V) (pairs : list (str * V)) (k : str) (v : V).

Lemma dict_get_set_same d k v : dict_get (dict_set d k v) k = Some v.
Proof.
  induction d as [| [k' v'] d IH]; simpl.
  - now rewrite str_eqb_refl.
  - destruct (str_eqb k' k) eqn:E; simpl; rewrite E; auto.
Qed.

Lemma dict_get_set_other d k k' v :
  k <> k' -> dict_get (dict_set d k v) k' = dict_get d k'.
Proof.
  intros N. induction d as [| [k0 v0] d IH]; simpl.
  - apply str_eqb_neq in N. now rewrite N.
  - destruct (str_eqb k0 k) eqn:E; simpl.
    + apply str_eqb_eq in E. subst k0. apply str_eqb_neq in N. now rewrite N.
    + now rewrite IH.
Qed.

Lemma dict_get_In d k v : dict_get d k = Some v -> In (k, v) d.
Proof.
  induction d as [| [k0 v0] d IH]; simpl; [discriminate |].
  destruct (str_eqb k0 k) eqn:E.
  - apply str_eqb_eq in E. intros [= ->]. subst. now left.
  - intros H. right. auto.
Qed.

Lemma dict_get_None d k : dict_get d k = None <-> ~ In k (keys d).
Proof.
  induction d as [| [k0 v0] d IH]; simpl.
  - tauto.
  - destruct (str_eqb k0 k) eqn:E.
    + apply str_eqb_eq in E. split; [discriminate | tauto].
    + apply str_eqb_neq in E. rewrite IH. tauto.
Qed.

Lemma dict_get_Some_key d k v : dict_get d k = Some v -> In k (keys d).
Proof.
  intros H. apply dict_get_In in H. unfold keys.
  now apply (in_map fst) in H.
Qed.

Lemma In_keys_get d k : In k (keys d) -> exists v, dict_get d k = Some v.
Proof.
  intros H. destruct (dict_get d k) eqn:E; [eauto |].
  now apply dict_get_None in E.
Qed.

Lemma In_dict_get d k v : NoDup (keys d) -> In (k, v) d -> dict_get d k = Some v.
Proof.
  induction d as [| [k0 v0] d IH]; simpl; [tauto |].
  intros ND [H | H].
  - injection H as -> ->. now rewrite str_eqb_refl.
  - inversion ND as [| ? ? Hn ND']; subst.
    destruct (str_eqb k0 k) eqn:E.
    + apply str_eqb_eq in E. subst k0. exfalso. apply Hn.
      now apply (in_map fst) in H.
    + auto.
Qed.

Lemma keys_dict_set_old d k v :
  In k (keys d) -> keys (dict_set d k v) = keys d.
Proof.
  induction d as [| [k0 v0] d IH]; simpl; [tauto |].
  destruct (str_eqb k0 k) eqn:E; simpl.
  - reflexivity.
  - intros [H | H].
    + subst. now rewrite str_eqb_refl in E.
    + unfold keys in *. now rewrite IH.
Qed.

Lemma dict_set_new d k v :
  ~ In k (keys d) -> dict_set d k v = d ++ [(k, v)].
Proof.
  induction d as [| [k0 v0] d IH]; simpl; [reflexivity |].
  intros H. destruct (str_eqb k0 k) eqn:E.
  - apply str_eqb_eq in E. tauto.
  - rewrite IH; tauto.
Qed.

Lemma In_keys_dict_set d k v k' :
  In k' (keys (dict_set d k v)) <-> k' = k \/ In k' (keys d).
Proof.
  destruct (in_dec str_eq_dec k (keys d)) as [H | H].
  - rewrite keys_dict_set_old by assumption. split; [tauto |].
    intros [-> | ?]; assumption.
  - rewrite dict_set_new by assumption. unfold keys. rewrite map_app, in_app_iff.
    simpl. intuition.
Qed.

Lemma NoDup_keys_dict_set d k v :
  NoDup (keys d) -> NoDup (keys (dict_set d k v)).
Proof.
  intros ND. destruct (in_dec str_eq_dec k (keys d)) as [H | H].
  - now rewrite keys_dict_set_old.
  - rewrite dict_set_new by assumption. unfold keys. rewrite map_app. simpl.
    apply NoDup_app_remove_l with (l := []). simpl.
    apply Permutation_NoDup with (l := k :: map fst d).
    + apply Permutation_cons_append.
    + now constructor.
Qed.

Lemma NoDup_keys_set_all pairs acc :
  NoDup (keys acc) -> NoDup (keys (set_all pairs acc)).
Proof.
  revert acc. induction pairs as [| [k v] pairs IH]; intros acc ND; simpl.
  - assumption.
  - apply IH. now apply NoDup_keys_dict_set.
Qed.

Lemma NoDup_keys_dict_of_items (pairs : list (str * V)) :
  NoDup (keys (dict_of_items pairs)).
Proof. apply NoDup_keys_set_all. constructor. Qed.

Lemma set_all_fresh pairs acc :
  NoDup (keys (acc ++ pairs)) -> set_all pairs acc = acc ++ pairs.
Proof.
  revert acc. induction pairs as [| [k v] pairs IH]; intros acc ND; simpl.
  - now rewrite app_nil_r.
  - assert (Hk : ~ In k (keys acc)).
    { unfold keys in *. rewrite map_app in ND. simpl in ND.
      apply NoDup_remove_2 in ND. rewrite in_app_iff in ND. tauto. }
    rewrite (dict_set_new acc k v Hk).
    rewrite IH; rewrite <- app_assoc; simpl; [reflexivity | assumption].
Qed.

(** Over pairs with distinct keys, [dict(pairs)] keeps the pairs as they are. *)
Lemma dict_of_items_NoDup (pairs : list (str * V)) :
  NoDup (keys pairs) -> dict_of_items pairs = pairs.
Proof.
  intros ND. exact (set_all_fresh pairs [] ND).
Qed.

Lemma In_keys_set_all pairs acc k :
  In k (keys (set_all pairs acc)) <-> In k (keys acc) \/ In k (keys pairs).
Proof.
  revert acc. induction pairs as [| [k0 v0] pairs IH]; intros acc; simpl.
  - tauto.
  - rewrite IH, In_keys_dict_set. simpl. intuition.
Qed.

Lemma In_keys_dict_of_items (pairs : list (str * V)) k :
  In k (keys (dict_of_items pairs)) <-> In k (keys pairs).
Proof.
  pose proof (In_keys_set_all pairs [] k) as H. simpl in H.
  unfold dict_of_items, set_all in *. tauto.
Qed.

Lemma set_all_nonempty pairs acc :
  acc <> [] -> set_all pairs acc <> [].
Proof.
  revert acc. induction pairs as [| [k v] pairs IH]; intros acc H; simpl; auto.
  apply IH. destruct acc as [| [k0 v0] acc]; simpl; [congruence |].
  destruct (str_eqb k0 k); discriminate.
Qed.

Lemma dict_of_items_nonempty (pairs : list (str * V)) :
  pairs <> [] -> dict_of_items pairs <> [].
Proof.
  destruct pairs as [| [k v] pairs]; [congruence |]. intros _.
  unfold dict_of_items. simpl. now apply set_all_nonempty.
Qed.

(** Every binding of [dict(pairs)] is one of the pairs. *)
Lemma set_all_incl pairs acc k v :
  In (k, v) (set_all pairs acc) -> In (k, v) acc \/ In (k, v) pairs.
Proof.
  revert acc. induction pairs as [| [k0 v0] pairs IH]; intros acc H; simpl in *.
  - tauto.
  - apply IH in H. destruct H as [H | H]; [| tauto].
    assert (In (k, v) acc \/ (k0, v0) = (k, v)) as [? | ?]; [| tauto | tauto].
    clear IH. induction acc as [| [k1 v1] acc IHa]; simpl in *.
    + destruct H as [H | []]. now right.
    + destruct (str_eqb k1 k0) eqn:E; simpl in H.
      * apply str_eqb_eq in E. subst k1.
        destruct H as [H | H]; [right; congruence | left; now right].
      * destruct H as [H | H]; [left; now left |].
        apply IHa in H. destruct H; [left; now right | now right].
Qed.

Lemma dict_of_items_incl (pairs : list (str * V)) k v :
  In (k, v) (dict_of_items pairs) -> In (k, v) pairs.
Proof.
  intros H. apply set_all_incl in H. simpl in H. tauto.
Qed.

End Dict.

Lemma dict_get_map_values {V W : Type} (f : V -> W) (d : dict V) (k : str) :
  dict_get (map (fun kv => (fst kv, f (snd kv))) d) k = option_map f (dict_get d k).
Proof.
  induction d as [| [k0 v0] d IH]; simpl; [reflexivity |].
  destruct (str_eqb k0 k); [reflexivity | assumption].
Qed.

Lemma keys_map_values {V W : Type} (f : V -> W) (d : dict V) :
  keys (map (fun kv => (fst kv, f (snd kv))) d) = keys d.
Proof.
  unfold keys. rewrite map_map. reflexivity.
Qed.

End PyFacts.

(* ===================================================================== *)
(** * Tokens and n-grams *)
(* ===================================================================== *)

Module MatcherFacts.
Import Py PyFacts lexicon serve_api Spec.

Lemma split_aux_nonspace (t cur s : str) :
  Forall (fun c => isspace c = false) t ->
  split_aux cur (t ++ s) = split_aux (cur ++ t) s.
Proof.
  intros H. revert cur. induction H as [| c t Hc _ IH]; intros cur; simpl.
  - now rewrite app_nil_r.
  - rewrite Hc, IH, <- app_assoc. reflexivity.
Qed.

Lemma split_aux_tokens (s cur : str) :
  Forall (fun c => isspace c = false) cur ->
  Forall token (split_aux cur s).
Proof.
  revert cur. induction s as [| c s IH]; intros cur Hcur; simpl.
  - destruct cur; constructor; [| constructor]. split; [discriminate | assumption].
  - destruct (isspace c) eqn:E.
    + destruct cur as [| c0 cur]; [apply IH; constructor |].
      constructor; [split; [discriminate | assumption] | apply IH; constructor].
    + apply IH. apply Forall_app. split; [assumption | repeat constructor; assumption].
Qed.

(** [split] yields tokens: non-empty and free of white space. *)
Lemma split_tokens (s : str) : Forall token (split s).
Proof. apply split_aux_tokens. constructor. Qed.

(** Splitting a space-joined sequence of tokens gives the tokens back. *)
Lemma split_join (ts : list str) :
  Forall token ts -> split (join [space] ts) = ts.
Proof.
  unfold split. induction 1 as [| t ts [Hne Hns] Hts IH]; [reflexivity |].
  destruct ts as [| t' ts].
  - simpl. pose proof (split_aux_nonspace t [] [] Hns) as E.
    rewrite app_nil_r in E. rewrite E. simpl.
    destruct t; [contradiction | reflexivity].
  - change (join [space] (t :: t' :: ts))
      with (t ++ space :: join [space] (t' :: ts)).
    rewrite split_aux_nonspace by assumption. simpl app.
    change (split_aux t (space :: join [space] (t' :: ts)))
      with (match t with
            | [] => split_aux [] (join [space] (t' :: ts))
            | _ => t :: split_aux [] (join [space] (t' :: ts))
            end).
    rewrite IH. destruct t; [contradiction | reflexivity].
Qed.

Lemma range_len_sub {A : Type} (l : list A) (k : nat) :
  range (len l - Z.of_nat k) = seq 0 (length l - k).
Proof. unfold range, len. f_equal. lia. Qed.

Lemma skipn_nth_error {A : Type} (l : list A) (i : nat) (x : A) :
  nth_error l i = Some x -> exists rest, skipn i l = x :: rest.
Proof.
  revert l. induction i as [| i IH]; intros [| y l]; simpl; try discriminate.
  - intros [= ->]. eauto.
  - apply IH.
Qed.

Lemma In_firstn {A : Type} (l : list A) (n : nat) (x : A) :
  In x (firstn n l) -> In x l.
Proof.
  intros H. rewrite <- (firstn_skipn n l). apply in_or_app. now left.
Qed.

Lemma In_skipn {A : Type} (l : list A) (n : nat) (x : A) :
  In x (skipn n l) -> In x l.
Proof.
  intros H. rewrite <- (firstn_skipn n l). apply in_or_app. now right.
Qed.

Lemma Forall_slice {A : Type} (P : A -> Prop) (l : list A) (i n : nat) :
  Forall P l -> Forall P (firstn n (skipn i l)).
Proof.
  intros H. rewrite Forall_forall in *. intros x Hx.
  eapply H, In_skipn, In_firstn, Hx.
Qed.

(** The members of [_ngram_set] are the space-joined windows of one, two
    or three consecutive tokens. *)
Lemma ngram_set_windows (s g : str) :
  In g (_ngram_set s) <-> is_window g (split s).
Proof.
  unfold _ngram_set, is_window, slice.
  change 1%Z with (Z.of_nat 1). change 2%Z with (Z.of_nat 2).
  rewrite !range_len_sub, !in_app_iff, !in_map_iff.
  set (toks := split s). split.
  - intros [[H | H] | H].
    + apply In_nth_error in H. destruct H as [i H].
      assert (Hi : i < length toks) by (apply nth_error_Some; congruence).
      apply skipn_nth_error in H. destruct H as [rest H].
      exists i, 1. rewrite H. simpl. repeat split; lia.
    + destruct H as [i [<- Hi]]. apply in_seq in Hi.
      exists i, 2. replace (i + 2 - i) with 2 by lia. repeat split; lia.
    + destruct H as [i [<- Hi]]. apply in_seq in Hi.
      exists i, 3. replace (i + 3 - i) with 3 by lia. repeat split; lia.
  - intros [i [n [Hn [Hi ->]]]].
    assert (n = 1 \/ n = 2 \/ n = 3) as [-> | [-> | ->]] by lia.
    + left; left. destruct (nth_error toks i) as [x |] eqn:E.
      * destruct (skipn_nth_error _ _ _ E) as [rest ->]. simpl.
        eapply nth_error_In, E.
      * apply nth_error_None in E. lia.
    + left; right. exists i. replace (i + 2 - i) with 2 by lia.
      split; [reflexivity | apply in_seq; lia].
    + right. exists i. replace (i + 3 - i) with 3 by lia.
      split; [reflexivity | apply in_seq; lia].
Qed.

(** A member of [_ngram_set] splits into at most three tokens. *)
Lemma ngram_at_most_three (s g : str) :
  In g (_ngram_set s) -> length (split g) <= 3.
Proof.
  intros H. apply ngram_set_windows in H.
  destruct H as [i [n [Hn [Hi ->]]]].
  rewrite split_join by (apply Forall_slice, split_tokens).
  rewrite length_firstn. lia.
Qed.

Lemma ngram_set_empty : _ngram_set [] = [].
Proof. reflexivity. Qed.

(** The inner loop of [analyze_patterns_all]. *)
Lemma hits_loop (P : str -> bool) (kws acc : list str) :
  fold_left (fun hits kw => if P kw then hits ++ [lower kw] else hits) kws acc
  = acc ++ map lower (filter P kws).
Proof.
  revert acc. induction kws as [| kw kws IH]; intros acc; simpl.
  - now rewrite app_nil_r.
  - rewrite IH. destruct (P kw); simpl; [now rewrite <- app_assoc | reflexivity].
Qed.

Section Registry.
Variable ARCHETYPES : dict Lexicon.

(** [analyze_patterns_all] as one dict construction. *)
Lemma analyze_patterns_all_eq (text : str) :
  analyze_patterns_all ARCHETYPES text =
  dict_of_items (map (fun item => (fst item, hits_of text (snd item))) ARCHETYPES).
Proof.
  unfold analyze_patterns_all, dict_of_items, set_all.
  generalize (@nil (str * list str)) as acc.
  induction ARCHETYPES as [| [name lex] A IH]; intros acc; simpl.
  - reflexivity.
  - rewrite IH. unfold hits_of at 2. rewrite hits_loop. reflexivity.
Qed.

Lemma found_all_NoDup (text : str) :
  NoDup (keys (analyze_patterns_all ARCHETYPES text)).
Proof. rewrite analyze_patterns_all_eq. apply NoDup_keys_dict_of_items. Qed.

Lemma found_all_keys (text k : str) :
  In k (keys (analyze_patterns_all ARCHETYPES text)) <-> In k (keys ARCHETYPES).
Proof.
  rewrite analyze_patterns_all_eq, In_keys_dict_of_items.
  unfold keys. rewrite map_map. reflexivity.
Qed.

(** Every entry of the match result is the hit list of an archetype of
    that name. *)
Lemma found_all_get (text name : str) (hits : list str) :
  dict_get (analyze_patterns_all ARCHETYPES text) name = Some hits ->
  exists lex, In (name, lex) ARCHETYPES /\ hits = hits_of text lex.
Proof.
  rewrite analyze_patterns_all_eq. intros H.
  apply dict_get_In, dict_of_items_incl, in_map_iff in H.
  destruct H as [[n lex] [E H]]. simpl in E. injection E as -> <-. eauto.
Qed.

Lemma found_all_get_or (text name : str) :
  dict_get_or (analyze_patterns_all ARCHETYPES text) name [] = [] \/
  exists lex, In (name, lex) ARCHETYPES /\
    dict_get_or (analyze_patterns_all ARCHETYPES text) name [] = hits_of text lex.
Proof.
  unfold dict_get_or.
  destruct (dict_get (analyze_patterns_all ARCHETYPES text) name) as [hits |] eqn:E.
  - right. apply found_all_get in E. destruct E as [lex [H ->]]. eauto.
  - now left.
Qed.

(** With distinct archetype names, the entry of an archetype is its own
    hit list. *)
Lemma found_all_own (text name : str) (lex : Lexicon) :
  NoDup (keys ARCHETYPES) -> In (name, lex) ARCHETYPES ->
  dict_get_or (analyze_patterns_all ARCHETYPES text) name [] = hits_of text lex.
Proof.
  intros ND H. rewrite analyze_patterns_all_eq, dict_of_items_NoDup.
  - unfold dict_get_or.
    rewrite (dict_get_map_values (hits_of text) ARCHETYPES name).
    now rewrite (In_dict_get ARCHETYPES name lex ND H).
  - now rewrite (keys_map_values (hits_of text) ARCHETYPES).
Qed.

End Registry.

Lemma In_hits_of (text w : str) (lex : Lexicon) :
  In w (hits_of text lex) <->
  exists kw, In kw (keywords lex) /\ w = lower kw /\
             In (_norm_for_match kw) (_ngram_set (_norm_for_match text)).
Proof.
  unfold hits_of. rewrite in_map_iff. split.
  - intros [kw [<- H]]. apply filter_In in H. destruct H as [H1 H2].
    apply contains_In in H2. eauto.
  - intros [kw [H1 [-> H2]]]. exists kw. split; [reflexivity |].
    apply filter_In. split; [assumption | now apply contains_In].
Qed.

(** Two keywords with the same lower-case form have the same match form. *)
Lemma norm_for_match_lower (a b : str) :
  lower a = lower b -> _norm_for_match a = _norm_for_match b.
Proof. unfold _norm_for_match. now intros ->. Qed.

End MatcherFacts.

(* ===================================================================== *)
(** * The builtins: max, sorted, round *)
(* ===================================================================== *)

Module BuiltinFacts.
Import Py PyFacts Spec.

Section FirstMax.
Context {A K : Type} (gt : K -> K -> bool) (key : A -> K).
Hypothesis gt_trans : forall a b c, gt a b = true -> gt b c = true -> gt a c = true.
Hypothesis gt_le_trans : forall a b c, gt a b = true -> gt c b = false -> gt a c = true.

Lemma max_scan_first_max (l pre post : list A) (best : A) :
  (forall y, In y pre -> gt (key best) (key y) = true) ->
  (forall y, In y post -> gt (key y) (key best) = false) ->
  first_max gt key (pre ++ best :: post ++ l) (max_scan gt key best l).
Proof.
  revert pre post best. induction l as [| x l IH]; intros pre post best Hpre Hpost; simpl.
  - exists pre, post. rewrite app_nil_r. auto.
  - destruct (gt (key x) (key best)) eqn:E.
    + replace (pre ++ best :: post ++ x :: l)
        with ((pre ++ best :: post) ++ x :: [] ++ l)
        by (rewrite <- app_assoc; reflexivity).
      apply IH; [| intros y []].
      intros y Hy. apply in_app_or in Hy. destruct Hy as [Hy | [<- | Hy]].
      * eapply gt_trans; eauto.
      * assumption.
      * eapply gt_le_trans; eauto.
    + replace (pre ++ best :: post ++ x :: l)
        with (pre ++ best :: (post ++ [x]) ++ l)
        by (rewrite <- (app_assoc post); reflexivity).
      apply IH; [assumption |].
      intros y Hy. apply in_app_or in Hy. destruct Hy as [Hy | [<- | []]]; auto.
Qed.

(** [max] of a non-empty list returns its first maximal item. *)
Lemma max_by_first_max (x : A) (l : list A) :
  exists top, max_by gt key (x :: l) = Return top /\
              first_max gt key (x :: l) top.
Proof.
  exists (max_scan gt key x l). split; [reflexivity |].
  apply (max_scan_first_max l [] [] x); intros y [].
Qed.

End FirstMax.

Lemma first_max_In {A K : Type} (gt : K -> K -> bool) (key : A -> K) l x :
  first_max gt key l x -> In x l.
Proof.
  intros [l1 [l2 [-> _]]]. apply in_or_app. right. now left.
Qed.

Lemma Qltb_lt (x y : Q) : Qltb x y = true <-> (x < y)%Q.
Proof.
  unfold Qltb. rewrite negb_true_iff. split.
  - intros H. apply Qnot_le_lt. intros L. apply Qle_bool_iff in L. congruence.
  - intros H. destruct (Qle_bool y x) eqn:E; [| reflexivity].
    apply Qle_bool_iff in E. exfalso. eapply Qlt_not_le; eauto.
Qed.

Lemma Qltb_ge (x y : Q) : Qltb x y = false <-> (y <= x)%Q.
Proof.
  unfold Qltb. rewrite negb_false_iff. apply Qle_bool_iff.
Qed.

Lemma Qgtb_trans (a b c : Q) : Qgtb a b = true -> Qgtb b c = true -> Qgtb a c = true.
Proof.
  unfold Qgtb. rewrite !Qltb_lt. intros H1 H2. eapply Qlt_trans; eauto.
Qed.

Lemma Qgtb_le_trans (a b c : Q) : Qgtb a b = true -> Qgtb c b = false -> Qgtb a c = true.
Proof.
  unfold Qgtb. rewrite !Qltb_lt, Qltb_ge. intros H1 H2. eapply Qle_lt_trans; eauto.
Qed.

Lemma nat_gtb_trans (a b c : nat) :
  nat_gtb a b = true -> nat_gtb b c = true -> nat_gtb a c = true.
Proof. unfold nat_gtb. rewrite !Nat.ltb_lt. lia. Qed.

Lemma nat_gtb_le_trans (a b c : nat) :
  nat_gtb a b = true -> nat_gtb c b = false -> nat_gtb a c = true.
Proof. unfold nat_gtb. rewrite !Nat.ltb_lt, Nat.ltb_ge. lia. Qed.

(** *** round *)

Lemma round_half_even_floor (x : Q) : (Qfloor x <= round_half_even x)%Z.
Proof.
  unfold round_half_even.
  destruct (Qcompare _ _); [destruct (Z.even _) | |]; lia.
Qed.

Lemma round_half_even_ceil (x : Q) : (round_half_even x <= Qfloor x + 1)%Z.
Proof.
  unfold round_half_even.
  destruct (Qcompare _ _); [destruct (Z.even _) | |]; lia.
Qed.

Lemma round_half_even_Z (z : Z) : round_half_even (inject_Z z) = z.
Proof.
  unfold round_half_even. rewrite Qfloor_Z.
  replace (Qcompare (inject_Z z - inject_Z z) (1 # 2)) with Lt; [reflexivity |].
  symmetry. apply Qlt_alt. setoid_replace (inject_Z z - inject_Z z)%Q with 0%Q by ring.
  reflexivity.
Qed.

Lemma Qfloor_eq_compat (x y : Q) : (x == y)%Q -> Qfloor x = Qfloor y.
Proof.
  intros E. apply Z.le_antisymm; apply Qfloor_resp_le; rewrite E; apply Qle_refl.
Qed.

Lemma round_half_even_compat (x y : Q) :
  (x == y)%Q -> round_half_even x = round_half_even y.
Proof.
  intros E. unfold round_half_even. rewrite (Qfloor_eq_compat x y E).
  replace (Qcompare (x - inject_Z (Qfloor y)) (1 # 2))
    with (Qcompare (y - inject_Z (Qfloor y)) (1 # 2)); [reflexivity |].
  apply Qcompare_comp; [now rewrite E | reflexivity].
Qed.

(** Rounding is monotone. *)
Lemma round_half_even_mono (x y : Q) :
  (x <= y)%Q -> (round_half_even x <= round_half_even y)%Z.
Proof.
  intros L. pose proof (Qfloor_resp_le x y L) as F.
  destruct (Z.eq_dec (Qfloor x) (Qfloor y)) as [E | N].
  - unfold round_half_even. rewrite E.
    destruct (Qcompare (x - inject_Z (Qfloor y)) (1 # 2)) eqn:Cx;
    destruct (Qcompare (y - inject_Z (Qfloor y)) (1 # 2)) eqn:Cy;
      try lia; try (destruct (Z.even (Qfloor y)); lia); exfalso.
    + apply Qeq_alt in Cx. apply Qlt_alt in Cy.
      apply (Qlt_not_le _ _ Cy). rewrite <- Cx.
      apply Qplus_le_l. exact L.
    + apply Qgt_alt in Cx. apply Qeq_alt in Cy.
      apply (Qlt_not_le _ _ Cx). rewrite <- Cy.
      apply Qplus_le_l. exact L.
    + apply Qgt_alt in Cx. apply Qlt_alt in Cy.
      apply (Qlt_not_le _ _ Cx). apply Qlt_le_weak.
      eapply Qle_lt_trans; [| exact Cy]. apply Qplus_le_l. exact L.
  - pose proof (round_half_even_ceil x). pose proof (round_half_even_floor y). lia.
Qed.

Lemma round4_eq (x : Q) :
  round x 4 = Qmake (round_half_even (x * inject_Z 10000)) 10000.
Proof. reflexivity. Qed.

(** [round(., 4)] is monotone. *)
Lemma round4_mono (x y : Q) : (x <= y)%Q -> (round x 4 <= round y 4)%Q.
Proof.
  intros L. rewrite !round4_eq. unfold Qle. simpl.
  apply Z.mul_le_mono_nonneg_r; [lia |].
  apply round_half_even_mono. apply Qmult_le_compat_r; [exact L | discriminate].
Qed.

(** Rounding an already rounded value changes nothing. *)
Lemma round4_idem (x : Q) : round (round x 4) 4 = round x 4.
Proof.
  rewrite (round4_eq (round x 4)), (round4_eq x). f_equal.
  set (z := round_half_even (x * inject_Z 10000)).
  rewrite <- (round_half_even_Z z) at 2. apply round_half_even_compat.
  unfold Qeq, inject_Z. simpl. lia.
Qed.

(** A multiple of 1/10000 below [x] stays below its rounded value. *)
Lemma round4_lower_bound (z : Z) (x : Q) :
  (Qmake z 10000 <= x)%Q -> (Qmake z 10000 <= round x 4)%Q.
Proof.
  intros L. rewrite round4_eq. unfold Qle. simpl.
  apply Z.mul_le_mono_nonneg_r; [lia |].
  rewrite <- (round_half_even_Z z). apply round_half_even_mono.
  unfold Qle in *. simpl in *. lia.
Qed.

End BuiltinFacts.

(* ===================================================================== *)
(** * sorted(..., reverse=True) *)
(* ===================================================================== *)

Module SortFacts.
Import Py PyFacts Spec BuiltinFacts.

Section Sorting.
Context {A : Type} (key : A -> Q).

Lemma insert_desc_perm (x : A) (s : list A) :
  Permutation (x :: s) (insert_desc key x s).
Proof.
  induction s as [| y s IH]; simpl; [reflexivity |].
  destruct (Qle_bool (key y) (key x)); [reflexivity |].
  rewrite perm_swap. now apply perm_skip.
Qed.

Lemma sorted_desc_perm (l : list A) : Permutation l (sorted_desc key l).
Proof.
  induction l as [| x l IH]; simpl; [reflexivity |].
  rewrite <- insert_desc_perm. now apply perm_skip.
Qed.

Lemma precedes_cons (l : list A) (x a b : A) :
  precedes l a b -> precedes (x :: l) a b.
Proof.
  intros [l1 [l2 [l3 ->]]]. now exists (x :: l1), l2, l3.
Qed.

Lemma precedes_head (l : list A) (x z : A) : In z l -> precedes (x :: l) x z.
Proof.
  intros H. apply in_split in H. destruct H as [l2 [l3 ->]]. now exists [], l2, l3.
Qed.

Lemma ranked_before_le (l : list A) (a b : A) :
  ranked_before key l a b -> (key b <= key a)%Q.
Proof.
  intros [H | [H _]]; [now apply Qlt_le_weak | rewrite H; apply Qle_refl].
Qed.

Lemma insert_desc_sorted (l s : list A) (x : A) :
  (forall z, In z s -> In z l) ->
  StronglySorted (ranked_before key (x :: l)) s ->
  StronglySorted (ranked_before key (x :: l)) (insert_desc key x s).
Proof.
  intros Hin Hs. induction Hs as [| y s Hs IH Hy]; simpl.
  - constructor; constructor.
  - destruct (Qle_bool (key y) (key x)) eqn:E.
    + apply Qle_bool_iff in E. constructor; [now constructor |].
      apply Forall_forall. intros z Hz.
      assert (Lz : (key z <= key x)%Q).
      { destruct Hz as [<- | Hz]; [exact E |].
        rewrite Forall_forall in Hy. apply Hy, ranked_before_le in Hz.
        eapply Qle_trans; eauto. }
      apply Qle_lt_or_eq in Lz. destruct Lz as [Lz | Lz]; [now left |].
      right. split; [now symmetry | apply precedes_head, Hin, Hz].
    + constructor; [apply IH; intros z Hz; apply Hin; now right |].
      apply Forall_forall. intros z Hz.
      apply (Permutation_in z (Permutation_sym (insert_desc_perm x s))) in Hz.
      destruct Hz as [<- | Hz].
      * left. apply Qnot_le_lt. intros L. apply Qle_bool_iff in L. congruence.
      * rewrite Forall_forall in Hy. now apply Hy.
Qed.

Lemma StronglySorted_weaken (R R' : A -> A -> Prop) (s : list A) :
  (forall a b, R a b -> R' a b) -> StronglySorted R s -> StronglySorted R' s.
Proof.
  intros HR. induction 1 as [| y s Hs IH Hy]; constructor; [assumption |].
  eapply Forall_impl; [| exact Hy]. auto.
Qed.

(** The sort is by decreasing key and stable. *)
Lemma sorted_desc_stable (l : list A) :
  StronglySorted (ranked_before key l) (sorted_desc key l).
Proof.
  induction l as [| x l IH]; simpl; [constructor |].
  apply insert_desc_sorted.
  - intros z Hz. eapply Permutation_in; [symmetry; apply sorted_desc_perm | exact Hz].
  - eapply StronglySorted_weaken; [| exact IH].
    intros a b [H | [H1 H2]]; [now left | right; split; [assumption |]].
    now apply precedes_cons.
Qed.

Lemma StronglySorted_app (R : A -> A -> Prop) (s1 s2 : list A) :
  StronglySorted R (s1 ++ s2) ->
  StronglySorted R s1 /\ StronglySorted R s2 /\
  (forall a b, In a s1 -> In b s2 -> R a b).
Proof.
  induction s1 as [| x s1 IH]; simpl; intros H.
  - repeat split; [constructor | assumption | intros a b []].
  - inversion H as [| ? ? Hs Hx]; subst. destruct (IH Hs) as [H1 [H2 H3]].
    rewrite Forall_app in Hx. destruct Hx as [Hx1 Hx2].
    repeat split; [now constructor | assumption |].
    intros a b [<- | Ha] Hb; [| now apply H3].
    rewrite Forall_forall in Hx2. now apply Hx2.
Qed.

End Sorting.

Lemma StronglySorted_map {A B : Type} (f : A -> B) (R : A -> A -> Prop)
    (R' : B -> B -> Prop) (s : list A) :
  (forall a b, R a b -> R' (f a) (f b)) ->
  StronglySorted R s -> StronglySorted R' (map f s).
Proof.
  intros HR. induction 1 as [| y s Hs IH Hy]; simpl; constructor; [assumption |].
  rewrite Forall_forall in *. intros b Hb. apply in_map_iff in Hb.
  destruct Hb as [a [<- Ha]]. auto.
Qed.

Lemma NoDup_keys_firstn {V : Type} (d : dict V) (n : nat) :
  NoDup (keys d) -> NoDup (keys (firstn n d)).
Proof.
  intros H. rewrite <- (firstn_skipn n d) in H. unfold keys in *.
  rewrite map_app in H. now apply NoDup_app_remove_r in H.
Qed.

(** The scores of the reply: the first three entries of the stable sort,
    rounded. *)
Lemma top3_eq (sc : dict Q) :
  NoDup (keys sc) ->
  dict_of_items (map (fun kv => (fst kv, round (snd kv) 4))
                   (dict_of_items (firstn 3 (sorted_desc (fun kv => snd kv) sc))))
  = map (fun kv => (fst kv, round (snd kv) 4))
      (firstn 3 (sorted_desc (fun kv => snd kv) sc)).
Proof.
  intros ND.
  assert (ND3 : NoDup (keys (firstn 3 (sorted_desc (fun kv => snd kv) sc)))).
  { apply NoDup_keys_firstn. unfold keys.
    eapply Permutation_NoDup; [| exact ND].
    apply Permutation_map, sorted_desc_perm. }
  rewrite (dict_of_items_NoDup _ ND3).
  apply dict_of_items_NoDup.
  now rewrite (keys_map_values (fun v => round v 4)).
Qed.

End SortFacts.

(* ===================================================================== *)
(** * rewrite and classify *)
(* ===================================================================== *)

Module ServerFacts.
Import Py PyFacts lexicon serve_api Spec BuiltinFacts SortFacts MatcherFacts.

(** *** Templates *)

Lemma returns_emit (pre : str) (o : outcome str) :
  returns (emit pre o) = returns o.
Proof. now destruct o. Qed.

Lemma dict_get_same_keys {V : Type} (d d' : dict V) (k : str) :
  keys d = keys d' ->
  match dict_get d k, dict_get d' k with
  | Some _, Some _ | None, None => True
  | _, _ => False
  end.
Proof.
  intros E.
  destruct (dict_get d k) eqn:E1; destruct (dict_get d' k) eqn:E2; trivial.
  - apply dict_get_Some_key in E1. apply dict_get_None in E2. congruence.
  - apply dict_get_Some_key in E2. apply dict_get_None in E1. congruence.
Qed.

(** Whether a template formats depends on the names of the keyword
    arguments only, not on their values. *)
Lemma format_aux_keys (kw kw' : dict str) (s : str) (m : fmt_mode) :
  keys kw = keys kw' ->
  returns (format_aux kw m s) = returns (format_aux kw' m s).
Proof.
  intros E. revert m. induction s as [| c s IH]; intros m; cbn [format_aux].
  - reflexivity.
  - destruct m as [| | name |].
    + destruct (c =? lbrace)%N; [apply IH |].
      destruct (c =? rbrace)%N; [apply IH |].
      rewrite !returns_emit. apply IH.
    + destruct (c =? lbrace)%N; [rewrite !returns_emit; apply IH |].
      destruct (c =? rbrace)%N; [reflexivity |].
      destruct (field_special c); [reflexivity | apply IH].
    + destruct (c =? rbrace)%N.
      * destruct (forallb is_digit name); [reflexivity |].
        pose proof (dict_get_same_keys kw kw' name E) as H.
        destruct (dict_get kw name), (dict_get kw' name); try contradiction.
        -- rewrite !returns_emit. apply IH.
        -- reflexivity.
      * destruct (c =? lbrace)%N; [reflexivity |].
        destruct (field_special c); [reflexivity | apply IH].
    + destruct (c =? rbrace)%N; [rewrite !returns_emit; apply IH | reflexivity].
Qed.

Lemma renders_format (t brand verb verb2 verb3 benefit : str) :
  renders t = true ->
  exists s, format t [(u "brand", brand); (u "verb", verb); (u "verb2", verb2);
                      (u "verb3", verb3); (u "benefit", benefit)] = Return s.
Proof.
  unfold renders, format. intros H.
  pose proof (format_aux_keys
    [(u "brand", brand); (u "verb", verb); (u "verb2", verb2);
     (u "verb3", verb3); (u "benefit", benefit)]
    (map (fun k => (k, [])) slot_names) t Lit eq_refl) as E.
  destruct (format_aux (map (fun k => (k, [])) slot_names) Lit t); [| discriminate].
  destruct (format_aux _ Lit t) as [s |]; [eauto | discriminate].
Qed.

Lemma choice_returns {A : Type} (x : A) (l : list A) (g : RandomState) :
  exists y g', choice (x :: l) g = (Return y, g') /\ In y (x :: l).
Proof.
  eexists. eexists. split; [reflexivity |].
  apply nth_In. apply Nat.mod_upper_bound. discriminate.
Qed.

Lemma pick_returns (arr : list str) (default : str) (g : RandomState) :
  exists v g', pick arr default g = (Return v, g').
Proof.
  destruct arr as [| x arr]; simpl.
  - eexists. eexists. reflexivity.
  - destruct (choice_returns x arr g) as [y [g' [E _]]]. eauto.
Qed.

Section Registry.
Variable ARCHETYPES : dict Lexicon.

Lemma lexicon_templates_render (target : str) :
  templates_render ARCHETYPES = true ->
  forallb renders (templates (dict_get_or ARCHETYPES target no_lexicon)) = true.
Proof.
  unfold templates_render, dict_get_or. intros H.
  destruct (dict_get ARCHETYPES target) as [lex |] eqn:E; [| reflexivity].
  apply dict_get_In in E. rewrite forallb_forall in H. apply (H _ E).
Qed.

(** With well-formed templates, [rewrite] returns a string. *)
Lemma rewrite_returns (text target brand : str) (g : RandomState) :
  templates_render ARCHETYPES = true ->
  exists ex g', rewrite ARCHETYPES text target brand g = (Return ex, g').
Proof.
  intros H. apply (lexicon_templates_render target) in H.
  unfold rewrite. set (lex := dict_get_or ARCHETYPES target no_lexicon) in *.
  generalize (fold_left
    (fun text (kv : str * str) =>
       let (k, v) := kv in
       str_replace (str_replace text k v) (capitalize k) (capitalize v))
    (replace lex) text) as text'. intros text'.
  destruct (templates lex) as [| t0 ts]; [eexists; eexists; reflexivity |].
  unfold bind.
  destruct (choice_returns t0 ts g) as [t [g1 [-> Ht]]].
  destruct (pick_returns (verbs lex) (u "support") g1) as [v1 [g2 ->]].
  destruct (pick_returns (verbs2 lex) (u "go") g2) as [v2 [g3 ->]].
  destruct (pick_returns (verbs3 lex) (u "move") g3) as [v3 [g4 ->]].
  destruct (pick_returns (benefits lex) (u "what matters") g4) as [v4 [g5 ->]].
  rewrite forallb_forall in H. apply H in Ht.
  destruct (renders_format t brand v1 v2 v3 v4 Ht) as [s E].
  unfold lift. rewrite E. eauto.
Qed.

End Registry.

(** *** The score mapping *)

Lemma nth_error_combine {A B : Type} (la : list A) (lb : list B) (i : nat) a b :
  nth_error la i = Some a -> nth_error lb i = Some b ->
  nth_error (combine la lb) i = Some (a, b).
Proof.
  revert la lb. induction i as [| i IH]; intros [| x la] [| y lb]; simpl;
    try discriminate.
  - now intros [= ->] [= ->].
  - apply IH.
Qed.

Lemma skipn_step {A : Type} (l : list A) (i : nat) (x : A) :
  nth_error l i = Some x -> skipn i l = x :: skipn (S i) l.
Proof.
  revert l. induction i as [| i IH]; intros [| y l]; simpl; try discriminate.
  - now intros [= ->].
  - intros H. now rewrite (IH l H).
Qed.

Lemma score_dict_seq (labels : list str) (probs : list Q) (k i : nat) (acc : dict Q) :
  i + k <= length labels -> length labels <= length probs ->
  score_dict labels probs acc (seq i k)
  = Return (set_all (firstn k (skipn i (combine labels probs))) acc).
Proof.
  revert i acc. induction k as [| k IH]; intros i acc Hi Hp; simpl.
  - reflexivity.
  - unfold index.
    destruct (nth_error labels i) as [l |] eqn:El;
      [| apply nth_error_None in El; lia].
    destruct (nth_error probs i) as [p |] eqn:Ep;
      [| apply nth_error_None in Ep; lia].
    rewrite IH by lia.
    rewrite (skipn_step _ i _ (nth_error_combine _ _ _ _ _ El Ep)).
    reflexivity.
Qed.

(** The dict comprehension over the labels is the dict of the
    (label, probability) pairs. *)
Lemma score_dict_eq (labels : list str) (probs : list Q) :
  length labels <= length probs ->
  score_dict labels probs [] (range (len labels))
  = Return (dict_of_items (combine labels probs)).
Proof.
  intros H. unfold range, len. rewrite Nat2Z.id.
  rewrite score_dict_seq by lia. simpl skipn.
  rewrite firstn_all2; [reflexivity |]. rewrite length_combine. lia.
Qed.

Lemma serves_inv (m : Model) (txt : str) :
  serves m txt = true ->
  exists row rest, predict_proba m [txt] = row :: rest /\
    classes_ m <> [] /\ length (classes_ m) <= length row.
Proof.
  unfold serves. destruct (predict_proba m [txt]) as [| row rest]; [discriminate |].
  destruct (classes_ m) as [| c cs] eqn:E; [discriminate |].
  intros H. apply Nat.leb_le in H. exists row, rest.
  repeat split; [discriminate | exact H].
Qed.

Lemma scores_of_nonempty (m : Model) (txt : str) :
  serves m txt = true -> scores_of m txt <> [].
Proof.
  intros H. destruct (serves_inv m txt H) as [row [rest [E [Hc Hl]]]].
  unfold scores_of. rewrite E. simpl. apply dict_of_items_nonempty.
  destruct (classes_ m); [congruence |].
  destruct row; [simpl in Hl; lia | discriminate].
Qed.

Lemma scores_of_NoDup (m : Model) (txt : str) : NoDup (keys (scores_of m txt)).
Proof. apply NoDup_keys_dict_of_items. Qed.

(** *** The override step *)

Lemma hit_count_lex_hits (fa : dict (list str)) (k : str) :
  NoDup (keys fa) ->
  dict_get (dict_of_items (map (fun kv => (fst kv, length (snd kv))) fa)) k
  = option_map (@length str) (dict_get fa k).
Proof.
  intros ND. rewrite dict_of_items_NoDup.
  - apply (dict_get_map_values (@length str)).
  - now rewrite (keys_map_values (@length str)).
Qed.

Lemma lex_label_first_max (fa : dict (list str)) (lexLabel : str) :
  lex_label_of fa = Some lexLabel ->
  first_max nat_gtb (hit_count fa) (keys fa) lexLabel.
Proof.
  unfold lex_label_of. destruct (keys fa) as [| k ks]; [discriminate |].
  intros [= <-].
  destruct (max_by_first_max nat_gtb (hit_count fa) nat_gtb_trans nat_gtb_le_trans k ks)
    as [top [[= <-] H]]. exact H.
Qed.

(** Step 4 never raises, and it switches to the lexical label exactly when
    that label is a non-empty string and the override condition holds. *)
Lemma override_eq (sc : dict Q) (fa : dict (list str)) (top : str) (conf : Q) :
  NoDup (keys fa) ->
  override sc fa top conf =
  Return (final sc fa top conf).
Proof.
  intros ND. unfold override, final, lex_label_of.
  destruct fa as [| [k0 v0] fa'] eqn:Efa; [reflexivity |].
  rewrite <- Efa in *. replace (keys fa) with (k0 :: keys fa') by now rewrite Efa.
  simpl max_by. change (fun k => length (dict_get_or fa k [])) with (hit_count fa).
  set (lexLabel := max_scan nat_gtb (hit_count fa) k0 (keys fa')).
  assert (Hin : In lexLabel (keys fa)).
  { destruct (max_by_first_max nat_gtb (hit_count fa) nat_gtb_trans nat_gtb_le_trans
                k0 (keys fa')) as [t [[= <-] H]].
    apply first_max_In in H. now rewrite Efa. }
  unfold getitem. rewrite (hit_count_lex_hits fa lexLabel ND).
  destruct (In_keys_get fa lexLabel Hin) as [hits Ehits].
  assert (Hcnt : hit_count fa lexLabel = length hits).
  { unfold hit_count, dict_get_or. now rewrite Ehits. }
  assert (Htop : dict_get_or
            (dict_of_items (map (fun kv => (fst kv, length (snd kv))) fa)) top 0
          = hit_count fa top).
  { unfold dict_get_or, hit_count. rewrite (hit_count_lex_hits fa top ND).
    unfold dict_get_or. now destruct (dict_get fa top). }
  rewrite Htop, Ehits. simpl option_map. cbv iota.
  unfold fires, strong, margin, lowConfidence, blend, score. rewrite Hcnt.
  destruct (truthy (Some lexLabel)); cbn [andb]; [| reflexivity].
  destruct (str_eqb lexLabel top); cbn [negb andb];
    [now rewrite andb_false_r | rewrite andb_true_r].
  now destruct (_ && _).
Qed.

(** *** The route *)

Lemma str_or_nil (a : str) : str_or a [] = a.
Proof. now destruct a. Qed.

Section Route.
Variable ARCHETYPES : dict Lexicon.
Variables (m : Model) (t : str).

(** A classifier that answers has a first maximal label. *)
Lemma classifier_top :
  let txt := normalize_text t in
  let sc := scores_of m txt in
  serves m txt = true ->
  exists top conf,
    max_by Qgtb (score sc) (keys sc) = Return top /\
    first_max Qgtb (score sc) (keys sc) top /\
    dict_get sc top = Some conf.
Proof.
  intros txt sc Hs. pose proof (scores_of_nonempty m txt Hs) as Hne. fold sc in Hne.
  destruct (keys sc) as [| k0 ks] eqn:Ek.
  { destruct sc; [congruence | discriminate]. }
  destruct (max_by_first_max Qgtb (score sc) Qgtb_trans Qgtb_le_trans k0 ks)
    as [top [Emax Hmax]].
  assert (Hin : In top (keys sc)) by (rewrite Ek; eapply first_max_In, Hmax).
  destruct (In_keys_get sc top Hin) as [conf Econf].
  now exists top, conf.
Qed.

(** With well-formed templates, [classify] returns the reply assembled
    from that label, whatever the state of the random source. *)
Lemma classify_reply (top : str) (conf : Q) (g : RandomState) :
  let txt := normalize_text t in
  let sc := scores_of m txt in
  let fa := analyze_patterns_all ARCHETYPES txt in
  serves m txt = true -> templates_render ARCHETYPES = true ->
  max_by Qgtb (score sc) (keys sc) = Return top ->
  dict_get sc top = Some conf ->
  exists ex g',
    classify ARCHETYPES (Some m) (mkInp t) g
      = (Return (Ok (reply_of ARCHETYPES sc fa top conf ex)), g').
Proof.
  intros txt sc fa Hs Ht Emax Econf.
  destruct (serves_inv m txt Hs) as [row [rest [Erow [Hc Hl]]]].
  assert (Esc : sc = dict_of_items (combine (classes_ m) row)).
  { unfold sc, scores_of. now rewrite Erow. }
  destruct (rewrite_returns ARCHETYPES t (fst (final sc fa top conf)) (u "Your brand") g Ht)
    as [ex [g' Eex]].
  exists ex, g'.
  unfold classify. cbv zeta. unfold bind, lift. cbn [text classes_ predict_proba].
  rewrite str_or_nil. fold txt. rewrite Erow.
  change (index (row :: rest) 0) with (Return row). cbv iota.
  rewrite (score_dict_eq _ _ Hl). rewrite <- Esc.
  fold fa. change (fun k => dict_get_or sc k 0%Q) with (score sc).
  rewrite Emax. unfold getitem. rewrite Econf.
  rewrite (override_eq sc fa top conf (found_all_NoDup ARCHETYPES txt)).
  unfold reply_of.
  destruct (final sc fa top conf) as [top' conf'] eqn:Ef. simpl fst in *. simpl snd.
  rewrite Eex. unfold ret. rewrite (top3_eq sc (scores_of_NoDup m txt)). reflexivity.
Qed.

Lemma classify_run (g : RandomState) :
  let txt := normalize_text t in
  let sc := scores_of m txt in
  let fa := analyze_patterns_all ARCHETYPES txt in
  serves m txt = true -> templates_render ARCHETYPES = true ->
  exists top conf ex g',
    classify ARCHETYPES (Some m) (mkInp t) g
      = (Return (Ok (reply_of ARCHETYPES sc fa top conf ex)), g') /\
    first_max Qgtb (score sc) (keys sc) top /\
    dict_get sc top = Some conf.
Proof.
  intros txt sc fa Hs Ht.
  destruct (classifier_top Hs) as [top [conf [Emax [Hmax Econf]]]].
  destruct (classify_reply top conf g Hs Ht Emax Econf) as [ex [g' E]].
  now exists top, conf, ex, g'.
Qed.

(** Whenever [classify] returns a reply, its match result is the matcher's
    on the normalized text and its matched keywords are the entry of its
    label. *)
Lemma classify_found (g : RandomState) (r : Reply) (g' : RandomState) :
  let fa := analyze_patterns_all ARCHETYPES (normalize_text t) in
  classify ARCHETYPES (Some m) (mkInp t) g = (Return (Ok r), g') ->
  patterns_found_all r = fa /\ patterns_found r = dict_get_or fa (label r) [].
Proof.
  intros fa. set (txt := normalize_text t) in fa.
  unfold classify. cbv zeta. unfold bind, lift, ret.
  cbn [text]. rewrite str_or_nil. fold txt. fold fa.
  intros E.
  repeat match type of E with
  | context [match ?o with Return _ => _ | Raise _ => _ end] =>
      destruct o; try discriminate
  | context [let (_, _) := ?p in _] => destruct p
  end.
  injection E as <- _. split; reflexivity.
Qed.

End Route.

End ServerFacts.

(* ===================================================================== *)
(** * Float arithmetic *)
(* ===================================================================== *)

Module FloatFacts.
Import Py PyFacts BuiltinFacts.
Local Open Scope Q_scope.

Lemma pow2_pos (e : Z) : 0 < 2 ^ e.
Proof. apply Qpower_0_lt. reflexivity. Qed.

Lemma pow2_plus (a b : Z) : 2 ^ (a + b) == 2 ^ a * 2 ^ b.
Proof. apply Qpower_plus. discriminate. Qed.

Lemma pow2_Z (n : Z) : (0 <= n)%Z -> inject_Z (2 ^ n) == 2 ^ n.
Proof. intros H. now rewrite Zpower_Qpower. Qed.

Lemma pow2_le (a b : Z) : (a <= b)%Z -> 2 ^ a <= 2 ^ b.
Proof. intros H. apply Qpower_le_compat_l; [exact H | discriminate]. Qed.

(** A power of two on the grid of a lower exponent. *)
Lemma pow2_on_grid (a e : Z) :
  (e <= a)%Z -> 2 ^ a == inject_Z (2 ^ (a - e)) * 2 ^ e.
Proof.
  intros H. rewrite pow2_Z by lia. rewrite <- pow2_plus.
  now replace (a - e + e)%Z with a by lia.
Qed.

Lemma ilog2_spec (x : Q) : 0 < x -> 2 ^ ilog2 x <= x /\ x < 2 ^ (ilog2 x + 1).
Proof.
  intros Hx. destruct x as [n d].
  assert (Hn : (0 < n)%Z) by (unfold Qlt in Hx; simpl in Hx; lia).
  unfold ilog2. cbn [Qnum Qden].
  destruct (Z.log2_spec n Hn) as [N1 N2].
  destruct (Z.log2_spec (Zpos d) (Pos2Z.is_pos d)) as [D1 D2].
  pose proof (Z.log2_nonneg n) as An. pose proof (Z.log2_nonneg (Zpos d)) as Ad.
  set (a := Z.log2 n) in *. set (b := Z.log2 (Zpos d)) in *.
  assert (Qn1 : 2 ^ a <= inject_Z n).
  { rewrite <- pow2_Z by lia. rewrite <- Zle_Qle. exact N1. }
  assert (Qn2 : inject_Z n < 2 ^ (a + 1)).
  { rewrite <- pow2_Z by lia. rewrite <- Zlt_Qlt. replace (a + 1)%Z with (Z.succ a) by lia. exact N2. }
  assert (Qd1 : 2 ^ b <= inject_Z (Zpos d)).
  { rewrite <- pow2_Z by lia. rewrite <- Zle_Qle. exact D1. }
  assert (Qd2 : inject_Z (Zpos d) < 2 ^ (b + 1)).
  { rewrite <- pow2_Z by lia. rewrite <- Zlt_Qlt. replace (b + 1)%Z with (Z.succ b) by lia. exact D2. }
  assert (X : n # d == inject_Z n / inject_Z (Zpos d)) by apply Qmake_Qdiv.
  assert (Dpos : 0 < inject_Z (Zpos d)) by reflexivity.
  (* x * d = n *)
  assert (XD : (n # d) * inject_Z (Zpos d) == inject_Z n).
  { rewrite X. field. intros E. rewrite E in Dpos. discriminate. }
  pose proof (pow2_pos b) as Pb. pose proof (pow2_pos (a - b)) as Pab.
  pose proof (pow2_pos (a - b - 1)) as Pab1. pose proof (pow2_pos (a - b + 1)) as Pab2.
  assert (E1 : 2 ^ (a + 1) == 2 ^ (a - b + 1) * 2 ^ b).
  { rewrite <- pow2_plus. now replace (a - b + 1 + b)%Z with (a + 1)%Z by lia. }
  assert (E2 : 2 ^ a == 2 ^ (a - b - 1) * 2 ^ (b + 1)).
  { rewrite <- pow2_plus. now replace (a - b - 1 + (b + 1))%Z with a by lia. }
  assert (E3 : 2 ^ (a - b) == 2 ^ (a - b - 1) * 2).
  { change 2 with (2 ^ 1) at 3. rewrite <- pow2_plus. now replace (a - b - 1 + 1)%Z with (a - b)%Z by lia. }
  assert (Up : (n # d) < 2 ^ (a - b + 1)).
  { apply Qnot_le_lt. intros C.
    assert (2 ^ (a - b + 1) * 2 ^ b <= (n # d) * inject_Z (Zpos d)).
    { apply Qle_trans with (y := 2 ^ (a - b + 1) * inject_Z (Zpos d)).
      - apply Qmult_le_l; assumption.
      - apply Qmult_le_compat_r; [exact C | now apply Qlt_le_weak]. }
    rewrite XD, <- E1 in H. apply (Qlt_irrefl (inject_Z n)).
    eapply Qlt_le_trans; eassumption. }
  assert (Lo : 2 ^ (a - b - 1) <= (n # d)).
  { apply Qnot_lt_le. intros C.
    assert ((n # d) * inject_Z (Zpos d) < 2 ^ (a - b - 1) * 2 ^ (b + 1)).
    { apply Qlt_trans with (y := 2 ^ (a - b - 1) * inject_Z (Zpos d)).
      - apply Qmult_lt_compat_r; assumption.
      - apply Qmult_lt_l; assumption. }
    rewrite XD, <- E2 in H. apply (Qlt_irrefl (inject_Z n)).
    eapply Qlt_le_trans; eassumption. }
  destruct (Qle_bool (2 ^ (a - b)) (n # d)) eqn:C.
  - apply Qle_bool_iff in C. split; assumption.
  - split; [exact Lo |]. replace (a - b - 1 + 1)%Z with (a - b)%Z by lia.
    apply Qnot_le_lt. intros C'. apply Qle_bool_iff in C'. congruence.
Qed.


Lemma ilog2_mono (x y : Q) : 0 < x -> x <= y -> (ilog2 x <= ilog2 y)%Z.
Proof.
  intros Hx L. destruct (ilog2_spec x Hx) as [X1 _].
  destruct (ilog2_spec y (Qlt_le_trans _ _ _ Hx L)) as [_ Y2].
  assert (H : 2 ^ ilog2 x < 2 ^ (ilog2 y + 1)).
  { eapply Qle_lt_trans; [eapply Qle_trans; eassumption | exact Y2]. }
  apply Qpower_lt_compat_l_inv in H; [lia | reflexivity].
Qed.

(** Rounding on the grid of exponent [e] respects the points of the grid. *)
Lemma grid_le (e k : Z) (x : Q) :
  x <= inject_Z k * 2 ^ e ->
  inject_Z (round_half_even (x / 2 ^ e)) * 2 ^ e <= inject_Z k * 2 ^ e.
Proof.
  intros H. apply Qmult_le_compat_r; [| apply Qlt_le_weak, pow2_pos].
  rewrite <- Zle_Qle. rewrite <- (round_half_even_Z k). apply round_half_even_mono.
  apply Qle_shift_div_r; [apply pow2_pos | exact H].
Qed.

Lemma grid_ge (e k : Z) (x : Q) :
  inject_Z k * 2 ^ e <= x ->
  inject_Z k * 2 ^ e <= inject_Z (round_half_even (x / 2 ^ e)) * 2 ^ e.
Proof.
  intros H. apply Qmult_le_compat_r; [| apply Qlt_le_weak, pow2_pos].
  rewrite <- Zle_Qle. rewrite <- (round_half_even_Z k) at 1. apply round_half_even_mono.
  apply Qle_shift_div_l; [apply pow2_pos | exact H].
Qed.

Lemma grid_mono (e : Z) (x y : Q) :
  x <= y ->
  inject_Z (round_half_even (x / 2 ^ e)) * 2 ^ e
  <= inject_Z (round_half_even (y / 2 ^ e)) * 2 ^ e.
Proof.
  intros H. apply Qmult_le_compat_r; [| apply Qlt_le_weak, pow2_pos].
  rewrite <- Zle_Qle. apply round_half_even_mono.
  apply Qmult_le_compat_r; [exact H |].
  apply Qlt_le_weak, Qinv_lt_0_compat, pow2_pos.
Qed.

Lemma ulp_exp_upper (x : Q) : 0 < Qabs x -> Qabs x < 2 ^ (ulp_exp x + 53).
Proof.
  intros H. destruct (ilog2_spec _ H) as [_ U].
  eapply Qlt_le_trans; [exact U |]. apply pow2_le. unfold ulp_exp. lia.
Qed.

Lemma ulp_exp_lower (x : Q) :
  0 < Qabs x -> (-1074 < ulp_exp x)%Z -> 2 ^ (ulp_exp x + 52) <= Qabs x.
Proof.
  intros H E. destruct (ilog2_spec _ H) as [L _].
  eapply Qle_trans; [| exact L]. apply pow2_le. unfold ulp_exp in *. lia.
Qed.

Lemma ulp_exp_mono (x y : Q) :
  0 < Qabs x -> Qabs x <= Qabs y -> (ulp_exp x <= ulp_exp y)%Z.
Proof.
  intros H L. pose proof (ilog2_mono _ _ H L). unfold ulp_exp. lia.
Qed.

(** Rounding to the nearest float is monotone. *)
Lemma fl_mono (x y : Q) : x <= y -> fl x <= fl y.
Proof.
  intros L. unfold fl.
  destruct (Qlt_le_dec 0 x) as [Px | Nx]; [| destruct (Qlt_le_dec y 0) as [Ny | Py]].
  - assert (Py : 0 < y) by lra.
    assert (Ax : Qabs x == x) by (apply Qabs_pos; lra).
    assert (Ay : Qabs y == y) by (apply Qabs_pos; lra).
    assert (Hx : 0 < Qabs x) by (rewrite Ax; exact Px).
    assert (Hy : 0 < Qabs y) by (rewrite Ay; exact Py).
    assert (M : (ulp_exp x <= ulp_exp y)%Z).
    { apply ulp_exp_mono; [exact Hx | rewrite Ax, Ay; exact L]. }
    destruct (Z.eq_dec (ulp_exp x) (ulp_exp y)) as [E | N].
    + rewrite E. now apply grid_mono.
    + pose proof (ulp_exp_upper x Hx) as U.
      assert (E : (-1074 < ulp_exp y)%Z) by (unfold ulp_exp in *; lia).
      pose proof (ulp_exp_lower y Hy E) as Lo.
      assert (B : 2 ^ (ulp_exp x + 53) <= 2 ^ (ulp_exp y + 52)) by (apply pow2_le; lia).
      apply Qle_trans with (y := 2 ^ (ulp_exp y + 52)).
      * rewrite (pow2_on_grid (ulp_exp y + 52) (ulp_exp x)) by lia.
        apply grid_le. rewrite <- pow2_on_grid by lia. lra.
      * rewrite (pow2_on_grid (ulp_exp y + 52) (ulp_exp y)) by lia.
        apply grid_ge. rewrite <- pow2_on_grid by lia. lra.
  - assert (Nx' : x < 0) by lra.
    assert (Ax : Qabs x == - x) by (apply Qabs_neg; lra).
    assert (Ay : Qabs y == - y) by (apply Qabs_neg; lra).
    assert (Hx : 0 < Qabs x) by (rewrite Ax; lra).
    assert (Hy : 0 < Qabs y) by (rewrite Ay; lra).
    assert (M : (ulp_exp y <= ulp_exp x)%Z).
    { apply ulp_exp_mono; [exact Hy | rewrite Ax, Ay; lra]. }
    destruct (Z.eq_dec (ulp_exp x) (ulp_exp y)) as [E | N].
    + rewrite E. now apply grid_mono.
    + pose proof (ulp_exp_upper y Hy) as U.
      assert (E : (-1074 < ulp_exp x)%Z) by (unfold ulp_exp in *; lia).
      pose proof (ulp_exp_lower x Hx E) as Lo.
      assert (B : 2 ^ (ulp_exp y + 53) <= 2 ^ (ulp_exp x + 52)) by (apply pow2_le; lia).
      assert (G1 : 2 ^ (ulp_exp x + 52) == inject_Z (2 ^ 52) * 2 ^ ulp_exp x).
      { rewrite (pow2_on_grid (ulp_exp x + 52) (ulp_exp x)) by lia.
        now replace (ulp_exp x + 52 - ulp_exp x)%Z with 52%Z by lia. }
      pose proof (pow2_on_grid (ulp_exp x + 52) (ulp_exp y) ltac:(lia)) as G2.
      apply Qle_trans with (y := - 2 ^ (ulp_exp x + 52)).
      * assert (G : - 2 ^ (ulp_exp x + 52) == inject_Z (- 2 ^ 52) * 2 ^ ulp_exp x).
        { rewrite G1, inject_Z_opp. ring. }
        rewrite G. apply grid_le. rewrite <- G. lra.
      * assert (G : - 2 ^ (ulp_exp x + 52)
                    == inject_Z (- 2 ^ (ulp_exp x + 52 - ulp_exp y)) * 2 ^ ulp_exp y).
        { rewrite G2 at 1. rewrite inject_Z_opp. ring. }
        rewrite G. apply grid_ge. rewrite <- G. lra.
  - apply Qle_trans with (y := inject_Z 0 * 2 ^ ulp_exp x).
    + apply grid_le. change (inject_Z 0) with 0. lra.
    + apply Qle_trans with (y := inject_Z 0 * 2 ^ ulp_exp y).
      * change (inject_Z 0) with 0. lra.
      * apply grid_ge. change (inject_Z 0) with 0. lra.
Qed.

(** The nearest integer is at most one half away. *)
Lemma round_half_even_near (z : Q) :
  - (1 # 2) <= inject_Z (round_half_even z) - z <= 1 # 2.
Proof.
  unfold round_half_even.
  pose proof (Qfloor_le z) as F1. pose proof (Qlt_floor z) as F2.
  rewrite inject_Z_plus in F2. change (inject_Z 1) with 1 in F2.
  assert (P : inject_Z (Qfloor z + 1) == inject_Z (Qfloor z) + 1).
  { now rewrite inject_Z_plus. }
  destruct (Qcompare_spec (z - inject_Z (Qfloor z)) (1 # 2)) as [E | L | G].
  - destruct (Z.even (Qfloor z)); [| rewrite P]; lra.
  - lra.
  - rewrite P. lra.
Qed.

(** [fl x] is a multiple of the last place of the floats around [x], at
    most half of it away from [x], with a significand of at most 53 bits. *)
Lemma fl_half_ulp (x : Q) :
  - (2 ^ ulp_exp x / 2) <= fl x - x <= 2 ^ ulp_exp x / 2.
Proof.
  unfold fl. pose proof (pow2_pos (ulp_exp x)) as P.
  pose proof (round_half_even_near (x / 2 ^ ulp_exp x)) as [N1 N2].
  set (m := inject_Z (round_half_even (x / 2 ^ ulp_exp x))) in *.
  assert (E : x == x / 2 ^ ulp_exp x * 2 ^ ulp_exp x) by (field; lra).
  set (q := x / 2 ^ ulp_exp x) in *. set (p := 2 ^ ulp_exp x) in *.
  assert (H1 : (m - q) * p <= (1 # 2) * p) by (apply Qmult_le_compat_r; lra).
  assert (H2 : (- (1 # 2)) * p <= (m - q) * p) by (apply Qmult_le_compat_r; lra).
  assert (D : p / 2 == (1 # 2) * p) by field.
  clearbody m q p. rewrite E, D. split; lra.
Qed.

Lemma fl_significand (x : Q) :
  (Z.abs (round_half_even (x / 2 ^ ulp_exp x)) <= 2 ^ 53)%Z.
Proof.
  pose proof (pow2_pos (ulp_exp x)) as P.
  assert (B : Qabs x <= inject_Z (2 ^ 53) * 2 ^ ulp_exp x).
  { assert (G : 2 ^ (ulp_exp x + 53) == inject_Z (2 ^ 53) * 2 ^ ulp_exp x).
    { rewrite (pow2_on_grid (ulp_exp x + 53) (ulp_exp x)) by lia.
      now replace (ulp_exp x + 53 - ulp_exp x)%Z with 53%Z by lia. }
    rewrite <- G.
    destruct (Qlt_le_dec 0 (Qabs x)) as [Hp | Hn].
    - apply Qlt_le_weak, ulp_exp_upper, Hp.
    - eapply Qle_trans; [exact Hn | apply Qlt_le_weak, pow2_pos]. }
  apply Qabs_Qle_condition in B. destruct B as [B1 B2].
  apply Z.abs_le. split.
  - rewrite <- (round_half_even_Z (- 2 ^ 53)). apply round_half_even_mono.
    apply Qle_shift_div_l; [exact P |]. rewrite inject_Z_opp. lra.
  - rewrite <- (round_half_even_Z (2 ^ 53)). apply round_half_even_mono.
    apply Qle_shift_div_r; [exact P | exact B2].
Qed.

(** [0.52 + 0.48 * x] on floats is monotone in [x]. *)
Lemma float_blend_mono (x y : Q) :
  x <= y ->
  fadd (fl (52 # 100)) (fmul (fl (48 # 100)) x)
  <= fadd (fl (52 # 100)) (fmul (fl (48 # 100)) y).
Proof.
  intros L. unfold fadd, fmul. apply fl_mono.
  apply Qplus_le_r. apply fl_mono.
  apply Qmult_le_l; [vm_compute; reflexivity | exact L].
Qed.

(** It is at least 0.52 at 0 and at most 1 at 1. *)
Lemma float_blend_0 : 52 # 100 <= fadd (fl (52 # 100)) (fmul (fl (48 # 100)) 0).
Proof. apply Qle_bool_imp_le. vm_compute. reflexivity. Qed.

Lemma float_blend_1 : fadd (fl (52 # 100)) (fmul (fl (48 # 100)) 1) <= 1.
Proof. apply Qle_bool_imp_le. vm_compute. reflexivity. Qed.

End FloatFacts.

(* ===================================================================== *)
(** * The decision engine *)
(* ===================================================================== *)

Module DecisionFacts.
Import Py PyFacts lexicon serve_api Spec BuiltinFacts SortFacts MatcherFacts ServerFacts.
Import FloatFacts.

Lemma fires_iff (fa : dict (list str)) (lexLabel top : str) (conf : Q) :
  fires fa lexLabel top conf = true <->
  2 <= hit_count fa lexLabel /\
  (hit_count fa top + 2 <= hit_count fa lexLabel \/ (conf < 55 # 100)%Q) /\
  lexLabel <> top.
Proof.
  unfold fires, strong, margin, lowConfidence.
  rewrite !andb_true_iff, orb_true_iff, negb_true_iff, !Nat.leb_le, Qltb_lt,
    str_eqb_neq.
  tauto.
Qed.

Lemma names_ok_inv (A : dict Lexicon) :
  names_ok A = true -> A <> [] /\ forall k, In k (keys A) -> k <> [].
Proof.
  unfold names_ok. destruct A as [| item A']; [discriminate |].
  intros H. split; [discriminate |]. rewrite forallb_forall in H.
  intros k Hk. unfold keys in Hk. apply in_map_iff in Hk.
  destruct Hk as [it [<- Hit]]. apply H in Hit. cbv beta in Hit.
  destruct it as [[| c k] lex]; simpl in *; [discriminate Hit | discriminate].
Qed.

(** Over a registry with at least one archetype and no empty name, the
    lexical label exists, is a true value and is a first maximum of the
    match counts. *)
Lemma lex_label_exists (A : dict Lexicon) (text : str) :
  names_ok A = true ->
  exists lexLabel,
    lex_label_of (analyze_patterns_all A text) = Some lexLabel /\
    truthy (Some lexLabel) = true /\
    first_max nat_gtb (hit_count (analyze_patterns_all A text))
      (keys (analyze_patterns_all A text)) lexLabel.
Proof.
  intros H. apply names_ok_inv in H. destruct H as [Hne Hk].
  set (fa := analyze_patterns_all A text).
  destruct (lex_label_of fa) as [lexLabel |] eqn:E.
  - exists lexLabel. pose proof (lex_label_first_max fa lexLabel E) as F.
    repeat split; [| exact F].
    apply first_max_In in F. apply found_all_keys, Hk in F.
    now destruct lexLabel.
  - exfalso. unfold lex_label_of in E.
    destruct (keys fa) as [| k ks] eqn:Ek; [| discriminate].
    destruct A as [| [name lex] A']; [congruence |].
    assert (Hin : In name (keys fa)) by (apply found_all_keys; now left).
    now rewrite Ek in Hin.
Qed.

Lemma final_eq (A : dict Lexicon) (text : str) (sc : dict Q) (top : str) (conf : Q)
    (lexLabel : str) :
  lex_label_of (analyze_patterns_all A text) = Some lexLabel ->
  truthy (Some lexLabel) = true ->
  final sc (analyze_patterns_all A text) top conf =
  if fires (analyze_patterns_all A text) lexLabel top conf
  then (lexLabel, blend sc lexLabel) else (top, conf).
Proof.
  intros E T. unfold final. now rewrite E, T.
Qed.

Lemma blend_floor (sc : dict Q) (k : str) :
  (0 <= score sc k)%Q -> (52 # 100 <= blend sc k)%Q.
Proof.
  intros H. unfold blend.
  apply Qle_trans with (y := Qmake 5200 10000); [unfold Qle; simpl; lia |].
  apply round4_lower_bound.
  apply Qle_trans with (y := (52 # 100)%Q); [unfold Qle; simpl; lia |].
  eapply Qle_trans; [exact float_blend_0 | apply float_blend_mono, H].
Qed.

End DecisionFacts.

(* ===================================================================== *)
(** * The claims *)
(* ===================================================================== *)

Import Py PyFacts lexicon serve_api Spec.
Import BuiltinFacts SortFacts MatcherFacts ServerFacts DecisionFacts Examples.

(** C1. Override rule. For every registry with non-empty names and
    well-formed templates, every classifier that answers and every text,
    [classify] returns a reply whose label is the lexically best label
    [lexLabel] when the override condition holds and the classifier's
    first maximal label [top] otherwise; the condition holds if and only
    if [lexLabel] has at least 2 matches, has at least [top]'s matches
    plus 2 or the classifier confidence is below 0.55, and differs from
    [top]. In particular a best match count below 2, or all counts zero,
    leaves the classifier's label. *)
Theorem C1_override_rule (A : dict Lexicon) (m : Model) (t : str) (g : RandomState) :
  names_ok A = true -> templates_render A = true ->
  serves m (normalize_text t) = true ->
  let sc := scores_of m (normalize_text t) in
  let fa := analyze_patterns_all A (normalize_text t) in
  exists top conf lexLabel r g',
    classify A (Some m) (mkInp t) g = (Return (Ok r), g') /\
    first_max Qgtb (score sc) (keys sc) top /\
    dict_get sc top = Some conf /\
    first_max nat_gtb (hit_count fa) (keys fa) lexLabel /\
    label r = (if fires fa lexLabel top conf then lexLabel else top) /\
    (fires fa lexLabel top conf = true <->
       2 <= hit_count fa lexLabel /\
       (hit_count fa top + 2 <= hit_count fa lexLabel \/ (conf < 55 # 100)%Q) /\
       lexLabel <> top) /\
    (hit_count fa lexLabel < 2 -> label r = top) /\
    ((forall k, hit_count fa k = 0) -> label r = top).
Proof.
  intros Hn Ht Hs sc fa.
  destruct (classify_run A m t g Hs Ht) as [top [conf [ex [g' [E [Hmax Hconf]]]]]].
  destruct (lex_label_exists A (normalize_text t) Hn) as [lexLabel [El [Tl Fl]]].
  fold sc fa in E, Hmax, Hconf, El, Fl.
  exists top, conf, lexLabel, (reply_of A sc fa top conf ex), g'.
  assert (L : label (reply_of A sc fa top conf ex)
              = if fires fa lexLabel top conf then lexLabel else top).
  { unfold reply_of, label. unfold fa. rewrite (final_eq A _ sc top conf lexLabel El Tl).
    fold fa. now destruct (fires fa lexLabel top conf). }
  assert (N : hit_count fa lexLabel < 2 -> fires fa lexLabel top conf = false).
  { intros Hlt. destruct (fires fa lexLabel top conf) eqn:F; [| reflexivity].
    apply fires_iff in F. lia. }
  refine (conj E (conj Hmax (conj Hconf (conj Fl (conj L
            (conj (fires_iff fa lexLabel top conf) (conj _ _))))))).
  - intros Hlt. rewrite L, (N Hlt). reflexivity.
  - intros Hz. rewrite L, N; [reflexivity |]. rewrite Hz. lia.
Qed.

Lemma C1_override_rule_witness :
  names_ok ARCHETYPES = true /\ templates_render ARCHETYPES = true /\
  serves undecided (normalize_text caring_text) = true /\
  let sc := scores_of undecided (normalize_text caring_text) in
  let fa := analyze_patterns_all ARCHETYPES (normalize_text caring_text) in
  exists top conf lexLabel r g',
    classify ARCHETYPES (Some undecided) (mkInp caring_text) counting
      = (Return (Ok r), g') /\
    first_max Qgtb (score sc) (keys sc) top /\
    dict_get sc top = Some conf /\
    first_max nat_gtb (hit_count fa) (keys fa) lexLabel /\
    label r = (if fires fa lexLabel top conf then lexLabel else top) /\
    (fires fa lexLabel top conf = true <->
       2 <= hit_count fa lexLabel /\
       (hit_count fa top + 2 <= hit_count fa lexLabel \/ (conf < 55 # 100)%Q) /\
       lexLabel <> top) /\
    (hit_count fa lexLabel < 2 -> label r = top) /\
    ((forall k, hit_count fa k = 0) -> label r = top).
Proof.
  split; [reflexivity |]. split; [reflexivity |]. split; [reflexivity |].
  apply (C1_override_rule ARCHETYPES undecided caring_text counting); reflexivity.
Defined.

(** C2. Confidence. For every score mapping with values in [0,1]: when the
    override fires, the reported confidence is
    [round(0.52 + 0.48 * score[lexLabel], 4)], the product and the sum
    being those of floats, and is at least 0.52; when it does not fire,
    the reported confidence is the probability of the classifier's first
    maximal label rounded to 4 decimal places. *)
Theorem C2_confidence (A : dict Lexicon) (m : Model) (t : str) (g : RandomState) :
  names_ok A = true -> templates_render A = true ->
  serves m (normalize_text t) = true ->
  let sc := scores_of m (normalize_text t) in
  let fa := analyze_patterns_all A (normalize_text t) in
  (forall k p, dict_get sc k = Some p -> (0 <= p <= 1)%Q) ->
  exists top conf lexLabel r g',
    classify A (Some m) (mkInp t) g = (Return (Ok r), g') /\
    first_max Qgtb (score sc) (keys sc) top /\
    dict_get sc top = Some conf /\
    first_max nat_gtb (hit_count fa) (keys fa) lexLabel /\
    (fires fa lexLabel top conf = true ->
       label r = lexLabel /\
       confidence r
       = round (fadd (fl (52 # 100)) (fmul (fl (48 # 100)) (score sc lexLabel))) 4 /\
       (52 # 100 <= confidence r)%Q) /\
    (fires fa lexLabel top conf = false ->
       label r = top /\ confidence r = round conf 4).
Proof.
  intros Hn Ht Hs sc fa Hrange.
  destruct (classify_run A m t g Hs Ht) as [top [conf [ex [g' [E [Hmax Hconf]]]]]].
  destruct (lex_label_exists A (normalize_text t) Hn) as [lexLabel [El [Tl Fl]]].
  fold sc fa in E, Hmax, Hconf, El, Fl.
  exists top, conf, lexLabel, (reply_of A sc fa top conf ex), g'.
  refine (conj E (conj Hmax (conj Hconf (conj Fl (conj _ _)))));
    intros F; unfold reply_of, label, confidence; unfold fa;
    rewrite (final_eq A _ sc top conf lexLabel El Tl); fold fa; rewrite F;
    cbn [fst snd].
  - split; [reflexivity |]. unfold blend. rewrite !round4_idem.
    split; [reflexivity |].
    apply (blend_floor sc lexLabel). unfold score, dict_get_or.
    destruct (dict_get sc lexLabel) as [p |] eqn:Ep.
    + apply (Hrange lexLabel p Ep).
    + apply Qle_refl.
  - split; reflexivity.
Qed.

Lemma C2_confidence_witness :
  names_ok ARCHETYPES = true /\ templates_render ARCHETYPES = true /\
  serves undecided (normalize_text caring_text) = true /\
  let sc := scores_of undecided (normalize_text caring_text) in
  let fa := analyze_patterns_all ARCHETYPES (normalize_text caring_text) in
  (forall k p, dict_get sc k = Some p -> (0 <= p <= 1)%Q) /\
  exists top conf lexLabel r g',
    classify ARCHETYPES (Some undecided) (mkInp caring_text) counting
      = (Return (Ok r), g') /\
    first_max Qgtb (score sc) (keys sc) top /\
    dict_get sc top = Some conf /\
    first_max nat_gtb (hit_count fa) (keys fa) lexLabel /\
    (fires fa lexLabel top conf = true ->
       label r = lexLabel /\
       confidence r
       = round (fadd (fl (52 # 100)) (fmul (fl (48 # 100)) (score sc lexLabel))) 4 /\
       (52 # 100 <= confidence r)%Q) /\
    (fires fa lexLabel top conf = false ->
       label r = top /\ confidence r = round conf 4).
Proof.
  assert (R : forall k p,
             dict_get (scores_of undecided (normalize_text caring_text)) k = Some p ->
             (0 <= p <= 1)%Q).
  { intros k p H. apply dict_get_In in H. vm_compute in H.
    destruct H as [H | [H | [H | []]]]; injection H as _ <-;
      split; discriminate. }
  split; [reflexivity |]. split; [reflexivity |]. split; [reflexivity |].
  split; [exact R |].
  apply (C2_confidence ARCHETYPES undecided caring_text counting);
    [reflexivity | reflexivity | reflexivity | exact R].
Defined.

(** The two scenarios of the specification, evaluated. *)
Example scenario_override :
  exists r g',
    classify ARCHETYPES (Some undecided) (mkInp caring_text) counting
      = (Return (Ok r), g') /\
    label r = u "Caregiver" /\ confidence r = (6880 # 10000)%Q /\
    patterns_found r = [u "care"; u "protect"; u "family"].
Proof. eexists. eexists. split; [vm_compute; reflexivity |]. repeat split. Qed.

Example scenario_no_override :
  exists r g',
    classify ARCHETYPES (Some confident) (mkInp (u "We care.")) counting
      = (Return (Ok r), g') /\
    label r = u "Rebel" /\ confidence r = (7000 # 10000)%Q /\
    patterns_found r = [].
Proof. eexists. eexists. split; [vm_compute; reflexivity |]. repeat split. Qed.

(** The blend is made of floats. With the Caregiver score 7/128 the exact
    sum 0.54625 lies halfway between two fourth decimals and would round
    to the even one, 0.5462; the float sum lies above it. With 9/128 the
    exact sum 0.55375 would round to 0.5538; the float sum lies below. *)
Example scenario_override_in_floats :
  exists r g',
    classify ARCHETYPES (Some halved) (mkInp caring_text) counting
      = (Return (Ok r), g') /\
    label r = u "Caregiver" /\ confidence r = (5463 # 10000)%Q /\
    round ((52 # 100) + (48 # 100) * (7 # 128))%Q 4 = (5462 # 10000)%Q /\
    round (fadd (fl (52 # 100)) (fmul (fl (48 # 100)) (9 # 128))) 4 = (5537 # 10000)%Q /\
    round ((52 # 100) + (48 # 100) * (9 # 128))%Q 4 = (5538 # 10000)%Q.
Proof. eexists. eexists. split; [vm_compute; reflexivity |]. repeat split. Qed.

Lemma unique_NoDup (l : list str) : unique l = true -> NoDup l.
Proof.
  induction l as [| x l IH]; simpl; [constructor |].
  rewrite andb_true_iff, negb_true_iff. intros [H1 H2].
  constructor; [| auto]. intros Hin. apply contains_In in Hin. congruence.
Qed.

(** C3 (as stated, refuted). The classifier [stranger] scores the label
    Hero, which is not an archetype name of the lexicon; [classify] raises
    nothing and returns a reply whose label is Hero. *)
Lemma C3_unknown_label_counterexample :
  In (u "Hero") (keys (scores_of stranger (normalize_text (u "hello")))) /\
  ~ In (u "Hero") (keys ARCHETYPES) /\
  (forall e, fst (classify ARCHETYPES (Some stranger) (mkInp (u "hello")) counting)
             <> Raise e) /\
  exists r g',
    classify ARCHETYPES (Some stranger) (mkInp (u "hello")) counting
      = (Return (Ok r), g') /\
    label r = u "Hero" /\ confidence r = (9000 # 10000)%Q /\
    patterns_found r = [] /\ patterns_missing r = [].
Proof.
  split; [vm_compute; tauto |].
  split; [vm_compute; intuition discriminate |].
  split; [intros e; vm_compute; discriminate |].
  eexists. eexists. split; [vm_compute; reflexivity |]. repeat split.
Qed.

(** C3 (amended). Labels of the score mapping that are not archetype names
    are tolerated: for every classifier that answers, [classify] returns a
    reply and raises nothing; a label outside the registry has no matched
    keywords, and when the final label is outside the registry both keyword
    lists of the reply are empty. *)
Theorem C3_unknown_label_tolerated (A : dict Lexicon) (m : Model) (t : str)
    (g : RandomState) :
  templates_render A = true -> serves m (normalize_text t) = true ->
  let fa := analyze_patterns_all A (normalize_text t) in
  exists r g',
    classify A (Some m) (mkInp t) g = (Return (Ok r), g') /\
    (forall k, ~ In k (keys A) -> hit_count fa k = 0) /\
    (~ In (label r) (keys A) ->
       patterns_found r = [] /\ patterns_missing r = []).
Proof.
  intros Ht Hs fa.
  destruct (classify_run A m t g Hs Ht) as [top [conf [ex [g' [E _]]]]].
  fold fa in E.
  assert (Hfa : forall k, ~ In k (keys A) -> dict_get_or fa k [] = []).
  { intros k Hk. unfold dict_get_or.
    destruct (dict_get fa k) as [hits |] eqn:Eh; [| reflexivity].
    apply dict_get_Some_key, found_all_keys in Eh. contradiction. }
  eexists. exists g'. split; [exact E |]. split.
  - intros k Hk. unfold hit_count. now rewrite (Hfa k Hk).
  - unfold reply_of. cbn [label patterns_found patterns_missing].
    intros Hl. split; [exact (Hfa _ Hl) |].
    unfold dict_get_or at 2.
    apply dict_get_None in Hl. rewrite Hl. reflexivity.
Qed.

Lemma C3_unknown_label_tolerated_witness :
  templates_render ARCHETYPES = true /\
  serves stranger (normalize_text (u "hello")) = true /\
  let fa := analyze_patterns_all ARCHETYPES (normalize_text (u "hello")) in
  exists r g',
    classify ARCHETYPES (Some stranger) (mkInp (u "hello")) counting
      = (Return (Ok r), g') /\
    (forall k, ~ In k (keys ARCHETYPES) -> hit_count fa k = 0) /\
    (~ In (label r) (keys ARCHETYPES) ->
       patterns_found r = [] /\ patterns_missing r = []).
Proof.
  split; [reflexivity |]. split; [reflexivity |].
  apply (C3_unknown_label_tolerated ARCHETYPES stranger (u "hello") counting);
    reflexivity.
Defined.

(** C4. Matcher. Over a registry with distinct names, a keyword of an
    archetype is reported for a text if and only if its match-normalized
    form is the space-joined window of one, two or three consecutive
    tokens of the match-normalized text. With the lexicon of the
    repository, "careful development" does not match "care", and both
    "well-being" and "well being" match "well-being". *)
Theorem C4_matcher_windows (A : dict Lexicon) (text name : str) (lex : Lexicon)
    (kw : str) :
  unique (keys A) = true -> In (name, lex) A -> In kw (keywords lex) ->
  (In (lower kw) (dict_get_or (analyze_patterns_all A text) name []) <->
   is_window (_norm_for_match kw) (split (_norm_for_match text))) /\
  ~ In (u "care")
      (dict_get_or (analyze_patterns_all ARCHETYPES (u "careful development"))
         (u "Caregiver") []) /\
  In (u "well-being")
     (dict_get_or (analyze_patterns_all ARCHETYPES (u "well-being"))
        (u "Caregiver") []) /\
  In (u "well-being")
     (dict_get_or (analyze_patterns_all ARCHETYPES (u "well being"))
        (u "Caregiver") []).
Proof.
  intros Hu Hin Hkw. split; [| split; [| split]].
  - rewrite (found_all_own A text name lex (unique_NoDup _ Hu) Hin).
    rewrite In_hits_of, <- ngram_set_windows. split.
    + intros [kw' [_ [E H]]]. now rewrite (norm_for_match_lower kw kw' E).
    + intros H. exists kw. auto.
  - vm_compute. tauto.
  - vm_compute. tauto.
  - vm_compute. tauto.
Qed.

Lemma C4_matcher_windows_witness :
  unique (keys ARCHETYPES) = true /\
  In (u "Caregiver", CAREGIVER) ARCHETYPES /\
  In (u "well-being") (keywords CAREGIVER) /\
  (In (lower (u "well-being"))
      (dict_get_or (analyze_patterns_all ARCHETYPES (u "Be well. Being kind"))
         (u "Caregiver") []) <->
   is_window (_norm_for_match (u "well-being"))
     (split (_norm_for_match (u "Be well. Being kind")))) /\
  ~ In (u "care")
      (dict_get_or (analyze_patterns_all ARCHETYPES (u "careful development"))
         (u "Caregiver") []) /\
  In (u "well-being")
     (dict_get_or (analyze_patterns_all ARCHETYPES (u "well-being"))
        (u "Caregiver") []) /\
  In (u "well-being")
     (dict_get_or (analyze_patterns_all ARCHETYPES (u "well being"))
        (u "Caregiver") []).
Proof.
  assert (H1 : In (u "Caregiver", CAREGIVER) ARCHETYPES) by (right; left; reflexivity).
  assert (H2 : In (u "well-being") (keywords CAREGIVER)) by (vm_compute; tauto).
  split; [reflexivity |]. split; [exact H1 |]. split; [exact H2 |].
  apply (C4_matcher_windows ARCHETYPES (u "Be well. Being kind") (u "Caregiver")
           CAREGIVER (u "well-being") eq_refl H1 H2).
Defined.

(** C5. Top-3. The [scores] of the reply are three entries of the score
    mapping, or all of them when the mapping has fewer than three labels;
    they are the highest ranked entries (by decreasing score, equal scores
    in label order), listed in rank order, with values rounded to 4
    decimal places, so the rounded values are non-increasing. *)
Theorem C5_top3 (A : dict Lexicon) (m : Model) (t : str) (g : RandomState) :
  templates_render A = true -> serves m (normalize_text t) = true ->
  let sc := scores_of m (normalize_text t) in
  exists r g' chosen others,
    classify A (Some m) (mkInp t) g = (Return (Ok r), g') /\
    length (scores r) = Nat.min 3 (length sc) /\
    (length (scores r) < 3 <-> length (keys sc) < 3) /\
    Permutation sc (chosen ++ others) /\
    scores r = map (fun kv => (fst kv, round (snd kv) 4)) chosen /\
    StronglySorted (outranks sc) chosen /\
    (forall a b, In a chosen -> In b others -> outranks sc a b) /\
    StronglySorted (fun a b => (snd b <= snd a)%Q) (scores r).
Proof.
  intros Ht Hs sc.
  destruct (classify_run A m t g Hs Ht) as [top [conf [ex [g' [E _]]]]].
  fold sc in E.
  set (sorted := sorted_desc (fun kv : str * Q => snd kv) sc).
  pose proof (sorted_desc_perm (fun kv : str * Q => snd kv) sc) as P.
  pose proof (sorted_desc_stable (fun kv : str * Q => snd kv) sc) as S.
  fold sorted in P, S. rewrite <- (firstn_skipn 3 sorted) in P, S.
  apply StronglySorted_app in S. destruct S as [S1 [_ S2]].
  assert (Hlen : length (firstn 3 sorted) = Nat.min 3 (length sc)).
  { rewrite length_firstn. unfold sorted.
    now rewrite <- (Permutation_length (sorted_desc_perm (fun kv : str * Q => snd kv) sc)). }
  eexists. exists g', (firstn 3 sorted), (skipn 3 sorted).
  split; [exact E |]. unfold reply_of. cbn [scores]. fold sorted.
  rewrite length_map. unfold keys. rewrite length_map.
  repeat split; try assumption; try lia.
  eapply StronglySorted_map; [| exact S1].
  intros a b H. simpl. apply round4_mono.
  exact (ranked_before_le (fun kv : str * Q => snd kv) sc a b H).
Qed.

Lemma C5_top3_witness :
  templates_render ARCHETYPES = true /\
  serves undecided (normalize_text caring_text) = true /\
  let sc := scores_of undecided (normalize_text caring_text) in
  exists r g' chosen others,
    classify ARCHETYPES (Some undecided) (mkInp caring_text) counting
      = (Return (Ok r), g') /\
    length (scores r) = Nat.min 3 (length sc) /\
    (length (scores r) < 3 <-> length (keys sc) < 3) /\
    Permutation sc (chosen ++ others) /\
    scores r = map (fun kv => (fst kv, round (snd kv) 4)) chosen /\
    StronglySorted (outranks sc) chosen /\
    (forall a b, In a chosen -> In b others -> outranks sc a b) /\
    StronglySorted (fun a b => (snd b <= snd a)%Q) (scores r).
Proof.
  split; [reflexivity |]. split; [reflexivity |].
  apply (C5_top3 ARCHETYPES undecided caring_text counting); reflexivity.
Defined.

(** The scores of the first scenario, in rank order. *)
Example scenario_top3 :
  exists r g',
    classify ARCHETYPES (Some undecided) (mkInp caring_text) counting
      = (Return (Ok r), g') /\
    scores r = [(u "Rebel", (4000 # 10000)%Q); (u "Caregiver", (3500 # 10000)%Q);
                (u "Explorer", (2500 # 10000)%Q)].
Proof. eexists. eexists. split; vm_compute; reflexivity. Qed.

(** C6. Missing keywords. The missing keywords of the reply are the
    lower-cased keywords of the final label's archetype that are not among
    the matched keywords, in declaration order, cut after the first 10;
    so there are at most 10 of them and none of them is a matched
    keyword. *)
Theorem C6_missing_keywords (A : dict Lexicon) (m : Model) (t : str)
    (g : RandomState) :
  templates_render A = true -> serves m (normalize_text t) = true ->
  let fa := analyze_patterns_all A (normalize_text t) in
  exists r g',
    classify A (Some m) (mkInp t) g = (Return (Ok r), g') /\
    patterns_found r = dict_get_or fa (label r) [] /\
    patterns_missing r =
      firstn 10
        (filter (fun w => negb (contains (patterns_found r) w))
           (map lower (keywords (dict_get_or A (label r) no_lexicon)))) /\
    length (patterns_missing r) <= 10 /\
    (forall w, In w (patterns_missing r) -> ~ In w (patterns_found r)).
Proof.
  intros Ht Hs fa.
  destruct (classify_run A m t g Hs Ht) as [top [conf [ex [g' [E _]]]]].
  fold fa in E. eexists. exists g'. split; [exact E |].
  unfold reply_of. cbn [label patterns_found patterns_missing].
  split; [reflexivity |]. split; [reflexivity |]. split.
  - apply firstn_le_length.
  - intros w Hw Hf. apply In_firstn, filter_In in Hw. destruct Hw as [_ Hw].
    apply contains_In in Hf. rewrite Hf in Hw. discriminate.
Qed.

Lemma C6_missing_keywords_witness :
  templates_render ARCHETYPES = true /\
  serves undecided (normalize_text caring_text) = true /\
  let fa := analyze_patterns_all ARCHETYPES (normalize_text caring_text) in
  exists r g',
    classify ARCHETYPES (Some undecided) (mkInp caring_text) counting
      = (Return (Ok r), g') /\
    patterns_found r = dict_get_or fa (label r) [] /\
    patterns_missing r =
      firstn 10
        (filter (fun w => negb (contains (patterns_found r) w))
           (map lower (keywords (dict_get_or ARCHETYPES (label r) no_lexicon)))) /\
    length (patterns_missing r) <= 10 /\
    (forall w, In w (patterns_missing r) -> ~ In w (patterns_found r)).
Proof.
  split; [reflexivity |]. split; [reflexivity |].
  apply (C6_missing_keywords ARCHETYPES undecided caring_text counting); reflexivity.
Defined.

Lemma hits_of_empty (text : str) (lex : Lexicon) :
  _norm_for_match text = [] -> hits_of text lex = [].
Proof.
  intros E. unfold hits_of. rewrite E, ngram_set_empty.
  induction (keywords lex) as [| kw kws IH]; [reflexivity | exact IH].
Qed.

Lemma found_all_empty (A : dict Lexicon) (text : str) :
  _norm_for_match text = [] ->
  Forall (fun entry => snd entry = []) (analyze_patterns_all A text) /\
  forall name, In name (keys A) ->
    dict_get (analyze_patterns_all A text) name = Some [].
Proof.
  intros E.
  assert (F : forall name hits,
             dict_get (analyze_patterns_all A text) name = Some hits -> hits = []).
  { intros name hits H. apply found_all_get in H.
    destruct H as [lex [_ ->]]. now apply hits_of_empty. }
  split.
  - apply Forall_forall. intros [name hits] H. simpl.
    apply (F name). apply In_dict_get; [apply found_all_NoDup | exact H].
  - intros name H. apply (found_all_keys A text) in H.
    destruct (In_keys_get _ _ H) as [hits Eh]. now rewrite Eh, (F name hits Eh).
Qed.

Lemma lex_label_hit_count_zero (fa : dict (list str)) (lexLabel : str) :
  Forall (fun entry => snd entry = []) fa ->
  hit_count fa lexLabel = 0.
Proof.
  intros F. unfold hit_count, dict_get_or.
  destruct (dict_get fa lexLabel) as [hits |] eqn:E; [| reflexivity].
  apply dict_get_In in E. rewrite Forall_forall in F.
  specialize (F _ E). simpl in F. now rewrite F.
Qed.

Lemma final_no_hits (sc : dict Q) (fa : dict (list str)) (top : str) (conf : Q) :
  Forall (fun entry => snd entry = []) fa -> final sc fa top conf = (top, conf).
Proof.
  intros F. unfold final. destruct (lex_label_of fa) as [lexLabel |]; [| reflexivity].
  unfold fires, strong. rewrite (lex_label_hit_count_zero fa lexLabel F).
  simpl. now rewrite andb_false_r.
Qed.

(** C7. Empty text. A text whose match-normalized form is empty, the empty
    text among them, has no matched keyword for any archetype, and the
    matcher raises nothing. [classify] on such a text still returns a
    reply, computed from the classifier's row for the normalized text: the
    label is the classifier's first maximal label, with its probability
    rounded to 4 decimal places. *)
Theorem C7_empty_text (A : dict Lexicon) (m : Model) (text t : str)
    (g : RandomState) :
  _norm_for_match text = [] ->
  templates_render A = true -> serves m (normalize_text t) = true ->
  _norm_for_match (normalize_text t) = [] ->
  let sc := scores_of m (normalize_text t) in
  normalize_text [] = [] /\ _norm_for_match [] = [] /\
  (forall name, In name (keys A) ->
     dict_get (analyze_patterns_all A text) name = Some []) /\
  Forall (fun entry => snd entry = []) (analyze_patterns_all A text) /\
  exists top conf r g',
    classify A (Some m) (mkInp t) g = (Return (Ok r), g') /\
    first_max Qgtb (score sc) (keys sc) top /\
    dict_get sc top = Some conf /\
    label r = top /\ confidence r = round conf 4 /\
    patterns_found r = [] /\
    Forall (fun entry => snd entry = []) (patterns_found_all r).
Proof.
  intros E Ht Hs Et sc.
  destruct (found_all_empty A text E) as [F1 F2].
  destruct (found_all_empty A (normalize_text t) Et) as [G1 G2].
  split; [reflexivity |]. split; [reflexivity |].
  split; [exact F2 |]. split; [exact F1 |].
  destruct (classify_run A m t g Hs Ht) as [top [conf [ex [g' [Ec [Hmax Hconf]]]]]].
  fold sc in Ec, Hmax, Hconf.
  exists top, conf. eexists. exists g'. split; [exact Ec |].
  unfold reply_of.
  cbn [label confidence patterns_found patterns_found_all].
  rewrite (final_no_hits sc _ top conf G1). cbn [fst snd].
  repeat split; try assumption.
  unfold dict_get_or.
  destruct (dict_get (analyze_patterns_all A (normalize_text t)) top) as [hits |] eqn:Eh;
    [| reflexivity].
  apply dict_get_In in Eh. rewrite Forall_forall in G1. exact (G1 _ Eh).
Qed.

Lemma C7_empty_text_witness :
  _norm_for_match [] = [] /\
  templates_render ARCHETYPES = true /\ serves undecided (normalize_text []) = true /\
  _norm_for_match (normalize_text []) = [] /\
  let sc := scores_of undecided (normalize_text []) in
  normalize_text [] = [] /\ _norm_for_match [] = [] /\
  (forall name, In name (keys ARCHETYPES) ->
     dict_get (analyze_patterns_all ARCHETYPES []) name = Some []) /\
  Forall (fun entry => snd entry = []) (analyze_patterns_all ARCHETYPES []) /\
  exists top conf r g',
    classify ARCHETYPES (Some undecided) (mkInp []) counting = (Return (Ok r), g') /\
    first_max Qgtb (score sc) (keys sc) top /\
    dict_get sc top = Some conf /\
    label r = top /\ confidence r = round conf 4 /\
    patterns_found r = [] /\
    Forall (fun entry => snd entry = []) (patterns_found_all r).
Proof.
  split; [reflexivity |]. split; [reflexivity |]. split; [reflexivity |].
  split; [reflexivity |].
  apply (C7_empty_text ARCHETYPES undecided [] [] counting); reflexivity.
Defined.

(** C8. Determinism. For a fixed registry, classifier and text, the label,
    confidence, matched keywords, missing keywords and top-3 scores of the
    reply are the same for every state of the random source; only the
    example rewrite may differ. *)
Theorem C8_deterministic (A : dict Lexicon) (m : Model) (t : str) :
  templates_render A = true -> serves m (normalize_text t) = true ->
  exists lbl conf matched missing top3,
    forall g : RandomState,
    exists r g',
      classify A (Some m) (mkInp t) g = (Return (Ok r), g') /\
      label r = lbl /\ confidence r = conf /\
      patterns_found r = matched /\ patterns_missing r = missing /\
      scores r = top3.
Proof.
  intros Ht Hs.
  destruct (classifier_top m t Hs) as [top [conf [Emax [_ Econf]]]].
  set (sc := scores_of m (normalize_text t)) in *.
  set (fa := analyze_patterns_all A (normalize_text t)).
  set (r0 := reply_of A sc fa top conf []).
  exists (label r0), (confidence r0), (patterns_found r0), (patterns_missing r0),
    (scores r0).
  intros g.
  destruct (classify_reply A m t top conf g Hs Ht Emax Econf) as [ex [g' E]].
  exists (reply_of A sc fa top conf ex), g'. split; [exact E |].
  repeat split.
Qed.

Lemma C8_deterministic_witness :
  templates_render ARCHETYPES = true /\
  serves undecided (normalize_text caring_text) = true /\
  exists lbl conf matched missing top3,
    forall g : RandomState,
    exists r g',
      classify ARCHETYPES (Some undecided) (mkInp caring_text) g
        = (Return (Ok r), g') /\
      label r = lbl /\ confidence r = conf /\
      patterns_found r = matched /\ patterns_missing r = missing /\
      scores r = top3.
Proof.
  split; [reflexivity |]. split; [reflexivity |].
  apply (C8_deterministic ARCHETYPES undecided caring_text); reflexivity.
Defined.

(** The example rewrite does depend on the random source. *)
Example rewrite_depends_on_random :
  let run := rewrite ARCHETYPES caring_text (u "Caregiver") (u "Your brand") in
  fst (run counting) <> fst (run (fun _ : nat => 0)).
Proof. vm_compute. discriminate. Qed.

(** C9. Rewrite fallback. When the target is not an archetype name, or
    names an archetype without templates, [rewrite] raises nothing, draws
    no random number and returns the display-normalized text (after the
    archetype's word replacements; none for an unknown target): as it is
    when it has at most 120 characters, and otherwise its first 120
    characters followed by three dots. *)
Theorem C9_rewrite_fallback (A : dict Lexicon) (text target brand : str)
    (g : RandomState) :
  templates (dict_get_or A target no_lexicon) = [] ->
  let lex := dict_get_or A target no_lexicon in
  let shown := normalize_text (replaced lex text) in
  rewrite A text target brand g = (Return (truncated shown), g) /\
  (length shown <= 120 -> truncated shown = shown) /\
  (120 < length shown ->
     truncated shown = firstn 120 shown ++ u "..." /\
     length (truncated shown) = 123) /\
  (dict_get A target = None -> shown = normalize_text text).
Proof.
  intros Ht lex shown.
  assert (T1 : length shown <= 120 -> truncated shown = shown).
  { intros H. unfold truncated. apply Nat.leb_le in H. now rewrite H. }
  assert (T2 : 120 < length shown -> truncated shown = firstn 120 shown ++ u "...").
  { intros H. unfold truncated. apply Nat.leb_gt in H. now rewrite H. }
  split; [| split; [exact T1 | split]].
  - unfold rewrite. cbv zeta. rewrite Ht. fold lex. fold (replaced lex text).
    fold shown. unfold ret. f_equal. f_equal.
    destruct (120 <? length shown) eqn:E.
    + apply Nat.ltb_lt in E. now rewrite (T2 E).
    + apply Nat.ltb_ge in E. now rewrite (T1 E).
  - intros H. split; [exact (T2 H) |].
    rewrite (T2 H), length_app, length_firstn.
    change (length (u "...")) with 3. lia.
  - intros H. unfold shown, lex, dict_get_or. rewrite H. reflexivity.
Qed.

Lemma C9_rewrite_fallback_witness :
  templates (dict_get_or ARCHETYPES (u "Hero") no_lexicon) = [] /\
  let lex := dict_get_or ARCHETYPES (u "Hero") no_lexicon in
  let shown := normalize_text (replaced lex caring_text) in
  rewrite ARCHETYPES caring_text (u "Hero") (u "Your brand") counting
    = (Return (truncated shown), counting) /\
  (length shown <= 120 -> truncated shown = shown) /\
  (120 < length shown ->
     truncated shown = firstn 120 shown ++ u "..." /\
     length (truncated shown) = 123) /\
  (dict_get ARCHETYPES (u "Hero") = None -> shown = normalize_text caring_text).
Proof.
  split; [reflexivity |].
  apply (C9_rewrite_fallback ARCHETYPES caring_text (u "Hero") (u "Your brand")
           counting eq_refl).
Defined.

(** The fallback on an archetype that has replacements and no templates. *)
Example rewrite_without_templates :
  let plain := mkLexicon [] [(u "features", u "care standards")] [] [] [] [] [] in
  fst (rewrite [(u "Plain", plain)] (u "Features & features: see http://x.y/z now")
         (u "Plain") (u "Your brand") counting)
  = Return (u "Care standards care standards see now").
Proof. vm_compute. reflexivity. Qed.

(** C10. Long keywords. A keyword whose match-normalized form has four or
    more tokens is never reported, for any text and any archetype; so the
    Explorer keyword "find your own way" occurs in no match result and in
    no reply's matched keywords. *)
Theorem C10_long_keywords_never_match (A : dict Lexicon) (text name kw : str) :
  4 <= length (split (_norm_for_match kw)) ->
  ~ In (lower kw) (dict_get_or (analyze_patterns_all A text) name []) /\
  In (u "find your own way") (keywords EXPLORER) /\
  (forall text' name',
     ~ In (u "find your own way")
         (dict_get_or (analyze_patterns_all ARCHETYPES text') name' [])) /\
  (forall m t g r g',
     classify ARCHETYPES (Some m) (mkInp t) g = (Return (Ok r), g') ->
     ~ In (u "find your own way") (patterns_found r) /\
     forall name',
       ~ In (u "find your own way") (dict_get_or (patterns_found_all r) name' [])).
Proof.
  assert (G : forall (B : dict Lexicon) (txt nm k : str),
             4 <= length (split (_norm_for_match k)) ->
             ~ In (lower k) (dict_get_or (analyze_patterns_all B txt) nm [])).
  { intros B txt nm k Hk Hin.
    destruct (found_all_get_or B txt nm) as [E | [lex [_ E]]];
      rewrite E in Hin; [contradiction |].
    apply In_hits_of in Hin. destruct Hin as [k' [_ [El Hg]]].
    rewrite <- (norm_for_match_lower k k' El) in Hg.
    apply ngram_at_most_three in Hg. lia. }
  assert (W : forall txt nm,
             ~ In (u "find your own way")
                 (dict_get_or (analyze_patterns_all ARCHETYPES txt) nm [])).
  { intros txt nm. apply (G ARCHETYPES txt nm (u "find your own way")).
    vm_compute. lia. }
  intros Hk. split; [exact (G A text name kw Hk) |].
  split; [vm_compute; tauto |]. split; [exact W |].
  intros m t g r g' E.
  destruct (classify_found ARCHETYPES m t g r g' E) as [R1 R2].
  rewrite R1, R2. split; [apply W |]. intros nm'. apply W.
Qed.

Lemma C10_long_keywords_never_match_witness :
  4 <= length (split (_norm_for_match (u "Find-your own WAY"))) /\
  ~ In (lower (u "Find-your own WAY"))
      (dict_get_or (analyze_patterns_all ARCHETYPES (u "find your own way home"))
         (u "Explorer") []) /\
  In (u "find your own way") (keywords EXPLORER) /\
  (forall text' name',
     ~ In (u "find your own way")
         (dict_get_or (analyze_patterns_all ARCHETYPES text') name' [])) /\
  (forall m t g r g',
     classify ARCHETYPES (Some m) (mkInp t) g = (Return (Ok r), g') ->
     ~ In (u "find your own way") (patterns_found r) /\
     forall name',
       ~ In (u "find your own way") (dict_get_or (patterns_found_all r) name' [])).
Proof.
  assert (H : 4 <= length (split (_norm_for_match (u "Find-your own WAY"))))
    by (vm_compute; lia).
  split; [exact H |].
  apply (C10_long_keywords_never_match ARCHETYPES (u "find your own way home")
           (u "Explorer") (u "Find-your own WAY") H).
Defined.

(** A text made of that very keyword matches only its shorter neighbours. *)
Example find_your_own_way_unmatched :
  dict_get_or (analyze_patterns_all ARCHETYPES (u "Find your own way out there"))
    (u "Explorer") []
  = [u "out there"].
Proof. vm_compute. reflexivity. Qed.

(* ===================================================================== *)
(** * White space: collapsing, trimming and splitting *)
(* ===================================================================== *)

Module TextFacts.
Import Py PyFacts lexicon serve_api Spec Notions MatcherFacts.

Lemma rstrip_snoc (a : str) (c : N) :
  rstrip (a ++ [c]) = if isspace c then rstrip a else a ++ [c].
Proof.
  unfold rstrip. rewrite rev_app_distr. simpl.
  destruct (isspace c); [reflexivity |].
  simpl. now rewrite rev_involutive.
Qed.

Lemma rstrip_nil : rstrip [] = [].
Proof. reflexivity. Qed.

(** Trailing white space is removed from the right part first. *)
Lemma rstrip_app (a b : str) :
  rstrip (a ++ b) = match rstrip b with [] => rstrip a | r => a ++ r end.
Proof.
  induction b as [| c b IH] using rev_ind.
  - now rewrite app_nil_r.
  - rewrite app_assoc, !rstrip_snoc. destruct (isspace c).
    + exact IH.
    + rewrite <- app_assoc. destruct (b ++ [c]) eqn:E; [now destruct b | reflexivity].
Qed.

Lemma rstrip_nonspace (t : str) :
  Forall (fun c => isspace c = false) t -> rstrip t = t.
Proof.
  induction t as [| c t IH] using rev_ind; [reflexivity |].
  intros H. apply Forall_app in H. destruct H as [_ H].
  inversion H as [| ? ? Hc _]; subst. now rewrite rstrip_snoc, Hc.
Qed.

Lemma lstrip_sub_spaces (s : str) :
  lstrip (sub_spaces false s) = sub_spaces true s.
Proof.
  assert (L : forall r, lstrip (sub_spaces true r) = sub_spaces true r).
  { induction r as [| c r IH]; simpl; [reflexivity |].
    destruct (isspace c) eqn:E; [exact IH | simpl; now rewrite E]. }
  destruct s as [| c s]; simpl; [reflexivity |].
  destruct (isspace c) eqn:E; simpl; [apply L | now rewrite E].
Qed.

Lemma join_cons_tokens (t : str) (ts : list str) :
  join [space] (t :: ts) =
  match ts with [] => t | _ => t ++ space :: join [space] ts end.
Proof. now destruct ts. Qed.

Lemma join_tokens_nonempty (ts : list str) :
  Forall token ts -> ts <> [] -> join [space] ts <> [].
Proof.
  intros H Hne. destruct H as [| t ts [Ht _] _]; [congruence |].
  rewrite join_cons_tokens. destruct ts; [assumption |].
  destruct t; [contradiction | discriminate].
Qed.

(** The scan of [sub_spaces] followed by [rstrip], in both of its states,
    against the scan of [split]. *)
Lemma rstrip_sub_spaces (s : str) :
  (forall cur, cur <> [] -> Forall (fun c => isspace c = false) cur ->
     rstrip (cur ++ sub_spaces false s) = join [space] (split_aux cur s)) /\
  rstrip (sub_spaces true s) = join [space] (split_aux [] s).
Proof.
  induction s as [| c s [IH1 IH2]]; simpl.
  - split; [| reflexivity]. intros cur Hne Hns. rewrite app_nil_r.
    rewrite (rstrip_nonspace cur Hns). now destruct cur.
  - destruct (isspace c) eqn:E.
    + split; [| exact IH2]. intros cur Hne Hns.
      assert (Ht : Forall token (split_aux [] s)) by (apply split_aux_tokens; constructor).
      change (cur ++ space :: sub_spaces true s)
        with (cur ++ [space] ++ sub_spaces true s).
      rewrite app_assoc, rstrip_app, IH2.
      destruct cur as [| c0 cur']; [contradiction |].
      rewrite join_cons_tokens.
      destruct (split_aux [] s) as [| t ts] eqn:Es.
      * simpl join. cbv iota. rewrite rstrip_snoc. simpl isspace. cbv iota.
        apply rstrip_nonspace, Hns.
      * pose proof (join_tokens_nonempty (t :: ts) Ht ltac:(discriminate)) as Hj.
        destruct (join [space] (t :: ts)) as [| j js]; [contradiction |].
        now rewrite <- app_assoc.
    + split.
      * intros cur Hne Hns.
        change (cur ++ c :: sub_spaces false s) with (cur ++ [c] ++ sub_spaces false s).
        rewrite app_assoc. apply IH1.
        -- now destruct cur.
        -- apply Forall_app. split; [assumption | now repeat constructor].
      * apply (IH1 [c]); [discriminate | now repeat constructor].
Qed.

(** Collapsing white space and trimming is joining the white-space
    separated tokens with single spaces. *)
Lemma collapse_strip (s : str) :
  strip (sub_spaces false s) = join [space] (split s).
Proof.
  unfold strip. rewrite lstrip_sub_spaces.
  exact (proj2 (rstrip_sub_spaces s)).
Qed.

Lemma split_collapse_strip (s : str) :
  split (strip (sub_spaces false s)) = split s.
Proof. rewrite collapse_strip. apply split_join, split_tokens. Qed.

(** The characters of the tokens are characters of the string. *)
Lemma split_aux_Forall (P : N -> Prop) (s cur : str) :
  Forall P cur -> Forall P s -> Forall (Forall P) (split_aux cur s).
Proof.
  revert cur. induction s as [| c s IH]; intros cur Hc Hs; simpl.
  - destruct cur; [constructor | constructor; [assumption | constructor]].
  - inversion Hs as [| ? ? Hc0 Hs']; subst. destruct (isspace c).
    + destruct cur; [now apply IH | constructor; [assumption | now apply IH]].
    + apply IH; [| assumption]. apply Forall_app. split; [assumption | now repeat constructor].
Qed.

Lemma split_Forall (P : N -> Prop) (s : str) :
  Forall P s -> Forall (Forall P) (split s).
Proof. apply split_aux_Forall. constructor. Qed.

(** A space-joined sequence of tokens is a fixed point of collapsing and
    trimming. *)
Lemma collapse_strip_join (ts : list str) :
  Forall token ts ->
  strip (sub_spaces false (join [space] ts)) = join [space] ts.
Proof. intros H. now rewrite collapse_strip, split_join. Qed.

End TextFacts.

(* ===================================================================== *)
(** * The two normal forms *)
(* ===================================================================== *)

Module NormalFormFacts.
Import Py PyFacts lexicon serve_api Spec Notions MatcherFacts TextFacts.

(** Case analysis on the comparisons of a character class. *)
Ltac class_props H :=
  unfold lower_alnum, display_char, display_class, match_class, dash_class,
    blank, is_upper_az, is_lower_az, is_digit, in_range in H;
  rewrite ?negb_true_iff, ?orb_false_iff, ?orb_true_iff, ?andb_true_iff,
    ?andb_false_iff, ?N.leb_le, ?N.leb_gt, ?N.eqb_eq, ?N.eqb_neq in H.

Ltac decide_class :=
  unfold lower_alnum, display_char, display_class, match_class, dash_class,
    blank, lower_cp, is_upper_az, is_lower_az, is_digit, isspace, in_range, space;
  repeat match goal with
  | |- context [(?a <=? ?b)%N] => destruct (N.leb_spec a b); try lia
  | |- context [(?a =? ?b)%N] => destruct (N.eqb_spec a b); try lia
  end; cbn [andb orb negb]; try reflexivity; try congruence.

Lemma join_Forall (P : N -> Prop) (sep : str) (ts : list str) :
  Forall P sep -> Forall (Forall P) ts -> Forall P (join sep ts).
Proof.
  intros Hsep H. induction H as [| t ts Ht Hts IH]; [constructor |].
  destruct ts as [| t' ts]; [exact Ht |].
  change (join sep (t :: t' :: ts)) with (t ++ sep ++ join sep (t' :: ts)).
  apply Forall_app. split; [exact Ht |]. apply Forall_app. now split.
Qed.

Lemma map_id_on {A : Type} (f : A -> A) (l : list A) :
  Forall (fun x => f x = x) l -> map f l = l.
Proof. induction 1 as [| x l Hx _ IH]; simpl; congruence. Qed.

Lemma flat_map_singleton {A : Type} (f : A -> list A) (l : list A) :
  Forall (fun x => f x = [x]) l -> flat_map f l = l.
Proof. induction 1 as [| x l Hx _ IH]; simpl; [reflexivity |]. now rewrite Hx, IH. Qed.

Lemma norm_for_match_eq (s : str) :
  _norm_for_match s = join [space] (split (blanked s)).
Proof. unfold _norm_for_match, blanked. apply collapse_strip. Qed.

Lemma blanked_class (s : str) : Forall (fun c => match_class c = true) (blanked s).
Proof.
  unfold blanked, sub_outside. apply Forall_forall. intros c Hc.
  apply in_map_iff in Hc. destruct Hc as [c0 [<- _]].
  destruct (match_class c0) eqn:E; [exact E | reflexivity].
Qed.

Lemma token_lower_alnum (t : str) :
  token t -> Forall (fun c => match_class c = true) t ->
  t <> [] /\ Forall (fun c => lower_alnum c = true) t.
Proof.
  intros [Hne Hns] Hm. split; [exact Hne |].
  rewrite Forall_forall in *. intros c Hc.
  specialize (Hns c Hc). specialize (Hm c Hc).
  unfold match_class in Hm. unfold lower_alnum. rewrite Hns, orb_false_r in Hm. exact Hm.
Qed.

Lemma match_tokens (s : str) :
  Forall token (split (blanked s)) /\
  Forall (fun t => t <> [] /\ Forall (fun c => lower_alnum c = true) t)
    (split (blanked s)).
Proof.
  pose proof (split_tokens (blanked s)) as Ht. split; [exact Ht |].
  pose proof (split_Forall _ _ (blanked_class s)) as Hm.
  rewrite Forall_forall in *. intros t Hin.
  apply token_lower_alnum; auto.
Qed.

Lemma split_norm_for_match (s : str) :
  split (_norm_for_match s) = split (blanked s).
Proof. rewrite norm_for_match_eq. apply split_join, split_tokens. Qed.

Lemma plain_char (c : N) :
  lower_alnum c = true \/ c = space ->
  lower_cp c = [c] /\ dash_class c = false /\ match_class c = true.
Proof.
  intros [H | ->]; [| repeat split; reflexivity].
  class_props H. repeat split; decide_class.
Qed.

(** A space-joined sequence of lower-case alphanumeric tokens is its own
    match form. *)
Lemma norm_for_match_fixed (ts : list str) :
  Forall (fun t => t <> [] /\ Forall (fun c => lower_alnum c = true) t) ts ->
  _norm_for_match (join [space] ts) = join [space] ts.
Proof.
  intros H.
  assert (Hp : Forall (fun c => lower_alnum c = true \/ c = space) (join [space] ts)).
  { apply join_Forall; [repeat constructor; now right |].
    eapply Forall_impl; [| exact H]. intros t [_ Ht].
    eapply Forall_impl; [| exact Ht]. intros c Hc. now left. }
  assert (Ht : Forall token ts).
  { eapply Forall_impl; [| exact H]. intros t [Hne Hc]. split; [exact Hne |].
    eapply Forall_impl; [| exact Hc]. intros c Hl. class_props Hl. decide_class. }
  unfold _norm_for_match, lower.
  rewrite flat_map_singleton
    by (eapply Forall_impl; [| exact Hp]; intros c Hc; apply (plain_char c Hc)).
  assert (E1 : sub_inside dash_class (join [space] ts) = join [space] ts).
  { apply map_id_on. eapply Forall_impl; [| exact Hp]. intros c Hc.
    destruct (plain_char c Hc) as [_ [-> _]]. reflexivity. }
  assert (E2 : sub_outside match_class (join [space] ts) = join [space] ts).
  { apply map_id_on. eapply Forall_impl; [| exact Hp]. intros c Hc.
    destruct (plain_char c Hc) as [_ [_ ->]]. reflexivity. }
  rewrite E1, E2.
  now apply collapse_strip_join.
Qed.

End NormalFormFacts.

Import Py PyFacts lexicon serve_api Spec Notions MatcherFacts TextFacts NormalFormFacts.

(** X1. Match normal form. The match-normalized text is its white-space
    separated tokens joined by single spaces, and every token is a
    non-empty string of lower-case ASCII letters and digits: no other
    character, no leading, trailing or doubled space survives. *)
Theorem X1_norm_for_match_shape (s : str) :
  _norm_for_match s = join [space] (split (_norm_for_match s)) /\
  Forall (fun t => t <> [] /\ Forall (fun c => lower_alnum c = true) t)
    (split (_norm_for_match s)).
Proof.
  rewrite split_norm_for_match. split; [apply norm_for_match_eq | apply match_tokens].
Qed.

(** X2. Match normalization is idempotent. *)
Theorem X2_norm_for_match_idempotent (s : str) :
  _norm_for_match (_norm_for_match s) = _norm_for_match s.
Proof.
  rewrite (norm_for_match_eq s). apply norm_for_match_fixed, match_tokens.
Qed.

Lemma occurs_in_slice {A : Type} (sub l : list A) :
  occurs_in sub l <->
  exists i, i + length sub <= length l /\ firstn (length sub) (skipn i l) = sub.
Proof.
  split.
  - intros [pre [post ->]]. exists (length pre). split.
    + rewrite !length_app. lia.
    + rewrite skipn_app, skipn_all, Nat.sub_diag. simpl.
      rewrite firstn_app, firstn_all, Nat.sub_diag. simpl. apply app_nil_r.
  - intros [i [Hi E]]. exists (firstn i l), (skipn (length sub) (skipn i l)).
    pose proof (firstn_skipn (length sub) (skipn i l)) as F. rewrite E in F.
    rewrite F. symmetry. apply firstn_skipn.
Qed.

Lemma hit_iff_ngram (A : dict Lexicon) (text name : str) (lex : Lexicon) (kw : str) :
  unique (keys A) = true -> In (name, lex) A -> In kw (keywords lex) ->
  In (lower kw) (dict_get_or (analyze_patterns_all A text) name []) <->
  In (_norm_for_match kw) (_ngram_set (_norm_for_match text)).
Proof.
  intros Hu Hin Hkw.
  rewrite (found_all_own A text name lex (unique_NoDup _ Hu) Hin), In_hits_of. split.
  - intros [kw' [_ [E H]]]. now rewrite (norm_for_match_lower kw kw' E).
  - intros H. exists kw. auto.
Qed.

(** X3. Token matching. Over a registry with distinct names, a keyword of
    an archetype is reported for a text if and only if its match form has
    one, two or three tokens and these tokens occur, consecutively and in
    order, among the tokens of the match-normalized text. *)
Theorem X3_keyword_matches_token_run (A : dict Lexicon) (text name : str)
    (lex : Lexicon) (kw : str) :
  unique (keys A) = true -> In (name, lex) A -> In kw (keywords lex) ->
  let ktoks := split (_norm_for_match kw) in
  let toks := split (_norm_for_match text) in
  In (lower kw) (dict_get_or (analyze_patterns_all A text) name []) <->
  1 <= length ktoks <= 3 /\ occurs_in ktoks toks.
Proof.
  intros Hu Hin Hkw ktoks toks.
  rewrite (hit_iff_ngram A text name lex kw Hu Hin Hkw), ngram_set_windows.
  fold toks. rewrite occurs_in_slice. split.
  - intros [i [n [Hn [Hi E]]]].
    assert (Ek : ktoks = firstn n (skipn i toks)).
    { unfold ktoks. rewrite E. apply split_join, Forall_slice, split_tokens. }
    assert (Hl : length ktoks = n).
    { rewrite Ek, length_firstn, length_skipn. lia. }
    split; [lia |]. exists i. rewrite Hl. split; [exact Hi | now symmetry].
  - intros [Hn [i [Hi E]]]. exists i, (length ktoks).
    split; [exact Hn |]. split; [exact Hi |]. rewrite E.
    unfold ktoks. rewrite split_norm_for_match. apply norm_for_match_eq.
Qed.

Lemma X3_keyword_matches_token_run_witness :
  unique (keys ARCHETYPES) = true /\
  In (u "Explorer", EXPLORER) ARCHETYPES /\
  In (u "off road") (keywords EXPLORER) /\
  (In (lower (u "off road"))
      (dict_get_or (analyze_patterns_all ARCHETYPES (u "Go off-road today!"))
         (u "Explorer") []) <->
   1 <= length (split (_norm_for_match (u "off road"))) <= 3 /\
   occurs_in (split (_norm_for_match (u "off road")))
     (split (_norm_for_match (u "Go off-road today!")))).
Proof.
  assert (H1 : In (u "Explorer", EXPLORER) ARCHETYPES) by (right; right; left; reflexivity).
  assert (H2 : In (u "off road") (keywords EXPLORER)) by (vm_compute; tauto).
  split; [reflexivity |]. split; [exact H1 |]. split; [exact H2 |].
  apply (X3_keyword_matches_token_run ARCHETYPES (u "Go off-road today!")
           (u "Explorer") EXPLORER (u "off road") eq_refl H1 H2).
Defined.

Module InsensitivityFacts.
Import Py PyFacts lexicon serve_api Spec Notions MatcherFacts TextFacts NormalFormFacts.

(** What [blanked] does to one character of the lower-cased text. *)
Lemma blanked_flat_map (s : str) :
  blanked s =
  flat_map
    (fun c =>
       map (fun d =>
              if match_class (if dash_class d then space else d)
              then (if dash_class d then space else d) else space)
           (lower_cp c))
    s.
Proof.
  unfold blanked, sub_outside, sub_inside, lower. rewrite map_map.
  induction s as [| c s IH]; simpl; [reflexivity |].
  now rewrite map_app, IH.
Qed.

(** Two strings that differ only in which white-space character stands
    where collapse to the same string. *)
Lemma sub_spaces_same (s1 s2 : str) (in_run : bool) :
  Forall2 (fun a b => a = b \/ (isspace a = true /\ isspace b = true)) s1 s2 ->
  sub_spaces in_run s1 = sub_spaces in_run s2.
Proof.
  intros H. revert in_run. induction H as [| a b s1 s2 Hab _ IH]; intros in_run; simpl.
  - reflexivity.
  - destruct Hab as [<- | [Ha Hb]].
    + destruct (isspace a); [destruct in_run |]; now rewrite IH.
    + rewrite Ha, Hb. destruct in_run; now rewrite IH.
Qed.

Lemma Forall2_same {A : Type} (R : A -> A -> Prop) (l : list A) :
  (forall x, R x x) -> Forall2 R l l.
Proof. intros H. induction l; constructor; auto. Qed.

Lemma blank_image (c : N) :
  blank c = true ->
  lower_cp c = [c] /\
  isspace (if match_class (if dash_class c then space else c)
           then (if dash_class c then space else c) else space) = true.
Proof.
  intros H. class_props H. destruct H as [[[[H1 H2] H3] H4] H5]. split.
  - decide_class.
  - destruct (dash_class c) eqn:D; [reflexivity |].
    destruct (match_class c) eqn:M; [| reflexivity].
    unfold match_class in M.
    destruct (is_lower_az c) eqn:L;
      [unfold is_lower_az, in_range in L; rewrite andb_true_iff, !N.leb_le in L; lia |].
    destruct (is_digit c) eqn:G;
      [unfold is_digit, in_range in G; rewrite andb_true_iff, !N.leb_le in G; lia |].
    exact M.
Qed.

Lemma blanked_alike (s1 s2 : str) :
  Forall2 alike s1 s2 ->
  Forall2 (fun a b => a = b \/ (isspace a = true /\ isspace b = true))
    (blanked s1) (blanked s2).
Proof.
  intros H. rewrite !blanked_flat_map.
  induction H as [| a b s1 s2 Hab _ IH]; simpl; [constructor |].
  apply Forall2_app; [| exact IH].
  destruct Hab as [E | [Ha Hb]].
  - rewrite E. apply Forall2_same. now left.
  - destruct (blank_image a Ha) as [-> Ia]. destruct (blank_image b Hb) as [-> Ib].
    simpl. constructor; [right; now split | constructor].
Qed.

End InsensitivityFacts.

Import InsensitivityFacts.

(** X4. Case, punctuation and hyphen insensitivity. Two texts of the same
    length whose characters are pairwise the same up to case, or both
    characters that match normalization blanks (punctuation, hyphens,
    dashes, white space, non-ASCII symbols), have the same match form and
    the same match result for every registry. *)
Theorem X4_matcher_insensitive (s1 s2 : str) :
  Forall2 alike s1 s2 ->
  _norm_for_match s1 = _norm_for_match s2 /\
  forall A, analyze_patterns_all A s1 = analyze_patterns_all A s2.
Proof.
  intros H.
  assert (E : _norm_for_match s1 = _norm_for_match s2).
  { unfold _norm_for_match. fold (blanked s1). fold (blanked s2).
    now rewrite (sub_spaces_same _ _ false (blanked_alike s1 s2 H)). }
  split; [exact E |]. intros A. unfold analyze_patterns_all. now rewrite E.
Qed.

Lemma X4_matcher_insensitive_witness :
  Forall2 alike (u "Well-Being: OFF_road!") (u "well being, off/Road?") /\
  _norm_for_match (u "Well-Being: OFF_road!") = _norm_for_match (u "well being, off/Road?") /\
  forall A, analyze_patterns_all A (u "Well-Being: OFF_road!")
            = analyze_patterns_all A (u "well being, off/Road?").
Proof.
  assert (H : Forall2 alike (u "Well-Being: OFF_road!") (u "well being, off/Road?")).
  { repeat (constructor;
            [first [left; reflexivity | right; split; reflexivity] |]).
    constructor. }
  split; [exact H |]. apply (X4_matcher_insensitive _ _ H).
Defined.

(* ===================================================================== *)
(** * Display normalization *)
(* ===================================================================== *)

Module DisplayFacts.
Import Py PyFacts lexicon serve_api Spec Notions MatcherFacts TextFacts NormalFormFacts.

(** One step of the scan of [sub_url] outside a match. *)
Lemma sub_url_step (c : N) (s : str) :
  sub_url false (c :: s) =
  if url_at (c :: s) then space :: sub_url true s else c :: sub_url false s.
Proof.
  destruct s as [| t1 [| t2 [| p [| x s]]]]; reflexivity.
Qed.

Lemma url_at_inv (s : str) :
  url_at s = true ->
  exists x r, s = 104%N :: 116%N :: 116%N :: 112%N :: x :: r /\ isspace x = false.
Proof.
  destruct s as [| h [| t1 [| t2 [| p [| x r]]]]]; try discriminate.
  unfold url_at. rewrite !andb_true_iff, !N.eqb_eq, negb_true_iff.
  intros [[[[-> ->] ->] ->] Hx]. eauto.
Qed.

Lemma url_at_intro (x : N) (r : str) :
  isspace x = false -> url_at (104%N :: 116%N :: 116%N :: 112%N :: x :: r) = true.
Proof. intros H. unfold url_at. now rewrite H. Qed.

Lemma url_at_space (c : N) (s : str) : isspace c = true -> url_at (c :: s) = false.
Proof.
  intros H. destruct (url_at (c :: s)) eqn:E; [| reflexivity].
  apply url_at_inv in E. destruct E as [x [r [[= -> _] _]]]. discriminate.
Qed.

(** A character of the output that is not a space is the character of the
    input at the same place, and no match starts there. *)
Lemma sub_url_head (r out : str) (y : N) :
  sub_url false r = y :: out -> isspace y = false ->
  exists r', r = y :: r' /\ out = sub_url false r'.
Proof.
  destruct r as [| c r]; [discriminate |]. rewrite sub_url_step.
  destruct (url_at (c :: r)); intros [= <- <-] Hy; [discriminate | eauto].
Qed.

Lemma url_at_sub_url (c : N) (s : str) :
  url_at (c :: sub_url false s) = true -> url_at (c :: s) = true.
Proof.
  intros H. apply url_at_inv in H. destruct H as [x [r [[= -> E] Hx]]].
  apply sub_url_head in E; [| reflexivity]. destruct E as [r1 [-> E]].
  symmetry in E. apply sub_url_head in E; [| reflexivity]. destruct E as [r2 [-> E]].
  symmetry in E. apply sub_url_head in E; [| reflexivity]. destruct E as [r3 [-> E]].
  symmetry in E. apply sub_url_head in E; [| exact Hx]. destruct E as [r4 [-> E]].
  now apply url_at_intro.
Qed.

(** After [sub_url], [http\S+] matches nowhere. *)
Lemma sub_url_free (s : str) :
  has_url (sub_url false s) = false /\ has_url (sub_url true s) = false.
Proof.
  induction s as [| c s [IH1 IH2]]; [split; reflexivity |]. split.
  - rewrite sub_url_step. destruct (url_at (c :: s)) eqn:E.
    + cbn [has_url]. rewrite IH2, (url_at_space space) by reflexivity. reflexivity.
    + cbn [has_url]. rewrite IH1, orb_false_r.
      destruct (url_at (c :: sub_url false s)) eqn:E'; [| reflexivity].
      apply url_at_sub_url in E'. congruence.
  - cbn [sub_url]. destruct (isspace c) eqn:Ec; [| exact IH2].
    cbn [has_url]. now rewrite IH1, (url_at_space c) by exact Ec.
Qed.

Lemma has_url_map (f : N -> N) (s : str) :
  (forall c, f c = c \/ f c = space) ->
  has_url (map f s) = true -> has_url s = true.
Proof.
  intros Hf. induction s as [| c s IH]; [discriminate |].
  cbn [map has_url]. rewrite !orb_true_iff. intros [H | H]; [left | right; auto].
  change (f c :: map f s) with (map f (c :: s)) in H.
  apply url_at_inv in H. destruct H as [x [r [E Hx]]].
  destruct s as [| t1 [| t2 [| p [| x0 r0]]]]; try discriminate.
  injection E as E0 E1 E2 E3 E4 _.
  assert (K : forall a b, f a = b -> isspace b = false -> a = b).
  { intros a b Ea Hb. destruct (Hf a) as [F | F]; [congruence |].
    rewrite F in Ea. subst b. discriminate. }
  apply K in E0; [| reflexivity]. apply K in E1; [| reflexivity].
  apply K in E2; [| reflexivity]. apply K in E3; [| reflexivity].
  apply K in E4; [| exact Hx]. subst. now apply url_at_intro.
Qed.

Lemma sub_spaces_head (r out : str) (y : N) :
  sub_spaces false r = y :: out -> isspace y = false ->
  exists r', r = y :: r' /\ out = sub_spaces false r'.
Proof.
  destruct r as [| c r]; [discriminate |]. cbn [sub_spaces].
  destruct (isspace c); intros [= <- <-] Hy; [discriminate | eauto].
Qed.

Lemma has_url_sub_spaces (s : str) (in_run : bool) :
  has_url (sub_spaces in_run s) = true -> has_url s = true.
Proof.
  revert in_run. induction s as [| c s IH]; intros in_run; [discriminate |].
  cbn [sub_spaces has_url]. destruct (isspace c) eqn:Ec.
  - intros H. apply orb_true_iff. right. destruct in_run; [exact (IH _ H) |].
    cbn [has_url] in H. rewrite (url_at_space space) in H by reflexivity.
    exact (IH _ H).
  - cbn [has_url]. rewrite !orb_true_iff. intros [H | H]; [left | right; exact (IH _ H)].
    apply url_at_inv in H. destruct H as [x [r [[= -> E] Hx]]].
    apply sub_spaces_head in E; [| reflexivity]. destruct E as [r1 [-> E]].
    symmetry in E. apply sub_spaces_head in E; [| reflexivity]. destruct E as [r2 [-> E]].
    symmetry in E. apply sub_spaces_head in E; [| reflexivity]. destruct E as [r3 [-> E]].
    symmetry in E. apply sub_spaces_head in E; [| exact Hx]. destruct E as [r4 [-> E]].
    now apply url_at_intro.
Qed.

Lemma has_url_lstrip (s : str) : has_url (lstrip s) = true -> has_url s = true.
Proof.
  induction s as [| c s IH]; [discriminate |]. cbn [lstrip].
  destruct (isspace c); [| trivial].
  intros H. cbn [has_url]. apply orb_true_iff. right. auto.
Qed.

Lemma rstrip_prefix (s : str) : exists w, s = rstrip s ++ w.
Proof.
  induction s as [| c s [w IH]] using rev_ind; [now exists [] |].
  rewrite rstrip_snoc. destruct (isspace c).
  - exists (w ++ [c]). rewrite app_assoc. now rewrite <- IH.
  - exists []. now rewrite app_nil_r.
Qed.

Lemma has_url_app (a b : str) : has_url a = true -> has_url (a ++ b) = true.
Proof.
  induction a as [| c a IH]; [discriminate |].
  cbn [has_url]. rewrite orb_true_iff. intros [H | H].
  - apply url_at_inv in H. destruct H as [x [r [-> Hx]]].
    simpl app. cbn [has_url]. now rewrite url_at_intro.
  - simpl app. cbn [has_url]. rewrite (IH H). apply orb_true_r.
Qed.

Lemma has_url_rstrip (s : str) : has_url (rstrip s) = true -> has_url s = true.
Proof.
  intros H. destruct (rstrip_prefix s) as [w E]. rewrite E. now apply has_url_app.
Qed.

Lemma sub_url_id (s : str) : has_url s = false -> sub_url false s = s.
Proof.
  induction s as [| c s IH]; [reflexivity |].
  cbn [has_url]. rewrite orb_false_iff. intros [H1 H2].
  now rewrite sub_url_step, H1, IH.
Qed.

(** The text of [normalize_text] before white space is collapsed. *)
Lemma shown_class (s : str) :
  Forall (fun c => display_class c = true) (sub_outside display_class (sub_url false s)).
Proof.
  unfold sub_outside. apply Forall_forall. intros c Hc.
  apply in_map_iff in Hc. destruct Hc as [c0 [<- _]].
  destruct (display_class c0) eqn:E; [exact E | reflexivity].
Qed.

Lemma normalize_text_eq (s : str) :
  normalize_text s =
  join [space] (split (sub_outside display_class (sub_url false s))).
Proof. unfold normalize_text. apply collapse_strip. Qed.

Lemma token_display (t : str) :
  token t -> Forall (fun c => display_class c = true) t ->
  t <> [] /\ Forall (fun c => display_char c = true) t.
Proof.
  intros [Hne Hns] Hm. split; [exact Hne |].
  rewrite Forall_forall in *. intros c Hc.
  specialize (Hns c Hc). specialize (Hm c Hc).
  unfold display_class in Hm. unfold display_char.
  destruct (is_upper_az c), (is_lower_az c), (is_digit c); try reflexivity.
  rewrite Hns in Hm. exact Hm.
Qed.

Lemma display_tokens (s : str) :
  Forall (fun t => t <> [] /\ Forall (fun c => display_char c = true) t)
    (split (sub_outside display_class (sub_url false s))).
Proof.
  pose proof (split_tokens (sub_outside display_class (sub_url false s))) as Ht.
  pose proof (split_Forall _ _ (shown_class s)) as Hm.
  rewrite Forall_forall in *. intros t Hin. apply token_display; auto.
Qed.

Lemma length_sub_url (s : str) (inside : bool) :
  length (sub_url inside s) <= length s.
Proof.
  revert inside. induction s as [| c s IH]; intros inside; [simpl; lia |].
  destruct inside.
  - cbn [sub_url]. destruct (isspace c); simpl; [specialize (IH false) | specialize (IH true)]; lia.
  - rewrite sub_url_step. destruct (url_at (c :: s)); simpl;
      [specialize (IH true) | specialize (IH false)]; lia.
Qed.

Lemma length_sub_spaces (s : str) (in_run : bool) :
  length (sub_spaces in_run s) <= length s.
Proof.
  revert in_run. induction s as [| c s IH]; intros in_run; simpl; [lia |].
  destruct (isspace c); [destruct in_run |]; simpl;
    [specialize (IH true) | specialize (IH true) | specialize (IH false)]; lia.
Qed.

Lemma length_lstrip (s : str) : length (lstrip s) <= length s.
Proof.
  induction s as [| c s IH]; simpl; [lia |]. destruct (isspace c); simpl; lia.
Qed.

Lemma length_strip (s : str) : length (strip s) <= length s.
Proof.
  unfold strip, rstrip. rewrite length_rev.
  pose proof (length_lstrip (rev (lstrip s))) as H1. rewrite length_rev in H1.
  pose proof (length_lstrip s). lia.
Qed.

Lemma normalize_text_free_and_fixed (s : str) :
  has_url (normalize_text s) = false /\
  normalize_text (normalize_text s) = normalize_text s.
Proof.
  assert (F : has_url (normalize_text s) = false).
  { destruct (has_url (normalize_text s)) eqn:E; [| reflexivity].
    unfold normalize_text, strip in E.
    apply has_url_rstrip, has_url_lstrip, has_url_sub_spaces in E.
    apply has_url_map in E.
    - now rewrite (proj1 (sub_url_free s)) in E.
    - intros c. destruct (display_class c); auto. }
  split; [exact F |].
  pose proof (display_tokens s) as T. rewrite (normalize_text_eq s) in *.
  set (ts := split (sub_outside display_class (sub_url false s))) in *.
  unfold normalize_text. rewrite (sub_url_id _ F).
  assert (E : sub_outside display_class (join [space] ts) = join [space] ts).
  { apply map_id_on. apply join_Forall.
    - repeat constructor.
    - eapply Forall_impl; [| exact T]. intros t [_ Ht].
      eapply Forall_impl; [| exact Ht]. intros c Hc.
      replace (display_class c) with true; [reflexivity |].
      unfold display_class, display_char in *.
      destruct (is_upper_az c), (is_lower_az c), (is_digit c); try reflexivity.
      simpl in *. destruct (isspace c); [reflexivity |]. simpl. now symmetry. }
  rewrite E. apply collapse_strip_join.
  eapply Forall_impl; [| exact T]. intros t [Hne Ht]. split; [exact Hne |].
  eapply Forall_impl; [| exact Ht]. intros c Hc. class_props Hc. decide_class.
Qed.

Lemma normalize_text_url_free (s : str) : has_url (normalize_text s) = false.
Proof. apply normalize_text_free_and_fixed. Qed.

Lemma normalize_text_idem (s : str) :
  normalize_text (normalize_text s) = normalize_text s.
Proof. apply normalize_text_free_and_fixed. Qed.

End DisplayFacts.

Import DisplayFacts.

(** X5. Display normal form. The display-normalized text is its tokens
    joined by single spaces; every token is a non-empty string of ASCII
    letters, digits, hyphens and the two apostrophes; and the result is
    never longer than the input. *)
Theorem X5_normalize_text_shape (s : str) :
  normalize_text s = join [space] (split (normalize_text s)) /\
  Forall (fun t => t <> [] /\ Forall (fun c => display_char c = true) t)
    (split (normalize_text s)) /\
  length (normalize_text s) <= length s.
Proof.
  assert (E : split (normalize_text s)
              = split (sub_outside display_class (sub_url false s))).
  { rewrite normalize_text_eq. apply split_join, split_tokens. }
  rewrite E. split; [apply normalize_text_eq |]. split; [apply display_tokens |].
  unfold normalize_text.
  pose proof (length_strip (sub_spaces false (sub_outside display_class (sub_url false s)))).
  pose proof (length_sub_spaces (sub_outside display_class (sub_url false s)) false).
  pose proof (length_sub_url s false).
  unfold sub_outside in *. rewrite length_map in *. lia.
Qed.

(** X6. URLs are gone for good. In the display-normalized text the pattern
    [http\S+] matches nowhere (no [http] is followed by a character other
    than a space), and normalizing a second time changes nothing. *)
Theorem X6_normalize_text_idempotent (s : str) :
  has_url (normalize_text s) = false /\
  normalize_text (normalize_text s) = normalize_text s.
Proof. split; [apply normalize_text_url_free | apply normalize_text_idem]. Qed.

(* ===================================================================== *)
(** * More on the matcher, rewrite and the route *)
(* ===================================================================== *)

Module RouteFacts.
Import Py PyFacts lexicon serve_api Spec Notions BuiltinFacts SortFacts.
Import MatcherFacts ServerFacts DecisionFacts FloatFacts.

Lemma pick_value (arr : list str) (default : str) (g : RandomState) :
  exists v g', pick arr default g = (Return v, g') /\ slot_value arr default v.
Proof.
  destruct arr as [| x arr].
  - exists default, g. split; reflexivity.
  - destruct (choice_returns x arr g) as [y [g' [E Hy]]]. exists y, g'. split; assumption.
Qed.

Lemma score_dict_short (labels : list str) (probs : list Q) (k i : nat) (acc : dict Q) :
  i <= length probs -> length probs < i + k -> i + k <= length labels ->
  score_dict labels probs acc (seq i k) = Raise IndexError.
Proof.
  revert i acc. induction k as [| k IH]; intros i acc H1 H2 H3; [lia |].
  simpl. unfold index.
  destruct (nth_error labels i) as [l |] eqn:El;
    [| apply nth_error_None in El; lia].
  destruct (nth_error probs i) as [p |] eqn:Ep.
  - apply IH; try lia.
    assert (i < length probs) by (apply nth_error_Some; congruence). lia.
  - reflexivity.
Qed.

Lemma round4_exact (z : Z) : round (Qmake z 10000) 4 = Qmake z 10000.
Proof.
  rewrite round4_eq. f_equal.
  rewrite <- (round_half_even_Z z) at 2. apply round_half_even_compat.
  unfold Qeq, inject_Z. simpl. lia.
Qed.

Lemma round4_unit (x : Q) : (0 <= x <= 1)%Q -> (0 <= round x 4 <= 1)%Q.
Proof.
  intros [H0 H1]. split.
  - apply Qle_trans with (y := Qmake 0 10000); [unfold Qle; simpl; lia |].
    apply round4_lower_bound. eapply Qle_trans; [| exact H0]. unfold Qle; simpl; lia.
  - apply Qle_trans with (y := Qmake 10000 10000); [| unfold Qle; simpl; lia].
    rewrite <- (round4_exact 10000). apply round4_mono.
    eapply Qle_trans; [exact H1 |]. unfold Qle; simpl; lia.
Qed.

Lemma blend_unit (sc : dict Q) (k : str) :
  (0 <= score sc k <= 1)%Q -> (0 <= blend sc k <= 1)%Q.
Proof.
  intros [H0 H1]. unfold blend. apply round4_unit. split.
  - apply Qle_trans with (y := (52 # 100)%Q); [unfold Qle; simpl; lia |].
    eapply Qle_trans; [exact float_blend_0 | apply float_blend_mono, H0].
  - eapply Qle_trans; [apply float_blend_mono, H1 | exact float_blend_1].
Qed.

Lemma score_unit (sc : dict Q) (k : str) :
  (forall k p, dict_get sc k = Some p -> (0 <= p <= 1)%Q) ->
  (0 <= score sc k <= 1)%Q.
Proof.
  intros H. unfold score, dict_get_or.
  destruct (dict_get sc k) as [p |] eqn:E; [exact (H k p E) |].
  split; unfold Qle; simpl; lia.
Qed.

(** The three ways the override step can end. *)
Lemma final_cases (sc : dict Q) (fa : dict (list str)) (top : str) (conf : Q) :
  final sc fa top conf = (top, conf) \/
  exists lexLabel,
    final sc fa top conf = (lexLabel, blend sc lexLabel) /\
    In lexLabel (keys fa) /\ fires fa lexLabel top conf = true.
Proof.
  unfold final. destruct (lex_label_of fa) as [lexLabel |] eqn:E; [| now left].
  destruct (truthy (Some lexLabel) && fires fa lexLabel top conf) eqn:C; [| now left].
  right. exists lexLabel. apply andb_true_iff in C. destruct C as [_ C].
  repeat split; [| exact C].
  eapply first_max_In, lex_label_first_max, E.
Qed.

Lemma first_max_unique {A K : Type} (gt : K -> K -> bool) (key : A -> K)
    (l : list A) (x y : A) :
  first_max gt key l x -> first_max gt key l y -> x = y.
Proof.
  intros [l1 [l2 [-> [H1 H2]]]] [m1 [m2 [E [M1 M2]]]].
  apply app_eq_app in E. destruct E as [l [[E1 E2] | [E1 E2]]].
  - destruct l as [| z l].
    + simpl in E2. now injection E2.
    + simpl in E2. injection E2 as <- E2.
      assert (Hy : In y l1) by (rewrite E1; apply in_elt).
      assert (Hx : In x m2) by (rewrite E2; apply in_elt).
      apply H1 in Hy. apply M2 in Hx. congruence.
  - destruct l as [| z l].
    + simpl in E2. now injection E2.
    + simpl in E2. injection E2 as <- E2.
      assert (Hx : In x m1) by (rewrite E1; apply in_elt).
      assert (Hy : In y l2) by (rewrite E2; apply in_elt).
      apply M1 in Hx. apply H2 in Hy. congruence.
Qed.

Lemma NoDup_app_disjoint {A : Type} (l1 l2 : list A) (z : A) :
  NoDup (l1 ++ l2) -> In z l1 -> In z l2 -> False.
Proof.
  induction l1 as [| x l1 IH]; simpl; [tauto |].
  intros ND [-> | H1] H2; inversion ND as [| ? ? Hn ND']; subst.
  - apply Hn, in_or_app. now right.
  - now apply IH.
Qed.

(** The first entry of a stable decreasing sort is the first maximum. *)
Lemma sorted_head_first_max {A : Type} (key : A -> Q) (l rest : list A) (h : A) :
  NoDup l -> sorted_desc key l = h :: rest ->
  first_max Qgtb key l h.
Proof.
  intros ND E.
  pose proof (sorted_desc_perm key l) as P. pose proof (sorted_desc_stable key l) as S.
  rewrite E in P, S. inversion S as [| ? ? _ Hh]; subst.
  rewrite Forall_forall in Hh.
  assert (Hin : In h l) by (eapply Permutation_in; [symmetry; exact P | now left]).
  apply in_split in Hin. destruct Hin as [l1 [l2 El]].
  exists l1, l2. split; [exact El |].
  assert (Hrest : forall z, In z l -> z <> h -> In z rest).
  { intros z Hz Hne. apply (Permutation_in z P) in Hz. destruct Hz; congruence. }
  rewrite El in ND. pose proof (NoDup_remove_2 _ _ _ ND) as Hnot.
  pose proof (NoDup_remove_1 _ _ _ ND) as ND'.
  split.
  - intros z Hz.
    assert (Hz' : In z rest).
    { apply Hrest; [rewrite El; apply in_or_app; now left |].
      intros ->. apply Hnot, in_or_app. now left. }
    destruct (Hh z Hz') as [Hlt | [_ [a [b [c Ep]]]]].
    + unfold Qgtb. now apply Qltb_lt.
    + exfalso. rewrite El in Ep. apply app_eq_app in Ep.
      destruct Ep as [m [[E1 E2] | [E1 E2]]].
      * destruct m as [| y m]; simpl in E2.
        -- injection E2 as E2. rewrite app_nil_r in E1. subst l1.
           apply (NoDup_app_disjoint _ _ z ND' Hz).
           rewrite <- E2. apply in_or_app. right. now left.
        -- injection E2 as <- E2. apply Hnot. rewrite E1.
           apply in_or_app. left. apply in_or_app. right. now left.
      * destruct m as [| y m]; simpl in E2.
        -- injection E2 as E2. rewrite app_nil_r in E1. subst a.
           apply (NoDup_app_disjoint _ _ z ND' Hz).
           rewrite E2. apply in_or_app. right. now left.
        -- injection E2 as <- E2. apply Hnot. rewrite E2.
           apply in_or_app. right. apply in_or_app. right. now left.
  - intros z Hz.
    assert (Hz' : In z rest).
    { apply Hrest; [rewrite El; apply in_or_app; right; now right |].
      intros ->. apply Hnot, in_or_app. now right. }
    unfold Qgtb. apply Qltb_ge. apply (ranked_before_le key l h z (Hh z Hz')).
Qed.

Lemma NoDup_items {V : Type} (d : dict V) : NoDup (keys d) -> NoDup d.
Proof. unfold keys. apply NoDup_map_inv. Qed.

(** A first maximum among the entries gives a first maximum among the
    keys. *)
Lemma first_max_items_keys (sc : dict Q) (h : str * Q) :
  NoDup (keys sc) ->
  first_max Qgtb (fun kv => snd kv) sc h ->
  first_max Qgtb (score sc) (keys sc) (fst h) /\ dict_get sc (fst h) = Some (snd h).
Proof.
  intros ND [l1 [l2 [E [H1 H2]]]].
  assert (S : forall z, In z sc -> score sc (fst z) = snd z).
  { intros [k v] Hz. unfold score, dict_get_or. cbn [fst snd].
    now rewrite (In_dict_get sc k v ND Hz). }
  assert (Hh : In h sc) by (rewrite E; apply in_elt).
  split.
  - exists (map fst l1), (map fst l2). split.
    + unfold keys. rewrite E, map_app. reflexivity.
    + split; intros y Hy; apply in_map_iff in Hy; destruct Hy as [z [<- Hz]].
      * rewrite (S h Hh), (S z); [now apply H1 | rewrite E; apply in_or_app; now left].
      * rewrite (S h Hh), (S z); [now apply H2 | rewrite E; apply in_or_app; right; now right].
  - destruct h as [k v]. now apply In_dict_get.
Qed.

End RouteFacts.

Import BuiltinFacts SortFacts ServerFacts DecisionFacts RouteFacts Examples.

(** X7. Shape of the match result. Over a registry with distinct names the
    match result has one entry per archetype, in registry order, and the
    entry of an archetype lists, lower-cased and in declaration order, the
    keywords whose match form is among the n-grams of the text; so no
    entry is longer than the archetype's keyword list. *)
Theorem X7_match_result_shape (A : dict Lexicon) (text : str) :
  unique (keys A) = true ->
  analyze_patterns_all A text = map (fun item => (fst item, hits_of text (snd item))) A /\
  keys (analyze_patterns_all A text) = keys A /\
  forall name lex, In (name, lex) A ->
    length (dict_get_or (analyze_patterns_all A text) name []) <= length (keywords lex).
Proof.
  intros Hu. pose proof (unique_NoDup _ Hu) as ND.
  assert (E : analyze_patterns_all A text
              = map (fun item => (fst item, hits_of text (snd item))) A).
  { rewrite analyze_patterns_all_eq. apply dict_of_items_NoDup.
    now rewrite (keys_map_values (hits_of text) A). }
  split; [exact E |]. split.
  - rewrite E. apply (keys_map_values (hits_of text) A).
  - intros name lex Hin. rewrite (found_all_own A text name lex ND Hin).
    unfold hits_of. rewrite length_map. apply filter_length_le.
Qed.

Lemma X7_match_result_shape_witness :
  unique (keys ARCHETYPES) = true /\
  analyze_patterns_all ARCHETYPES caring_text
    = map (fun item => (fst item, hits_of caring_text (snd item))) ARCHETYPES /\
  keys (analyze_patterns_all ARCHETYPES caring_text) = keys ARCHETYPES /\
  forall name lex, In (name, lex) ARCHETYPES ->
    length (dict_get_or (analyze_patterns_all ARCHETYPES caring_text) name [])
    <= length (keywords lex).
Proof.
  split; [reflexivity |].
  apply (X7_match_result_shape ARCHETYPES caring_text eq_refl).
Defined.

(** X8. Rewrite validity. For a target archetype that has templates, all
    of them well-formed, [rewrite] returns one of the archetype's
    templates formatted with the given brand and with slot values that are
    members of the archetype's slot lists (or the slot's default when its
    list is empty); the input text plays no part in the result. *)
Theorem X8_rewrite_renders_a_template (A : dict Lexicon) (text text' target brand : str)
    (g : RandomState) :
  let lex := dict_get_or A target no_lexicon in
  templates lex <> [] -> forallb renders (templates lex) = true ->
  exists t verb verb2 verb3 benefit s g',
    rewrite A text target brand g = (Return s, g') /\
    In t (templates lex) /\
    slot_value (verbs lex) (u "support") verb /\
    slot_value (verbs2 lex) (u "go") verb2 /\
    slot_value (verbs3 lex) (u "move") verb3 /\
    slot_value (benefits lex) (u "what matters") benefit /\
    format t [(u "brand", brand); (u "verb", verb); (u "verb2", verb2);
              (u "verb3", verb3); (u "benefit", benefit)] = Return s /\
    rewrite A text' target brand g = (Return s, g').
Proof.
  intros lex Hne Hr. unfold rewrite. fold lex.
  destruct (templates lex) as [| t0 ts] eqn:Et; [congruence |].
  unfold bind.
  destruct (choice_returns t0 ts g) as [t [g1 [-> Ht]]].
  destruct (pick_value (verbs lex) (u "support") g1) as [v1 [g2 [-> S1]]].
  destruct (pick_value (verbs2 lex) (u "go") g2) as [v2 [g3 [-> S2]]].
  destruct (pick_value (verbs3 lex) (u "move") g3) as [v3 [g4 [-> S3]]].
  destruct (pick_value (benefits lex) (u "what matters") g4) as [v4 [g5 [-> S4]]].
  rewrite forallb_forall in Hr.
  destruct (renders_format t brand v1 v2 v3 v4 (Hr t Ht)) as [s E].
  exists t, v1, v2, v3, v4, s, g5. unfold lift. rewrite E. repeat split; assumption.
Qed.

Lemma X8_rewrite_renders_a_template_witness :
  let lex := dict_get_or ARCHETYPES (u "Caregiver") no_lexicon in
  templates lex <> [] /\ forallb renders (templates lex) = true /\
  exists t verb verb2 verb3 benefit s g',
    rewrite ARCHETYPES caring_text (u "Caregiver") (u "Acme") counting = (Return s, g') /\
    In t (templates lex) /\
    slot_value (verbs lex) (u "support") verb /\
    slot_value (verbs2 lex) (u "go") verb2 /\
    slot_value (verbs3 lex) (u "move") verb3 /\
    slot_value (benefits lex) (u "what matters") benefit /\
    format t [(u "brand", u "Acme"); (u "verb", verb); (u "verb2", verb2);
              (u "verb3", verb3); (u "benefit", benefit)] = Return s /\
    rewrite ARCHETYPES [] (u "Caregiver") (u "Acme") counting = (Return s, g').
Proof.
  assert (H1 : templates (dict_get_or ARCHETYPES (u "Caregiver") no_lexicon) <> [])
    by (vm_compute; discriminate).
  split; [exact H1 |]. split; [reflexivity |].
  apply (X8_rewrite_renders_a_template ARCHETYPES caring_text [] (u "Caregiver")
           (u "Acme") counting H1 eq_refl).
Defined.

(** X9. On the repository's lexicon [rewrite] never raises: for every
    text, target (known or not), brand and state of the random source it
    returns a string. *)
Theorem X9_rewrite_total_on_lexicon (text target brand : str) (g : RandomState) :
  exists s g', rewrite ARCHETYPES text target brand g = (Return s, g').
Proof. apply rewrite_returns. reflexivity. Qed.

(** X10. Outcomes of the route. Without a loaded model [classify] returns
    the error reply and raises nothing. With a model and well-formed
    templates it returns a reply exactly when the classifier gives a row
    with a probability for each of its at least one classes; it raises
    IndexError when the classifier gives no row or a row shorter than the
    class list, and ValueError when the class list is empty. A failed call
    leaves the random source untouched. *)
Theorem X10_classify_outcomes (A : dict Lexicon) (m : Model) (t : str)
    (g : RandomState) :
  templates_render A = true ->
  let txt := normalize_text t in
  (exists msg, classify A None (mkInp t) g = (Return (ErrorReply msg), g)) /\
  (serves m txt = true <->
   exists r g', classify A (Some m) (mkInp t) g = (Return (Ok r), g')) /\
  (predict_proba m [txt] = [] ->
   classify A (Some m) (mkInp t) g = (Raise IndexError, g)) /\
  (forall row rest, predict_proba m [txt] = row :: rest ->
     length row < length (classes_ m) ->
     classify A (Some m) (mkInp t) g = (Raise IndexError, g)) /\
  (forall row rest, predict_proba m [txt] = row :: rest ->
     classes_ m = [] ->
     classify A (Some m) (mkInp t) g = (Raise ValueError, g)).
Proof.
  intros Ht txt.
  assert (E0 : predict_proba m [txt] = [] ->
               classify A (Some m) (mkInp t) g = (Raise IndexError, g)).
  { intros E. unfold classify. cbv zeta. unfold bind, lift. cbn [text predict_proba].
    rewrite str_or_nil. fold txt. now rewrite E. }
  assert (E1 : forall row rest, predict_proba m [txt] = row :: rest ->
               length row < length (classes_ m) ->
               classify A (Some m) (mkInp t) g = (Raise IndexError, g)).
  { intros row rest E Hl. unfold classify. cbv zeta. unfold bind, lift.
    cbn [text predict_proba classes_]. rewrite str_or_nil. fold txt. rewrite E.
    change (index (row :: rest) 0) with (Return row). cbv iota.
    unfold range, len. rewrite Nat2Z.id.
    now rewrite (score_dict_short (classes_ m) row (length (classes_ m)) 0 [])
      by lia. }
  assert (E2 : forall row rest, predict_proba m [txt] = row :: rest ->
               classes_ m = [] ->
               classify A (Some m) (mkInp t) g = (Raise ValueError, g)).
  { intros row rest E Hc. unfold classify. cbv zeta. unfold bind, lift.
    cbn [text predict_proba classes_]. rewrite str_or_nil. fold txt. rewrite E.
    change (index (row :: rest) 0) with (Return row). cbv iota.
    rewrite Hc. reflexivity. }
  split; [eexists; reflexivity |]. split; [| auto].
  split.
  - intros Hs. destruct (classify_run A m t g Hs Ht) as [top [conf [ex [g' [E _]]]]].
    eauto.
  - intros [r [g' E]]. unfold serves. fold txt.
    destruct (predict_proba m [txt]) as [| row rest] eqn:Ep.
    + rewrite (E0 eq_refl) in E. discriminate.
    + destruct (classes_ m) as [| c cs] eqn:Ec.
      * rewrite (E2 row rest eq_refl eq_refl) in E. discriminate.
      * rewrite <- Ec in *. apply Nat.leb_le. destruct (Nat.le_gt_cases (length (classes_ m)) (length row)) as [L | L];
          [exact L |].
        rewrite (E1 row rest eq_refl L) in E. discriminate.
Qed.

Lemma X10_classify_outcomes_witness :
  templates_render ARCHETYPES = true /\
  let txt := normalize_text caring_text in
  (exists msg, classify ARCHETYPES None (mkInp caring_text) counting
               = (Return (ErrorReply msg), counting)) /\
  (serves undecided txt = true <->
   exists r g', classify ARCHETYPES (Some undecided) (mkInp caring_text) counting
                = (Return (Ok r), g')) /\
  (predict_proba undecided [txt] = [] ->
   classify ARCHETYPES (Some undecided) (mkInp caring_text) counting
   = (Raise IndexError, counting)) /\
  (forall row rest, predict_proba undecided [txt] = row :: rest ->
     length row < length (classes_ undecided) ->
     classify ARCHETYPES (Some undecided) (mkInp caring_text) counting
     = (Raise IndexError, counting)) /\
  (forall row rest, predict_proba undecided [txt] = row :: rest ->
     classes_ undecided = [] ->
     classify ARCHETYPES (Some undecided) (mkInp caring_text) counting
     = (Raise ValueError, counting)).
Proof.
  split; [reflexivity |].
  apply (X10_classify_outcomes ARCHETYPES undecided caring_text counting eq_refl).
Defined.

(** The three failures, on classifiers that misbehave. *)
Example classify_failures :
  fst (classify ARCHETYPES (Some (mkModel [u "Rebel"] (fun _ => []))) (mkInp []) counting)
    = Raise IndexError /\
  fst (classify ARCHETYPES (Some (mkModel [u "Rebel"; u "Explorer"] (fun _ => [[1%Q]])))
         (mkInp []) counting)
    = Raise IndexError /\
  fst (classify ARCHETYPES (Some (mkModel [] (fun _ => [[1%Q]]))) (mkInp []) counting)
    = Raise ValueError.
Proof. repeat split. Qed.

(** X11. Confidence range. When every classifier probability lies in
    [0,1], the confidence of the reply lies in [0,1] and so does every
    reported top-3 score. *)
Theorem X11_confidence_in_unit_interval (A : dict Lexicon) (m : Model) (t : str)
    (g : RandomState) :
  templates_render A = true -> serves m (normalize_text t) = true ->
  (forall k p, dict_get (scores_of m (normalize_text t)) k = Some p -> (0 <= p <= 1)%Q) ->
  exists r g',
    classify A (Some m) (mkInp t) g = (Return (Ok r), g') /\
    (0 <= confidence r <= 1)%Q /\
    (forall k v, In (k, v) (scores r) -> (0 <= v <= 1)%Q).
Proof.
  intros Ht Hs Hrange.
  destruct (classify_run A m t g Hs Ht) as [top [conf [ex [g' [E [_ Hconf]]]]]].
  set (sc := scores_of m (normalize_text t)) in *.
  set (fa := analyze_patterns_all A (normalize_text t)) in *.
  eexists. exists g'. split; [exact E |]. unfold reply_of. cbn [confidence scores]. split.
  - apply round4_unit.
    destruct (final_cases sc fa top conf) as [-> | [lexLabel [-> _]]]; cbn [snd].
    + exact (Hrange top conf Hconf).
    + apply blend_unit, score_unit, Hrange.
  - intros k v Hin. apply in_map_iff in Hin. destruct Hin as [[k0 v0] [[= <- <-] Hin]].
    apply round4_unit. apply In_firstn in Hin.
    apply (Permutation_in _ (Permutation_sym (sorted_desc_perm _ sc))) in Hin.
    apply (Hrange k0 v0). apply In_dict_get; [apply scores_of_NoDup | exact Hin].
Qed.

Lemma X11_confidence_in_unit_interval_witness :
  templates_render ARCHETYPES = true /\
  serves undecided (normalize_text caring_text) = true /\
  (forall k p, dict_get (scores_of undecided (normalize_text caring_text)) k = Some p ->
     (0 <= p <= 1)%Q) /\
  exists r g',
    classify ARCHETYPES (Some undecided) (mkInp caring_text) counting
      = (Return (Ok r), g') /\
    (0 <= confidence r <= 1)%Q /\
    (forall k v, In (k, v) (scores r) -> (0 <= v <= 1)%Q).
Proof.
  assert (R : forall k p,
             dict_get (scores_of undecided (normalize_text caring_text)) k = Some p ->
             (0 <= p <= 1)%Q).
  { intros k p H. apply dict_get_In in H. vm_compute in H.
    destruct H as [H | [H | [H | []]]]; injection H as _ <-;
      split; discriminate. }
  split; [reflexivity |]. split; [reflexivity |]. split; [exact R |].
  apply (X11_confidence_in_unit_interval ARCHETYPES undecided caring_text counting
           eq_refl eq_refl R).
Defined.

(** X12. The first reported score is the classifier's. The first entry of
    the reply's top-3 scores is the classifier's first maximal label with
    its probability rounded to 4 decimal places ([max] and [sorted] break
    ties the same way); and whenever the reply's label is that label, the
    reply's confidence is that first score. *)
Theorem X12_first_score_is_classifier_top (A : dict Lexicon) (m : Model) (t : str)
    (g : RandomState) :
  templates_render A = true -> serves m (normalize_text t) = true ->
  let sc := scores_of m (normalize_text t) in
  exists top conf r g' rest,
    classify A (Some m) (mkInp t) g = (Return (Ok r), g') /\
    first_max Qgtb (score sc) (keys sc) top /\
    dict_get sc top = Some conf /\
    scores r = (top, round conf 4) :: rest /\
    (label r = top -> confidence r = round conf 4).
Proof.
  intros Ht Hs sc.
  destruct (classify_run A m t g Hs Ht) as [top [conf [ex [g' [E [Hmax Hconf]]]]]].
  fold sc in E, Hmax, Hconf.
  set (fa := analyze_patterns_all A (normalize_text t)) in *.
  pose proof (scores_of_NoDup m (normalize_text t)) as ND. fold sc in ND.
  destruct (sorted_desc (fun kv : str * Q => snd kv) sc) as [| h rest] eqn:Es.
  { exfalso. pose proof (sorted_desc_perm (fun kv : str * Q => snd kv) sc) as P.
    rewrite Es in P. apply Permutation_sym, Permutation_nil in P.
    apply first_max_In in Hmax. rewrite P in Hmax. contradiction. }
  pose proof (sorted_head_first_max _ sc rest h (NoDup_items sc ND) Es) as Hh.
  destruct (first_max_items_keys sc h ND Hh) as [Hk Hv].
  pose proof (first_max_unique _ _ _ _ _ Hk Hmax) as Etop.
  assert (Ec : snd h = conf) by (rewrite Etop in Hv; congruence).
  exists top, conf. eexists. exists g'.
  exists (map (fun kv : str * Q => (fst kv, round (snd kv) 4)) (firstn 2 rest)).
  split; [exact E |]. split; [exact Hmax |]. split; [exact Hconf |].
  unfold reply_of. cbn [scores label confidence]. rewrite Es. split.
  - simpl. now rewrite Etop, Ec.
  - destruct (final_cases sc fa top conf) as [-> | [lexLabel [-> [_ F]]]]; cbn [fst snd].
    + reflexivity.
    + intros ->. apply fires_iff in F. tauto.
Qed.

Lemma X12_first_score_is_classifier_top_witness :
  templates_render ARCHETYPES = true /\
  serves undecided (normalize_text caring_text) = true /\
  let sc := scores_of undecided (normalize_text caring_text) in
  exists top conf r g' rest,
    classify ARCHETYPES (Some undecided) (mkInp caring_text) counting
      = (Return (Ok r), g') /\
    first_max Qgtb (score sc) (keys sc) top /\
    dict_get sc top = Some conf /\
    scores r = (top, round conf 4) :: rest /\
    (label r = top -> confidence r = round conf 4).
Proof.
  split; [reflexivity |]. split; [reflexivity |].
  apply (X12_first_score_is_classifier_top ARCHETYPES undecided caring_text counting);
    reflexivity.
Defined.

(** X13. Keyword coverage. Every missing keyword of the reply is a
    lower-cased keyword of the final label's archetype; and when fewer
    than 10 are reported, every keyword of that archetype is, lower-cased,
    either matched or missing. *)
Theorem X13_keywords_matched_or_missing (A : dict Lexicon) (m : Model) (t : str)
    (g : RandomState) :
  templates_render A = true -> serves m (normalize_text t) = true ->
  exists r g',
    classify A (Some m) (mkInp t) g = (Return (Ok r), g') /\
    let kws := keywords (dict_get_or A (label r) no_lexicon) in
    (forall w, In w (patterns_missing r) -> exists kw, In kw kws /\ w = lower kw) /\
    (length (patterns_missing r) < 10 ->
     forall kw, In kw kws ->
       In (lower kw) (patterns_found r) \/ In (lower kw) (patterns_missing r)).
Proof.
  intros Ht Hs.
  destruct (classify_run A m t g Hs Ht) as [top [conf [ex [g' [E _]]]]].
  eexists. exists g'. split; [exact E |].
  unfold reply_of. cbn [label patterns_found patterns_missing].
  set (lbl := fst (final _ _ top conf)).
  set (found := dict_get_or _ lbl []).
  set (kws := keywords (dict_get_or A lbl no_lexicon)).
  set (unmatched := filter (fun w => negb (contains found w)) (map lower kws)).
  cbv zeta. split.
  - intros w Hw. apply In_firstn, filter_In in Hw. destruct Hw as [Hw _].
    apply in_map_iff in Hw. destruct Hw as [kw [<- Hkw]]. eauto.
  - intros Hlen kw Hkw.
    assert (Eall : firstn 10 unmatched = unmatched).
    { apply firstn_all2. rewrite length_firstn in Hlen. lia. }
    rewrite Eall. destruct (contains found (lower kw)) eqn:C.
    + left. now apply contains_In.
    + right. apply filter_In. split; [now apply in_map | now rewrite C].
Qed.

Lemma X13_keywords_matched_or_missing_witness :
  templates_render ARCHETYPES = true /\
  serves undecided (normalize_text caring_text) = true /\
  exists r g',
    classify ARCHETYPES (Some undecided) (mkInp caring_text) counting
      = (Return (Ok r), g') /\
    let kws := keywords (dict_get_or ARCHETYPES (label r) no_lexicon) in
    (forall w, In w (patterns_missing r) -> exists kw, In kw kws /\ w = lower kw) /\
    (length (patterns_missing r) < 10 ->
     forall kw, In kw kws ->
       In (lower kw) (patterns_found r) \/ In (lower kw) (patterns_missing r)).
Proof.
  split; [reflexivity |]. split; [reflexivity |].
  apply (X13_keywords_matched_or_missing ARCHETYPES undecided caring_text counting);
    reflexivity.
Defined.

(** X14. Where the label comes from. The label of the reply is a label of
    the classifier's score mapping, or else an archetype of the registry
    with at least two matched keywords. *)
Theorem X14_label_provenance (A : dict Lexicon) (m : Model) (t : str)
    (g : RandomState) :
  templates_render A = true -> serves m (normalize_text t) = true ->
  let sc := scores_of m (normalize_text t) in
  let fa := analyze_patterns_all A (normalize_text t) in
  exists r g',
    classify A (Some m) (mkInp t) g = (Return (Ok r), g') /\
    (In (label r) (keys sc) \/
     (In (label r) (keys A) /\ 2 <= hit_count fa (label r) /\
      2 <= length (patterns_found r))).
Proof.
  intros Ht Hs sc fa.
  destruct (classify_run A m t g Hs Ht) as [top [conf [ex [g' [E [Hmax _]]]]]].
  fold sc fa in E, Hmax.
  eexists. exists g'. split; [exact E |].
  unfold reply_of. cbn [label patterns_found].
  destruct (final_cases sc fa top conf) as [-> | [lexLabel [-> [Hin F]]]]; cbn [fst].
  - left. eapply first_max_In, Hmax.
  - right. apply fires_iff in F. destruct F as [F _].
    split; [now apply (found_all_keys A (normalize_text t)) |]. split; exact F.
Qed.

Lemma X14_label_provenance_witness :
  templates_render ARCHETYPES = true /\
  serves stranger (normalize_text caring_text) = true /\
  let sc := scores_of stranger (normalize_text caring_text) in
  let fa := analyze_patterns_all ARCHETYPES (normalize_text caring_text) in
  exists r g',
    classify ARCHETYPES (Some stranger) (mkInp caring_text) counting
      = (Return (Ok r), g') /\
    (In (label r) (keys sc) \/
     (In (label r) (keys ARCHETYPES) /\ 2 <= hit_count fa (label r) /\
      2 <= length (patterns_found r))).
Proof.
  split; [reflexivity |]. split; [reflexivity |].
  apply (X14_label_provenance ARCHETYPES stranger caring_text counting); reflexivity.
Defined.

(* ===================================================================== *)
(** * Sliding windows *)
(* ===================================================================== *)

Module WindowFacts.
Import Py PyFacts serve_api windowize_dataset MatcherFacts.

Lemma append_loop {A B : Type} (f : A -> B) (keep : B -> bool) (l : list A)
    (acc : list B) :
  fold_left (fun out i => if keep (f i) then out ++ [f i] else out) l acc
  = acc ++ filter keep (map f l).
Proof.
  revert acc. induction l as [| x l IH]; intros acc; simpl.
  - now rewrite app_nil_r.
  - rewrite IH. destruct (keep (f x)); [now rewrite <- app_assoc | reflexivity].
Qed.

Lemma slice_window {A : Type} (l : list A) (i size : nat) :
  slice l i (i + size) = firstn size (skipn i l).
Proof. unfold slice. f_equal. lia. Qed.

Lemma length_window {A : Type} (l : list A) (i size : nat) :
  length (firstn size (skipn i l)) = Nat.min size (length l - i).
Proof. now rewrite length_firstn, length_skipn. Qed.

Lemma filter_all {A : Type} (keep : A -> bool) (l : list A) :
  (forall x, In x l -> keep x = true) -> filter keep l = l.
Proof.
  induction l as [| x l IH]; intros H; simpl; [reflexivity |].
  rewrite (H x (or_introl eq_refl)), IH; [reflexivity |]. intros y Hy. apply H. now right.
Qed.

Lemma filter_none {A : Type} (keep : A -> bool) (l : list A) :
  (forall x, In x l -> keep x = false) -> filter keep l = [].
Proof.
  induction l as [| x l IH]; intros H; simpl; [reflexivity |].
  rewrite (H x (or_introl eq_refl)). apply IH. intros y Hy. apply H. now right.
Qed.

(** The number of window starts. *)
Lemma window_count (n size step : nat) :
  0 < step ->
  Z.to_nat ((Z.max 1 (Z.of_nat n - Z.of_nat size + 1) + Z.of_nat step - 1) / Z.of_nat step)
  = if size <=? n then (n - size) / step + 1 else 1.
Proof.
  intros Hs. destruct (Nat.leb_spec size n) as [L | L].
  - replace (Z.max 1 (Z.of_nat n - Z.of_nat size + 1) + Z.of_nat step - 1)%Z
      with (Z.of_nat (n - size) + 1 * Z.of_nat step)%Z by lia.
    rewrite Z.div_add by lia. rewrite <- Nat2Z.inj_div. lia.
  - replace (Z.max 1 (Z.of_nat n - Z.of_nat size + 1) + Z.of_nat step - 1)%Z
      with (0 + 1 * Z.of_nat step)%Z by lia.
    rewrite Z.div_add by lia. reflexivity.
Qed.

(** [windows] as a filter over the window starts. *)
Lemma windows_eq (text : str) (size step minlen : nat) :
  0 < step ->
  let txt := strip (sub_spaces false text) in
  let n := length txt in
  let cnt := if size <=? n then (n - size) / step + 1 else 1 in
  let out :=
    filter (fun w => minlen <=? length w)
      (map (fun i => firstn size (skipn i txt))
         (map (fun k => k * step) (seq 0 cnt))) in
  windows text size step minlen =
  Return match out with
         | [] => if minlen <=? n then [firstn size txt] else []
         | _ => out
         end.
Proof.
  intros Hs txt n cnt out. unfold windows. fold txt.
  unfold range_step, len. destruct step as [| step']; [lia |].
  rewrite (window_count (length txt) size (S step') Hs). fold n. fold cnt.
  rewrite (append_loop (fun i => slice txt i (i + size)) (fun w => minlen <=? length w)).
  simpl app.
  replace (map (fun i => slice txt i (i + size)) (map (fun k => k * S step') (seq 0 cnt)))
    with (map (fun i => firstn size (skipn i txt)) (map (fun k => k * S step') (seq 0 cnt)))
    by (apply map_ext; intros i; symmetry; apply slice_window).
  fold out. unfold slice. rewrite Nat.sub_0_r. reflexivity.
Qed.

End WindowFacts.

Import windowize_dataset WindowFacts.

(** X15. Windows are slices of bounded length. With a zero step [windows]
    raises ValueError. With a positive step it returns a list in which
    every window is the slice of [size] characters (fewer at the end of the
    text) that starts at a multiple of [step] in the collapsed and trimmed
    text; no window is longer than [size], and when [minlen <= size] none
    is shorter than [minlen]. *)
Theorem X15_windows_are_bounded_slices (text : str) (size step minlen : nat) :
  let txt := strip (sub_spaces false text) in
  (step = 0 -> windows text size step minlen = Raise ValueError) /\
  (0 < step ->
   exists ws, windows text size step minlen = Return ws /\
     forall w, In w ws ->
       (exists k, w = firstn size (skipn (k * step) txt)) /\
       length w <= size /\
       (minlen <= size -> minlen <= length w)).
Proof.
  intros txt. split; [intros ->; reflexivity |]. intros Hs.
  rewrite (windows_eq text size step minlen Hs). fold txt.
  set (cnt := if size <=? length txt then _ else 1).
  set (out := filter _ _). eexists. split; [reflexivity |].
  assert (Hout : forall w, In w out ->
            (exists k, w = firstn size (skipn (k * step) txt)) /\
            length w <= size /\ minlen <= length w).
  { intros w Hw. apply filter_In in Hw. destruct Hw as [Hw Hl].
    apply Nat.leb_le in Hl. rewrite map_map in Hw. apply in_map_iff in Hw.
    destruct Hw as [k [<- _]]. split; [now exists k |].
    split; [| exact Hl]. rewrite length_firstn. lia. }
  destruct out as [| w0 out'] eqn:Eo.
  - destruct (Nat.leb_spec minlen (length txt)) as [L | L]; [| intros w []].
    intros w [<- | []]. split; [now exists 0 |].
    rewrite length_firstn. split; lia.
  - intros w Hw. destruct (Hout w Hw) as [H1 [H2 H3]]. auto.
Qed.

Lemma X15_windows_are_bounded_slices_witness :
  let text := u "  one two   three four five six  " in
  let txt := strip (sub_spaces false text) in
  (0 = 0 -> windows text 9 0 4 = Raise ValueError) /\
  (0 < 4 ->
   exists ws, windows text 9 4 4 = Return ws /\
     forall w, In w ws ->
       (exists k, w = firstn 9 (skipn (k * 4) txt)) /\
       length w <= 9 /\
       (4 <= 9 -> 4 <= length w)).
Proof.
  split.
  - apply (proj1 (X15_windows_are_bounded_slices (u "  one two   three four five six  ") 9 0 4)).
  - apply (proj2 (X15_windows_are_bounded_slices (u "  one two   three four five six  ") 9 4 4)).
Defined.

(** X16. When there is no window. With a positive step, [windows] returns
    the empty list exactly when the collapsed and trimmed text is shorter
    than [minlen]. *)
Theorem X16_windows_empty_iff_short (text : str) (size step minlen : nat) :
  0 < step ->
  windows text size step minlen = Return [] <->
  length (strip (sub_spaces false text)) < minlen.
Proof.
  intros Hs. rewrite (windows_eq text size step minlen Hs).
  set (txt := strip (sub_spaces false text)).
  set (cnt := if size <=? length txt then _ else 1).
  set (out := filter _ _).
  assert (Hshort : length txt < minlen -> out = []).
  { intros L. apply filter_none. intros w Hw. rewrite map_map in Hw.
    apply in_map_iff in Hw. destruct Hw as [k [<- _]].
    apply Nat.leb_gt. rewrite length_firstn, length_skipn. lia. }
  split.
  - intros E. destruct (Nat.leb_spec minlen (length txt)) as [L | L]; [| exact L].
    destruct out; [discriminate E | discriminate E].
  - intros L. rewrite (Hshort L).
    destruct (Nat.leb_spec minlen (length txt)); [lia | reflexivity].
Qed.

Lemma X16_windows_empty_iff_short_witness :
  0 < 250 /\
  (windows (u "  too   short ") 350 250 120 = Return [] <->
   length (strip (sub_spaces false (u "  too   short "))) < 120).
Proof.
  split; [lia |].
  apply (X16_windows_empty_iff_short (u "  too   short ") 350 250 120). lia.
Defined.

(** X17. Long texts. With a positive step and [minlen <= size], a text of
    at least [size] characters (collapsed and trimmed) yields exactly the
    [(n - size) / step + 1] full windows that start at the multiples of
    [step] up to [n - size]; each has [size] characters, and the
    characters after the last window are in no window. *)
Theorem X17_windows_of_long_text (text : str) (size step minlen : nat) :
  let txt := strip (sub_spaces false text) in
  let n := length txt in
  0 < step -> minlen <= size -> size <= n ->
  windows text size step minlen =
    Return (map (fun k => firstn size (skipn (k * step) txt))
              (seq 0 ((n - size) / step + 1))) /\
  forall k, k < (n - size) / step + 1 ->
    k * step + size <= n /\ length (firstn size (skipn (k * step) txt)) = size.
Proof.
  intros txt n Hs Hm Hn.
  assert (Hk : forall k, k < (n - size) / step + 1 ->
            k * step + size <= n /\ length (firstn size (skipn (k * step) txt)) = size).
  { intros k Hk.
    assert (k * step <= n - size).
    { apply Nat.le_trans with (m := step * ((n - size) / step)).
      - rewrite Nat.mul_comm. apply Nat.mul_le_mono_l. lia.
      - apply Nat.Div0.mul_div_le. }
    split; [lia |]. rewrite length_firstn, length_skipn. fold n. lia. }
  split; [| exact Hk].
  rewrite (windows_eq text size step minlen Hs). fold txt. fold n.
  destruct (Nat.leb_spec size n) as [_ | L]; [| lia].
  rewrite map_map. rewrite filter_all.
  - rewrite Nat.add_1_r. reflexivity.
  - intros w Hw. apply in_map_iff in Hw. destruct Hw as [k [<- Hin]].
    apply in_seq in Hin. apply Nat.leb_le.
    destruct (Hk k ltac:(lia)) as [_ ->]. exact Hm.
Qed.

Lemma X17_windows_of_long_text_witness :
  let text := u "  one two   three four five six  " in
  let txt := strip (sub_spaces false text) in
  let n := length txt in
  0 < 4 /\ 4 <= 9 /\ 9 <= n /\
  windows text 9 4 4 =
    Return (map (fun k => firstn 9 (skipn (k * 4) txt)) (seq 0 ((n - 9) / 4 + 1))) /\
  forall k, k < (n - 9) / 4 + 1 ->
    k * 4 + 9 <= n /\ length (firstn 9 (skipn (k * 4) txt)) = 9.
Proof.
  assert (H : 9 <= length (strip (sub_spaces false (u "  one two   three four five six  "))))
    by (vm_compute; lia).
  split; [lia |]. split; [lia |]. split; [exact H |].
  apply (X17_windows_of_long_text (u "  one two   three four five six  ") 9 4 4);
    [lia | lia | exact H].
Defined.

(** X18. Short texts. With a positive step, a text whose collapsed and
    trimmed form has at least [minlen] and at most [size] characters
    yields that form as its single window. *)
Theorem X18_windows_of_short_text (text : str) (size step minlen : nat) :
  let txt := strip (sub_spaces false text) in
  0 < step -> minlen <= length txt -> length txt <= size ->
  windows text size step minlen = Return [txt].
Proof.
  intros txt Hs Hm Hn.
  rewrite (windows_eq text size step minlen Hs). fold txt.
  assert (Ef : firstn size txt = txt) by (now apply firstn_all2).
  destruct (Nat.leb_spec size (length txt)) as [L | L].
  - replace (length txt - size) with 0 by lia.
    rewrite Nat.Div0.div_0_l. simpl seq. simpl map. rewrite Ef.
    simpl filter. apply Nat.leb_le in Hm. now rewrite Hm.
  - simpl seq. simpl map. rewrite Ef. simpl filter.
    apply Nat.leb_le in Hm. now rewrite Hm.
Qed.

Lemma X18_windows_of_short_text_witness :
  let text := u "  one two   three four five six  " in
  let txt := strip (sub_spaces false text) in
  0 < 250 /\ 12 <= length txt /\ length txt <= 350 /\
  windows text 350 250 12 = Return [txt].
Proof.
  assert (H1 : 12 <= length (strip (sub_spaces false (u "  one two   three four five six  "))))
    by (vm_compute; lia).
  assert (H2 : length (strip (sub_spaces false (u "  one two   three four five six  "))) <= 350)
    by (vm_compute; lia).
  split; [lia |]. split; [exact H1 |]. split; [exact H2 |].
  apply (X18_windows_of_short_text (u "  one two   three four five six  ") 350 250 12);
    [lia | exact H1 | exact H2].
Defined.

(* ===================================================================== *)
(** * The collector's text clean-up *)
(* ===================================================================== *)

Module CollectFacts.
Import Py PyFacts serve_api collect_google_cse Spec MatcherFacts TextFacts NormalFormFacts.

Lemma replace_nul (s : str) :
  str_replace s [0%N] [space] = map (fun c => if (c =? 0)%N then space else c) s.
Proof.
  unfold str_replace. induction s as [| c s IH]; [reflexivity |].
  cbn [replace_aux starts_with map length Nat.sub].
  rewrite andb_true_r, N.eqb_sym. destruct (c =? 0)%N; simpl; now rewrite IH.
Qed.

Lemma line_class_isspace (c : N) : line_class c = true -> isspace c = true.
Proof.
  unfold line_class. rewrite !orb_true_iff, !N.eqb_eq.
  intros [[-> | ->] | ->]; reflexivity.
Qed.

(** Replacing runs of line breaks and tabs by one space does not change
    the tokens. *)
Lemma split_sub_runs (s : str) :
  (forall cur, split_aux cur (sub_runs line_class false s) = split_aux cur s) /\
  split_aux [] (sub_runs line_class true s) = split_aux [] s.
Proof.
  induction s as [| c s [IH1 IH2]]; [split; reflexivity |].
  cbn [sub_runs]. destruct (line_class c) eqn:L.
  - pose proof (line_class_isspace c L) as Hc. split.
    + intros cur. cbn [split_aux]. rewrite Hc. change (isspace space) with true.
      cbv iota. now rewrite IH2.
    + cbn [split_aux]. now rewrite Hc.
  - split.
    + intros cur. cbn [split_aux]. destruct (isspace c); now rewrite ?IH1.
    + cbn [split_aux]. destruct (isspace c); now rewrite ?IH1.
Qed.

Lemma sub_runs_id (cls : N -> bool) (s : str) (in_run : bool) :
  Forall (fun c => cls c = false) s -> sub_runs cls in_run s = s.
Proof.
  intros H. revert in_run. induction H as [| c s Hc _ IH]; intros in_run; simpl.
  - reflexivity.
  - now rewrite Hc, IH.
Qed.

Lemma collect_normalize_eq (s : str) :
  collect_google_cse.normalize_text s =
  join [space] (split (map (fun c => if (c =? 0)%N then space else c) s)).
Proof.
  unfold collect_google_cse.normalize_text. rewrite replace_nul, collapse_strip.
  unfold split. now rewrite (proj1 (split_sub_runs _) []).
Qed.

Lemma clean_tokens (s : str) :
  Forall (fun t => t <> [] /\ Forall (fun c => isspace c = false /\ c <> 0%N) t)
    (split (map (fun c => if (c =? 0)%N then space else c) s)).
Proof.
  set (s1 := map _ s).
  pose proof (split_tokens s1) as Ht.
  assert (Hn : Forall (fun c => c <> 0%N) s1).
  { apply Forall_forall. intros c Hc. apply in_map_iff in Hc.
    destruct Hc as [c0 [<- _]]. destruct (N.eqb_spec c0 0); [discriminate | assumption]. }
  pose proof (split_Forall _ _ Hn) as Hz.
  rewrite Forall_forall in *. intros t Hin.
  destruct (Ht t Hin) as [Hne Hns]. split; [exact Hne |].
  specialize (Hz t Hin). rewrite Forall_forall in *. auto.
Qed.

End CollectFacts.

Import CollectFacts.

(** X19. The collector's clean-up. [normalize_text] of the Google
    collector returns the white-space separated tokens of the text, NUL
    counting as white space, joined by single spaces; no token holds a NUL
    or a white-space character. The separate replacement of line breaks
    and tabs adds nothing to the collapsing of white space. *)
Theorem X19_collect_normalize_text_shape (s : str) :
  let out := collect_google_cse.normalize_text s in
  out = join [space] (split (map (fun c => if (c =? 0)%N then space else c) s)) /\
  out = strip (sub_spaces false (str_replace s [0%N] [space])) /\
  split out = split (map (fun c => if (c =? 0)%N then space else c) s) /\
  Forall (fun t => t <> [] /\ Forall (fun c => isspace c = false /\ c <> 0%N) t)
    (split out).
Proof.
  intros out. unfold out.
  assert (E : split (collect_google_cse.normalize_text s)
              = split (map (fun c => if (c =? 0)%N then space else c) s)).
  { rewrite collect_normalize_eq. apply split_join, split_tokens. }
  split; [apply collect_normalize_eq |]. split.
  - rewrite collect_normalize_eq, replace_nul. symmetry. apply collapse_strip.
  - split; [exact E |]. rewrite E. apply clean_tokens.
Qed.

(** X20. The collector's clean-up is idempotent. *)
Theorem X20_collect_normalize_text_idempotent (s : str) :
  collect_google_cse.normalize_text (collect_google_cse.normalize_text s)
  = collect_google_cse.normalize_text s.
Proof.
  rewrite (collect_normalize_eq s).
  pose proof (clean_tokens s) as T.
  set (ts := split _) in *.
  assert (Hc : Forall (fun c => isspace c = false /\ c <> 0%N \/ c = space)
                 (join [space] ts)).
  { apply join_Forall; [repeat constructor; now right |].
    eapply Forall_impl; [| exact T]. intros t [_ Ht].
    eapply Forall_impl; [| exact Ht]. intros c Hc. now left. }
  unfold collect_google_cse.normalize_text. rewrite replace_nul.
  rewrite map_id_on.
  2:{ eapply Forall_impl; [| exact Hc]. intros c [[_ H] | ->]; [| reflexivity].
      destruct (N.eqb_spec c 0); [contradiction | reflexivity]. }
  rewrite sub_runs_id.
  2:{ eapply Forall_impl; [| exact Hc]. intros c [[H _] | ->]; [| reflexivity].
      destruct (collect_google_cse.line_class c) eqn:L; [| reflexivity].
      apply line_class_isspace in L. congruence. }
  apply collapse_strip_join.
  eapply Forall_impl; [| exact T]. intros t [Hne Ht]. split; [exact Hne |].
  eapply Forall_impl; [| exact Ht]. intros c [H _]. exact H.
Qed.

(** X21. Classifying normalized text. Classifying the display-normalized
    form of a text gives the same label, confidence, top-3 scores, matched
    and missing keywords and match result as classifying the text itself
    (only the example rewrite, made from the raw text, may differ). *)
Theorem X21_classify_of_normalized_text (A : dict Lexicon) (m : Model) (t : str)
    (g : RandomState) :
  templates_render A = true -> serves m (normalize_text t) = true ->
  exists r1 g1 r2 g2,
    classify A (Some m) (mkInp t) g = (Return (Ok r1), g1) /\
    classify A (Some m) (mkInp (normalize_text t)) g = (Return (Ok r2), g2) /\
    label r1 = label r2 /\ confidence r1 = confidence r2 /\
    scores r1 = scores r2 /\ patterns_found r1 = patterns_found r2 /\
    patterns_missing r1 = patterns_missing r2 /\
    patterns_found_all r1 = patterns_found_all r2.
Proof.
  intros Ht Hs.
  destruct (classifier_top m t Hs) as [top [conf [Emax [_ Econf]]]].
  destruct (classify_reply A m t top conf g Hs Ht Emax Econf) as [ex1 [g1 E1]].
  pose proof (normalize_text_idem t) as I.
  assert (Hs' : serves m (normalize_text (normalize_text t)) = true) by now rewrite I.
  assert (Emax' : max_by Qgtb (score (scores_of m (normalize_text (normalize_text t))))
                    (keys (scores_of m (normalize_text (normalize_text t)))) = Return top)
    by now rewrite I.
  assert (Econf' : dict_get (scores_of m (normalize_text (normalize_text t))) top = Some conf)
    by now rewrite I.
  destruct (classify_reply A m (normalize_text t) top conf g Hs' Ht Emax' Econf')
    as [ex2 [g2 E2]].
  rewrite I in E2.
  eexists. exists g1. eexists. exists g2.
  split; [exact E1 |]. split; [exact E2 |]. repeat split.
Qed.

Lemma X21_classify_of_normalized_text_witness :
  templates_render ARCHETYPES = true /\
  serves undecided (normalize_text caring_text) = true /\
  exists r1 g1 r2 g2,
    classify ARCHETYPES (Some undecided) (mkInp caring_text) counting
      = (Return (Ok r1), g1) /\
    classify ARCHETYPES (Some undecided) (mkInp (normalize_text caring_text)) counting
      = (Return (Ok r2), g2) /\
    label r1 = label r2 /\ confidence r1 = confidence r2 /\
    scores r1 = scores r2 /\ patterns_found r1 = patterns_found r2 /\
    patterns_missing r1 = patterns_missing r2 /\
    patterns_found_all r1 = patterns_found_all r2.
Proof.
  split; [reflexivity |]. split; [reflexivity |].
  apply (X21_classify_of_normalized_text ARCHETYPES undecided caring_text counting);
    reflexivity.
Defined.

(* ===================================================================== *)
(** * The encoders' normalization and the link collector *)
(* ===================================================================== *)

Module EncoderFacts.
Import Py PyFacts serve_api encoders.

Lemma starts_with_prefix (p s : str) :
  starts_with p s = true -> exists rest, s = p ++ rest.
Proof.
  revert s. induction p as [| a p IH]; intros s; simpl.
  - intros _. now exists s.
  - destruct s as [| b s]; [discriminate |].
    rewrite andb_true_iff, N.eqb_eq. intros [-> H].
    destruct (IH s H) as [rest ->]. now exists rest.
Qed.

(** A pattern with a character that the text does not have matches
    nowhere. *)
Lemma sub_literal_run_id (lit : str) (c b : N) (s : str) :
  In b (lit ++ [c]) -> ~ In b s -> sub_literal_run lit c Copy s = s.
Proof.
  intros Hb. induction s as [| x s IH]; intros Hs; [reflexivity |].
  cbn [sub_literal_run].
  destruct (starts_with (lit ++ [c]) (x :: s)) eqn:E.
  - apply starts_with_prefix in E. destruct E as [rest E].
    exfalso. apply Hs. rewrite E. apply in_or_app. now left.
  - rewrite IH; [reflexivity |]. intros H. apply Hs. now right.
Qed.

Lemma In_lstrip (x : N) (s : str) : In x (lstrip s) -> In x s.
Proof.
  induction s as [| c s IH]; [trivial |]. cbn [lstrip].
  destruct (isspace c); [| trivial]. intros H. right. auto.
Qed.

Lemma In_strip (x : N) (s : str) : In x (strip s) -> In x s.
Proof.
  unfold strip, rstrip. intros H.
  apply in_rev, In_lstrip, in_rev in H. now apply In_lstrip.
Qed.

(** The characters the class keeps lie at or below U+2019. *)
Lemma norm_class_bound (c : N) : norm_class c = true -> (c <= 8217)%N.
Proof.
  unfold norm_class, is_upper_az, is_lower_az, is_digit, in_range, backslash.
  rewrite !orb_true_iff, !andb_true_iff, !N.leb_le, !N.eqb_eq. lia.
Qed.

(** On a text of ASCII characters and of characters from U+2000 on, the
    characters that reach [.lower()] are ones on which [lower] is exact. *)
Lemma kept_lower_exact (s : str) :
  Forall (fun c => (c < 128)%N \/ (8192 <= c)%N) s ->
  forallb lower_exact (strip (sub_outside norm_class s)) = true.
Proof.
  intros Hs. apply forallb_forall. intros x Hx.
  apply In_strip in Hx. unfold sub_outside in Hx. apply in_map_iff in Hx.
  destruct Hx as [c [E Hc]]. rewrite Forall_forall in Hs. specialize (Hs c Hc).
  destruct (norm_class c) eqn:K; [| subst x; reflexivity].
  subst x. apply norm_class_bound in K.
  unfold lower_exact, in_range.
  rewrite orb_true_iff, andb_true_iff, N.ltb_lt, !N.leb_le. lia.
Qed.

End EncoderFacts.

Import EncoderFacts.

(** X22. The encoders' normalization on text without a backslash. Both
    the URL pattern and the white-space pattern of [_norm] need a
    backslash in the text, so on a text without one [_norm] only blanks
    the characters outside its class, one space for each, trims and
    lower-cases: before trimming the length is that of the input, runs of
    white space are not collapsed and nothing is cut out. Stated for texts
    of ASCII characters and of characters from U+2000 on, the ones whose
    lower-casing is modelled. *)
Theorem X22_encoders_norm_without_backslash (s : str) :
  ~ In encoders.backslash s ->
  Forall (fun c => (c < 128)%N \/ (8192 <= c)%N) s ->
  encoders._norm s = Return (lower (strip (sub_outside encoders.norm_class s))) /\
  length (sub_outside encoders.norm_class s) = length s.
Proof.
  intros H Hs. unfold encoders._norm.
  rewrite (sub_literal_run_id _ _ encoders.backslash s)
    by (first [exact H | simpl; tauto]).
  rewrite (sub_literal_run_id _ _ encoders.backslash).
  - rewrite (kept_lower_exact s Hs).
    split; [reflexivity |]. unfold sub_outside. apply length_map.
  - now left.
  - unfold sub_outside. intros Hin. apply in_map_iff in Hin.
    destruct Hin as [c [E Hc]]. destruct (encoders.norm_class c).
    + subst c. contradiction.
    + discriminate.
Qed.

Lemma X22_encoders_norm_without_backslash_witness :
  ~ In encoders.backslash (u "  See http://x.y  NOW ") /\
  Forall (fun c => (c < 128)%N \/ (8192 <= c)%N) (u "  See http://x.y  NOW ") /\
  encoders._norm (u "  See http://x.y  NOW ")
    = Return (lower (strip (sub_outside encoders.norm_class
                              (u "  See http://x.y  NOW ")))) /\
  length (sub_outside encoders.norm_class (u "  See http://x.y  NOW "))
    = length (u "  See http://x.y  NOW ").
Proof.
  assert (H : ~ In encoders.backslash (u "  See http://x.y  NOW "))
    by (vm_compute; intuition discriminate).
  assert (F : Forall (fun c => (c < 128)%N \/ (8192 <= c)%N)
                (u "  See http://x.y  NOW ")).
  { apply Forall_forall. intros c Hc. left. vm_compute in Hc.
    repeat (destruct Hc as [<- | Hc]; [reflexivity |]). contradiction. }
  split; [exact H |]. split; [exact F |].
  apply (X22_encoders_norm_without_backslash (u "  See http://x.y  NOW ") H F).
Defined.

(** What the code does with that text: the URL stays and the two spaces
    stay two. *)
Example encoders_norm_keeps_url :
  encoders._norm (u "  See http://x.y  NOW ") = Return (u "see http   x y  now").
Proof. reflexivity. Qed.

(** A capital letter outside ASCII that the class keeps: the model gives
    no result for [CAF\u00c9]. *)
Example encoders_norm_beyond_lower :
  encoders._norm [67; 65; 70; 201]%N = Raise Unsupported.
Proof. reflexivity. Qed.

Module LinkFacts.
Import Py PyFacts serve_api collect_google_cse.

Section Links.
Variable google_search : nat -> str -> nat -> list Item.
Variable per_query : Z.

(** What one pass over the items of a page adds. *)
Lemma scan_items_adds (items : list Item) (seen links : list str) (count : nat) :
  exists added,
    scan_items per_query items (seen, links, count)
      = (seen ++ added, links ++ added, count + length added) /\
    NoDup added /\
    (forall a, In a added -> ~ In a seen /\ a <> [] /\ In (Some a) items) /\
    ((Z.of_nat count < per_query)%Z -> (Z.of_nat (count + length added) <= per_query)%Z).
Proof.
  revert seen links count. induction items as [| it items IH]; intros seen links count.
  - exists []. cbn [scan_items]. rewrite !app_nil_r, Nat.add_0_r.
    repeat split; [constructor | contradiction | contradiction | contradiction | simpl; lia].
  - assert (Skip : scan_items per_query items (seen, links, count)
                   = scan_items per_query (it :: items) (seen, links, count) ->
             exists added,
               scan_items per_query (it :: items) (seen, links, count)
                 = (seen ++ added, links ++ added, count + length added) /\
               NoDup added /\
               (forall a, In a added ->
                  ~ In a seen /\ a <> [] /\ In (Some a) (it :: items)) /\
               ((Z.of_nat count < per_query)%Z ->
                (Z.of_nat (count + length added) <= per_query)%Z)).
    { intros <-. destruct (IH seen links count) as [added [E [ND [Ha Hc]]]].
      exists added. split; [exact E |]. split; [exact ND |]. split; [| exact Hc].
      intros a Hin. destruct (Ha a Hin) as [H1 [H2 H3]]. repeat split; auto. now right. }
    destruct it as [[| c l] |]; try (apply Skip; reflexivity).
    destruct (contains seen (c :: l)) eqn:C.
    { apply Skip. cbn [scan_items]. now rewrite C. }
    cbn [scan_items]. rewrite C.
    assert (Hnew : ~ In (c :: l) seen).
    { intros H. apply contains_In in H. congruence. }
    destruct (per_query <=? Z.of_nat (S count))%Z eqn:B.
    + exists [c :: l]. split; [simpl; now rewrite Nat.add_1_r |].
      split; [repeat constructor; intros [] |]. split.
      * intros a [<- | []]. repeat split; [exact Hnew | discriminate | now left].
      * intros G. cbn [length]. lia.
    + destruct (IH (seen ++ [c :: l]) (links ++ [c :: l]) (S count))
        as [added [E [ND [Ha Hc]]]].
      exists ((c :: l) :: added). rewrite E, <- !app_assoc. simpl.
      split; [repeat f_equal; lia |]. split.
      * constructor; [| exact ND]. intros Hin. apply (Ha _) in Hin.
        destruct Hin as [Hin _]. apply Hin, in_or_app. right. now left.
      * split.
        -- intros a [<- | Hin]; [repeat split; [exact Hnew | discriminate | now left] |].
           destruct (Ha a Hin) as [H1 [H2 H3]]. repeat split; auto.
           intros H. apply H1, in_or_app. now left.
        -- intros _. apply Z.leb_gt in B.
           replace (count + S (length added)) with (S count + length added) by lia.
           apply Hc. lia.
Qed.

(** What the pages of one query add. *)
Lemma pages_adds (i : nat) (q : str) (todo : list nat) (seen links : list str)
    (count : nat) :
  exists added,
    pages google_search per_query i q todo (seen, links, count)
      = (seen ++ added, links ++ added, count + length added) /\
    NoDup added /\
    (forall a, In a added ->
       ~ In a seen /\ a <> [] /\
       exists start, In start todo /\ In (Some a) (google_search i q start)) /\
    (Z.of_nat (count + length added) <= Z.max (Z.of_nat count) per_query)%Z.
Proof.
  revert seen links count. induction todo as [| start todo IH]; intros seen links count.
  - exists []. cbn [pages]. rewrite !app_nil_r, Nat.add_0_r.
    repeat split; [constructor | contradiction | contradiction | contradiction | simpl; lia].
  - assert (Stop : exists added,
               (seen, links, count) = (seen ++ added, links ++ added, count + length added) /\
               NoDup added /\
               (forall a, In a added ->
                  ~ In a seen /\ a <> [] /\
                  exists s, In s (start :: todo) /\ In (Some a) (google_search i q s)) /\
               (Z.of_nat (count + length added) <= Z.max (Z.of_nat count) per_query)%Z).
    { exists []. rewrite !app_nil_r, Nat.add_0_r.
      repeat split; [constructor | contradiction | contradiction | contradiction | simpl; lia]. }
    cbn [pages]. destruct (Z.of_nat count <? per_query)%Z eqn:G; [| exact Stop].
    apply Z.ltb_lt in G.
    destruct (google_search i q start) as [| it items] eqn:Es; [exact Stop |].
    destruct (scan_items_adds (it :: items) seen links count) as [a1 [E1 [N1 [H1 C1]]]].
    rewrite E1.
    destruct (IH (seen ++ a1) (links ++ a1) (count + length a1)) as [a2 [E2 [N2 [H2 C2]]]].
    exists (a1 ++ a2). rewrite E2, <- !app_assoc, length_app.
    split; [now rewrite Nat.add_assoc |]. split.
    + apply NoDup_app; [exact N1 | exact N2 |].
      intros a Ha1 Ha2. destruct (H2 a Ha2) as [Hn _]. apply Hn, in_or_app. now right.
    + split.
      * intros a Hin. apply in_app_or in Hin. destruct Hin as [Hin | Hin].
        -- destruct (H1 a Hin) as [Hn [Hne Hi]]. repeat split; auto.
           exists start. split; [now left | now rewrite Es].
        -- destruct (H2 a Hin) as [Hn [Hne [s [Hs Hi]]]]. repeat split; auto.
           ++ intros H. apply Hn, in_or_app. now left.
           ++ exists s. split; [now right | exact Hi].
      * specialize (C1 G). lia.
Qed.

(** What the queries add. *)
Lemma queries_loop_adds (queries : list str) (i : nat) (seen links : list str) :
  exists added,
    queries_loop google_search per_query i queries seen links
      = (seen ++ added, links ++ added) /\
    NoDup added /\
    (forall a, In a added ->
       ~ In a seen /\ a <> [] /\
       exists j q start, nth_error queries j = Some q /\ In start starts /\
                         In (Some a) (google_search (i + j) q start)) /\
    (Z.of_nat (length added) <= Z.max 0 per_query * Z.of_nat (length queries))%Z.
Proof.
  revert i seen links. induction queries as [| q queries IH]; intros i seen links.
  - exists []. cbn [queries_loop]. rewrite !app_nil_r.
    repeat split; [constructor | contradiction | contradiction | contradiction | simpl; lia].
  - cbn [queries_loop].
    destruct (pages_adds i q starts seen links 0) as [a1 [E1 [N1 [H1 C1]]]].
    rewrite E1.
    destruct (IH (S i) (seen ++ a1) (links ++ a1)) as [a2 [E2 [N2 [H2 C2]]]].
    exists (a1 ++ a2). rewrite E2, <- !app_assoc, length_app.
    split; [reflexivity |]. split.
    + apply NoDup_app; [exact N1 | exact N2 |].
      intros a Ha1 Ha2. destruct (H2 a Ha2) as [Hn _]. apply Hn, in_or_app. now right.
    + split.
      * intros a Hin. apply in_app_or in Hin. destruct Hin as [Hin | Hin].
        -- destruct (H1 a Hin) as [Hn [Hne [s [Hs Hi]]]]. repeat split; auto.
           exists 0, q, s. rewrite Nat.add_0_r. auto.
        -- destruct (H2 a Hin) as [Hn [Hne [j [q' [s [Hj [Hs Hi]]]]]]]. repeat split; auto.
           ++ intros H. apply Hn, in_or_app. now left.
           ++ exists (S j), q', s. rewrite Nat.add_succ_r. auto.
      * simpl length in *. lia.
Qed.

End Links.

End LinkFacts.

Import LinkFacts.

(** X23. Collected links are distinct and come from the search. Whatever
    the search service answers, [collect_links] returns no link twice and
    no empty link, and each returned link is the link of an item of a
    response to one of the queries at one of the starts 1, 11, ..., 91. *)
Theorem X23_collect_links_distinct (google_search : nat -> str -> nat -> list collect_google_cse.Item)
    (per_query : Z) (queries : list str) :
  let links := collect_google_cse.collect_links google_search per_query queries in
  NoDup links /\
  forall a, In a links ->
    a <> [] /\
    exists j q start, nth_error queries j = Some q /\
      In start collect_google_cse.starts /\ In (Some a) (google_search j q start).
Proof.
  intros links. unfold links, collect_google_cse.collect_links.
  destruct (queries_loop_adds google_search per_query queries 0 [] [])
    as [added [E [ND [H _]]]].
  rewrite E. cbn [snd app]. split; [exact ND |].
  intros a Ha. destruct (H a Ha) as [_ [Hne Hex]]. split; [exact Hne | exact Hex].
Qed.

(** X24. The cap on collected links. [collect_links] returns at most
    [per_query] times the number of queries links in all, and none when
    [per_query] is zero or negative. *)
Theorem X24_collect_links_capped (google_search : nat -> str -> nat -> list collect_google_cse.Item)
    (per_query : Z) (queries : list str) :
  let links := collect_google_cse.collect_links google_search per_query queries in
  (Z.of_nat (length links) <= Z.max 0 per_query * Z.of_nat (length queries))%Z /\
  ((per_query <= 0)%Z -> links = []).
Proof.
  intros links. unfold links, collect_google_cse.collect_links.
  destruct (queries_loop_adds google_search per_query queries 0 [] [])
    as [added [E [_ [_ C]]]].
  rewrite E. cbn [snd app]. split; [exact C |].
  intros Hp. destruct added as [| a added]; [reflexivity |].
  simpl length in C. lia.
Qed.
